(** * Registry interaction of atomic-reactor: pull_base_image and pulp_pull

    A shallow embedding of the two plugins

    - [atomic_reactor/plugins/pre_pull_base_image.py] (class
      [PullBaseImagePlugin]) and
    - [atomic_reactor/plugins/post_pulp_pull.py] (class [PulpPullPlugin]),

    followed by the properties their specification states about them, and
    of [PathSource.get] of [dock/source.py].

    Python objects are modelled by records, exceptions by the inductive
    type [Py.Exn], and every call that leaves the plugin (the docker
    tasker, the registry, the clock, the logger) is an event appended to a
    trace; what such a call answers is read from an environment record
    whose functions see the trace so far, so the environment may answer
    differently at every call. *)

From stdpp Require Import gmap strings list fin_maps pretty.
From Stdlib Require Import ZArith Lia Sorted.

(** ** Python values, exceptions and containers *)

Module Py.

(** Truth value of an optional string: [None] and [''] are false. *)
Definition truthy (s : option string) : bool :=
  match s with
  | None => false
  | Some s => negb (String.eqb s "")
  end.

(** [needle in hay] on strings. *)
Fixpoint str_in (needle hay : string) : bool :=
  String.prefix needle hay ||
  match hay with
  | EmptyString => false
  | String _ rest => str_in needle rest
  end.

(** [sorted] on a list of strings (code point order). *)
Fixpoint insert_sorted (s : string) (l : list string) : list string :=
  match l with
  | [] => [s]
  | x :: l' => if String.leb s x then s :: l else x :: insert_sorted s l'
  end.

Definition sorted (l : list string) : list string :=
  foldr insert_sorted [] l.

(** The entries of a [dict] with string keys, kept in the order of their
    insertion: assigning to a key that is present replaces the value and
    keeps the key's place.  Lookups do not depend on that order; the order
    in which the entries are iterated over is the interpreter's (the field
    [dict_items] of the environment of the plugin that iterates). *)
Fixpoint dict_set {V} (k : string) (v : V) (d : list (string * V)) : list (string * V) :=
  match d with
  | [] => [(k, v)]
  | (k', v') :: d' =>
      if String.eqb k k' then (k, v) :: d' else (k', v') :: dict_set k v d'
  end.

Fixpoint dict_get {V} (k : string) (d : list (string * V)) : option V :=
  match d with
  | [] => None
  | (k', v') :: d' => if String.eqb k k' then Some v' else dict_get k d'
  end.

(** The part of [requests.Response] and [requests.Request] the plugins read. *)
Record Response := mkResponse {
  status_code : Z;
  reason : string;
  headers : string;
  content : string
}.

Record Request := mkRequest {
  url : string;
  request_headers : string
}.

(** Exceptions, by class.  [response] and [request] of the [requests]
    exceptions may be [None]. *)
Inductive Exn :=
| RuntimeError (msg : string)
| AssertionError (msg : string)
| KeyError (key : string)
| AttributeError (msg : string)
| RetryGeneratorException (msg : string)
| NotFound (msg : string)
| HTTPError (response : option Response) (request : option Request)
| RetryError (response : option Response)
| Timeout (response : option Response)
| CraneTimeoutError (msg : string)
| OtherError (cls msg : string).

Inductive Result (A : Type) :=
| Ok (a : A)
| Raise (e : Exn).
Arguments Ok {A} a.
Arguments Raise {A} e.

Definition is_ok {A} (r : Result A) : bool :=
  match r with Ok _ => true | Raise _ => false end.

Inductive Level := DEBUG | INFO | WARNING | ERROR.

(** Computations over a state [S]: a state transformer that returns or
    raises; the state reached when an exception is raised is kept. *)
Definition M (S A : Type) : Type := S -> Result A * S.

Definition ret {S A} (a : A) : M S A := fun s => (Ok a, s).
Definition raise {S A} (e : Exn) : M S A := fun s => (Raise e, s).
Definition bind {S A B} (m : M S A) (k : A -> M S B) : M S B :=
  fun s => match m s with
           | (Ok a, s') => k a s'
           | (Raise e, s') => (Raise e, s')
           end.
Definition get {S} : M S S := fun s => (Ok s, s).
Definition modify {S} (f : S -> S) : M S unit := fun s => (Ok tt, f s).
Definition lift {S A} (r : Result A) : M S A := fun s => (r, s).

(** [try: m  except <classes>: h]: [h] runs on the exceptions [catches]
    selects, the others pass. *)
Definition try_except {S A} (m : M S A) (catches : Exn -> bool) (h : Exn -> M S A)
  : M S A :=
  fun s => match m s with
           | (Raise e, s') => if catches e then h e s' else (Raise e, s')
           | r => r
           end.

Declare Scope py_scope.
Delimit Scope py_scope with py.
Notation "x <- m ;; k" := (bind m (fun x => k))
  (at level 100, m at next level, right associativity) : py_scope.
Notation "m ;;; k" := (bind m (fun _ => k))
  (at level 100, right associativity) : py_scope.

End Py.

(** ** ImageName *)

Module Image.

(** Modelled from the spec: [atomic_reactor.util.ImageName] is not among the
    sources.  It is the ImageReference value of the data model, with the
    fields the plugins read and assign ([registry], [namespace], [repo],
    [tag]; a digest is held in [tag]), compared structurally so that it can
    key the manifest list cache. *)
Record ImageName := mkImageName {
  registry : option string;
  namespace : option string;
  repo : option string;
  tag : option string
}.

Definition set_registry (r : option string) (i : ImageName) : ImageName :=
  mkImageName r (namespace i) (repo i) (tag i).

Definition set_namespace (n : option string) (i : ImageName) : ImageName :=
  mkImageName (registry i) n (repo i) (tag i).

Definition set_tag (t : option string) (i : ImageName) : ImageName :=
  mkImageName (registry i) (namespace i) (repo i) t.

#[export] Instance ImageName_eq_dec : EqDecision ImageName.
Proof. solve_decision. Defined.

#[export] Instance ImageName_countable : Countable ImageName.
Proof.
  refine (inj_countable'
            (fun i => (registry i, namespace i, repo i, tag i))
            (fun t => match t with (r, n, p, g) => mkImageName r n p g end) _).
  by intros [].
Defined.

(** Image objects live in a store: [copy] allocates a new object, an
    attribute assignment updates the object in place. *)
Definition loc := nat.

Definition alloc (v : ImageName) (h : gmap loc ImageName) : loc * gmap loc ImageName :=
  let l := fresh (dom h) in (l, <[l := v]> h).

End Image.

(** ** pre_pull_base_image.py *)

Module PullBaseImage.
Import Py Image.
Open Scope py_scope.

(** One entry of [manifest_list.json()['manifests']]:
    [manifest['platform']['architecture']] and [manifest['digest']]. *)
Record Manifest := mkManifest {
  architecture : string;
  digest : string
}.

(** [config_blob['config']['Labels']]; a missing key is [None]. *)
Record ConfigBlob := mkConfigBlob {
  config_Labels : option (gmap string string)
}.

(** Calls that leave the plugin, in the order they are made. *)
Inductive Event :=
| Log (lvl : Level) (fmt : string) (args : list string)
| PullImage (image : ImageName) (insecure : bool)
| TagImage (image new_image : ImageName)
| GetManifestList (image : ImageName) (reg : option string) (insecure : bool)
| GetConfigFromRegistry (image : ImageName) (reg : option string)
                        (dig : option string) (insecure : bool)
| SetBaseImage (name : string).

Definition is_pull (e : Event) : bool :=
  match e with PullImage _ _ => true | _ => false end.

Definition is_tag (e : Event) : bool :=
  match e with TagImage _ _ => true | _ => false end.

Definition is_manifest_fetch (e : Event) : bool :=
  match e with GetManifestList _ _ _ => true | _ => false end.

Definition is_config_fetch (e : Event) : bool :=
  match e with GetConfigFromRegistry _ _ _ _ => true | _ => false end.

Definition is_registry_fetch (e : Event) : bool :=
  is_manifest_fetch e || is_config_fetch e.

(** The log record that announces the retry under the [library]
    namespace. *)
Definition is_library_rewrite (e : Event) : bool :=
  match e with
  | Log INFO fmt _ => String.eqb fmt "trying '%s'"
  | _ => false
  end.

Definition count (p : Event -> bool) (t : list Event) : nat :=
  length (List.filter p t).

(** What the plugin does not define itself.  [to_str], [to_str_notag] and
    [parse] are the methods of [ImageName] ([str(image)], [image.to_str()],
    [image.to_str(tag=False)], [ImageName.parse]); the next four fields
    answer the calls to the docker tasker and to the registry, given the
    trace of the calls made before.  [dict_items] is the order in which the
    interpreter iterates over the items of a [dict], given in the order of
    their insertion: the same order from Python 3.7 on, an order of its own
    choice before; the plugin does not depend on the version. *)
Record Env := mkEnv {
  to_str : ImageName -> string;
  to_str_notag : ImageName -> string;
  parse : string -> ImageName;
  pull_image : list Event -> ImageName -> bool -> option Exn;
  tag_image : list Event -> ImageName -> ImageName -> Result string;
  get_manifest_list :
    list Event -> ImageName -> option string -> bool -> Result (option (list Manifest));
  get_config_from_registry :
    list Event -> ImageName -> option string -> option string -> bool -> Result ConfigBlob;
  dict_items : list (string * string) -> list (string * string)
}.

(** [self], with what it reads from the workflow: [get_platforms],
    [get_platform_to_goarch_mapping] and [get_goarch_to_platform_mapping]
    ([None] where the accessor raises [KeyError]), [platform.processor()],
    and the builder's images. *)
Record Plugin := mkPlugin {
  parent_registry : option string;
  parent_registry_insecure : bool;
  check_platforms : bool;
  expected_platforms : option (list string);
  platform_to_goarch : option (gmap string string);
  goarch_to_platform : option (gmap string string);
  processor : string;
  original_base_image : string;
  base_image : ImageName
}.

(** [get_build_json()]: the outcome of
    [spec['triggeredBy'][0]['imageChangeBuild']['imageID']] ([None] when it
    raises) and [build_json['metadata']['name']]. *)
Record BuildJson := mkBuildJson {
  trigger_image_id : option string;
  metadata_name : option string
}.

(** What the plugin changes. *)
Record State := mkState {
  manifest_list_cache : gmap ImageName (option (list Manifest));
  pulled_base_images : gset string;
  parent_images : gmap string string;
  trace : list Event
}.

Definition set_cache (c : gmap ImageName (option (list Manifest))) (s : State) : State :=
  mkState c (pulled_base_images s) (parent_images s) (trace s).

Definition add_pulled (n : string) (s : State) : State :=
  mkState (manifest_list_cache s) ({[ n ]} ∪ pulled_base_images s) (parent_images s) (trace s).

Definition set_parent (k v : string) (s : State) : State :=
  mkState (manifest_list_cache s) (pulled_base_images s) (<[k := v]> (parent_images s)) (trace s).

Definition emit (e : Event) (s : State) : State :=
  mkState (manifest_list_cache s) (pulled_base_images s) (parent_images s) (trace s ++ [e]).

Definition log (lvl : Level) (fmt : string) (args : list string) : M State unit :=
  modify (emit (Log lvl fmt args)).

Section Model.
Variable env : Env.
Variable self : Plugin.

(** An external call: record it, then ask the environment, which sees the
    trace before the call. *)
Definition call_pull_image (image : ImageName) : M State (option Exn) :=
  s <- get ;;
  modify (emit (PullImage image (parent_registry_insecure self))) ;;;
  ret (pull_image env (trace s) image (parent_registry_insecure self)).

Definition call_tag_image (image new_image : ImageName) : M State string :=
  s <- get ;;
  modify (emit (TagImage image new_image)) ;;;
  lift (tag_image env (trace s) image new_image).

Definition call_get_manifest_list (image : ImageName) : M State (option (list Manifest)) :=
  s <- get ;;
  modify (emit (GetManifestList image (registry image) (parent_registry_insecure self))) ;;;
  lift (get_manifest_list env (trace s) image (registry image) (parent_registry_insecure self)).

Definition call_get_config_from_registry (image : ImageName) : M State ConfigBlob :=
  s <- get ;;
  modify (emit (GetConfigFromRegistry image (registry image) (tag image)
                  (parent_registry_insecure self))) ;;;
  lift (get_config_from_registry env (trace s) image (registry image) (tag image)
          (parent_registry_insecure self)).

(** *** [_ensure_image_registry] *)

Definition registry_mismatch_error (image_str : string) : string :=
  "Registry specified in dockerfile image doesn't match configured one. "
  +:+ "Dockerfile: '" +:+ image_str +:+ "'; expected registry: '"
  +:+ default "" (parent_registry self) +:+ "'".

(** On objects: [image] is a reference into the store [h] of [ImageName]
    objects; the answer is the outcome, the store afterwards and what was
    logged ([None] only for a dangling reference). *)
Definition _ensure_image_registry_obj (image : loc) (h : gmap loc ImageName)
  : option (Result loc * gmap loc ImageName * list Event) :=
  v ← h !! image;
  let '(image_with_registry, h) := alloc v h in
  if truthy (parent_registry self) then
    r ← registry <$> h !! image;
    if truthy r && negb (bool_decide (r = parent_registry self)) then
      s ← to_str env <$> h !! image;
      let error := registry_mismatch_error s in
      Some (Raise (RuntimeError error), h, [Log ERROR "%s" [error]])
    else
      Some (Ok image_with_registry,
            alter (set_registry (parent_registry self)) image_with_registry h, [])
  else Some (Ok image_with_registry, h, []).

(** On values, as the rest of the plugin is modelled: every method copies
    the image it is given before it assigns to an attribute. *)
Definition _ensure_image_registry (image : ImageName) : M State ImageName :=
  let image_with_registry := image in
  if truthy (parent_registry self) then
    if truthy (registry image) &&
       negb (bool_decide (registry image = parent_registry self)) then
      let error := registry_mismatch_error (to_str env image) in
      log ERROR "%s" [error] ;;;
      raise (RuntimeError error)
    else ret (set_registry (parent_registry self) image_with_registry)
  else ret image_with_registry.

(** *** [_pull_and_tag_image] *)

(** How one pass through the body of [for _ in range(20)] ends when it
    does not raise: [continue] with the image and the remembered failure as
    they are then, or [return new_image]. *)
Inductive Flow :=
| Continue (image : ImageName) (first_library_exc : option Exn)
| Return (new_image : ImageName).

Definition attempt (build_json : BuildJson) (nonce : string)
    (image : ImageName) (first_library_exc : option Exn) : M State Flow :=
  r <- call_pull_image image ;;
  match r with
  | Some (RetryGeneratorException _ as exc) =>
      match first_library_exc with
      | Some first => raise first
      | None =>
          if truthy (namespace image) then raise exc
          else
            log INFO "'%s' not found" [to_str env image] ;;;
            let image := set_namespace (Some "library") image in
            log INFO "trying '%s'" [to_str env image] ;;;
            ret (Continue image (Some exc))
      end
  | Some e => raise e
  | None =>
      modify (add_pulled (to_str env image)) ;;;
      match metadata_name build_json with
      | None => raise (KeyError "name")
      | Some unique_id =>
          let new_image := mkImageName None None (Some unique_id) (Some nonce) in
          log INFO "tagging pulled image" [] ;;;
          try_except
            (response <- call_tag_image image new_image ;;
             modify (add_pulled response) ;;;
             log DEBUG "image '%s' is available as '%s'"
               [to_str env image; to_str env new_image] ;;;
             ret (Return new_image))
            (fun e => match e with NotFound _ => true | _ => false end)
            (fun _ =>
               log INFO "re-pulling removed image" [] ;;;
               ret (Continue image first_library_exc))
      end
  end.

(** The loop with [n] passes left; when none is left the method gives up. *)
Fixpoint pull_and_tag_loop (n : nat) (build_json : BuildJson) (nonce : string)
    (image : ImageName) (first_library_exc : option Exn) : M State ImageName :=
  match n with
  | O =>
      log ERROR "giving up trying to pull image" [] ;;;
      raise (RuntimeError "too many attempts to pull and tag image")
  | S n' =>
      flow <- attempt build_json nonce image first_library_exc ;;
      match flow with
      | Continue image first_library_exc =>
          pull_and_tag_loop n' build_json nonce image first_library_exc
      | Return new_image => ret new_image
      end
  end.

Definition _pull_and_tag_image (image : ImageName) (build_json : BuildJson)
    (nonce : string) : M State ImageName :=
  pull_and_tag_loop 20 build_json nonce image None.

(** [n] passes in a row, from the given image, failure and state, all end
    in [continue]. *)
Fixpoint all_continue (n : nat) (build_json : BuildJson) (nonce : string)
    (image : ImageName) (first_library_exc : option Exn) (s : State) : Prop :=
  match n with
  | O => True
  | S n' =>
      match attempt build_json nonce image first_library_exc s with
      | (Ok (Continue image' first'), s') => all_continue n' build_json nonce image' first' s'
      | _ => False
      end
  end.

(** *** [_get_manifest_list] *)

Definition is_transport_error (e : Exn) : bool :=
  match e with
  | HTTPError _ _ | RetryError _ | Timeout _ => true
  | _ => false
  end.

Definition exn_response (e : Exn) : option Response :=
  match e with
  | HTTPError r _ | RetryError r | Timeout r => r
  | _ => None
  end.

Definition label (blob : ConfigBlob) (key : string) : M State string :=
  match config_Labels blob with
  | None => raise (KeyError "Labels")
  | Some labels =>
      match labels !! key with
      | None => raise (KeyError key)
      | Some v => ret v
      end
  end.

Definition _get_manifest_list (image : ImageName) : M State (option (list Manifest)) :=
  s <- get ;;
  match manifest_list_cache s !! image with
  | Some cached => ret cached
  | None =>
      manifest_list <- call_get_manifest_list image ;;
      fetched <-
        (if str_in "@sha256:" (to_str env image) && negb (bool_decide (is_Some manifest_list))
         then
           config_blob <-
             try_except (call_get_config_from_registry image) is_transport_error
               (fun ex =>
                  match exn_response ex with
                  | None =>
                      raise (AttributeError
                               "'NoneType' object has no attribute 'status_code'")
                  | Some response =>
                      log WARNING "Unable to fetch config for %s, got error %s"
                        [to_str env image; pretty (status_code response)] ;;;
                      raise (RuntimeError "Unable to fetch config for base image")
                  end) ;;
           release <- label config_blob "release" ;;
           version <- label config_blob "version" ;;
           let docker_tag := version +:+ "-" +:+ release in
           let image := set_tag (Some docker_tag) image in
           manifest_list <- call_get_manifest_list image ;;
           ret (image, manifest_list)
         else ret (image, manifest_list)) ;;
      let '(image, manifest_list) := fetched in
      s <- get ;;
      modify (set_cache (<[image := manifest_list]> (manifest_list_cache s))) ;;;
      ret manifest_list
  end.

(** The condition under which a resolution of [image] from the state [s]
    takes the path through the configuration blob: the image is not cached,
    it is addressed by digest, and the fetch of its manifest list answers
    nothing. *)
Definition takes_fallback (image : ImageName) (s : State) : bool :=
  bool_decide (manifest_list_cache s !! image = None) &&
  str_in "@sha256:" (to_str env image) &&
  match get_manifest_list env (trace s) image (registry image)
          (parent_registry_insecure self) with
  | Ok None => true
  | _ => false
  end.

(** *** [_validate_platforms_in_image] *)

(** [platform_to_arch[platform] for platform in expected_platforms]; the
    first platform without an entry raises [KeyError]. *)
Fixpoint lookup_all (platform_to_arch : gmap string string) (platforms : list string)
  : Result (list string) :=
  match platforms with
  | [] => Ok []
  | p :: rest =>
      match platform_to_arch !! p with
      | None => Raise (KeyError p)
      | Some a =>
          match lookup_all platform_to_arch rest with
          | Ok l => Ok (a :: l)
          | Raise e => Raise e
          end
      end
  end.

Definition arches (manifests : list Manifest) : gset string :=
  list_to_set (architecture <$> manifests).

Definition render_set (s : gset string) : string :=
  "{" +:+ String.concat ", " (sorted (elements s)) +:+ "}".

(** The [assert] statement is taken as executed (no [-O]). *)
Definition _validate_platforms_in_image (image : ImageName) : M State unit :=
  match expected_platforms self with
  | None | Some [] =>
      log INFO ("Skipping validation of available platforms "
                +:+ "because expected platforms are unknown") []
  | Some expected =>
      if Nat.eqb (length expected) 1 then
        log INFO ("Skipping validation of available platforms for base image "
                  +:+ "because this is a single platform build") []
      else if negb (truthy (registry image)) then
        log INFO ("Cannot validate available platforms for base image "
                  +:+ "because base image registry is not defined") []
      else
        match platform_to_goarch self with
        | None =>
            log INFO ("Cannot validate available platforms for base image "
                      +:+ "because platform descriptors are not defined") []
        | Some platform_to_arch =>
            manifest_list <- _get_manifest_list image ;;
            match manifest_list with
            | None => raise (RuntimeError "Unable to fetch manifest list for base image")
            | Some all_manifests =>
                let manifest_list_arches := arches all_manifests in
                mapped <- lift (lookup_all platform_to_arch expected) ;;
                let expected_arches : gset string := list_to_set mapped in
                log INFO "Manifest list arches: %s, expected arches: %s"
                  [render_set manifest_list_arches; render_set expected_arches] ;;;
                if bool_decide (expected_arches ⊆ manifest_list_arches) then
                  log INFO "Base image is a manifest list for all required platforms" []
                else raise (AssertionError "Missing arches in manifest list for base image")
            end
        end
  end.

(** The ways [_validate_platforms_in_image] returns before it asks for the
    manifest list. *)
Definition validation_skipped (image : ImageName) : Prop :=
  expected_platforms self = None \/
  (exists l, expected_platforms self = Some l /\ length l < 2) \/
  truthy (registry image) = false \/
  platform_to_goarch self = None.

(** *** [_get_image_for_different_arch] *)

(** [arch_digests], its entries in the order of their insertion. *)
Definition arch_digests_of (image_name : string) (manifests : list Manifest)
  : list (string * string) :=
  foldl (fun d m => dict_set (architecture m) (image_name +:+ "@" +:+ digest m) d)
        [] manifests.

(** The loop over [arch_digests.items()]: the platform of the architecture
    seen last and [build_image_digests]. *)
Fixpoint platform_digests (arch_to_platform : gmap string string)
    (items : list (string * string)) (present_platform : option string)
    (build_image_digests : list (string * string))
  : Result (option string * list (string * string)) :=
  match items with
  | [] => Ok (present_platform, build_image_digests)
  | (arch, dig) :: rest =>
      match arch_to_platform !! arch with
      | None => Raise (KeyError arch)
      | Some p =>
          platform_digests arch_to_platform rest (Some p) (dict_set p dig build_image_digests)
      end
  end.

(** The [try] block: the pull specification of the image to use instead,
    if any.  The loop takes the items of [arch_digests] in the order the
    interpreter gives them. *)
Definition different_arch_pullspec (arch_digests : list (string * string))
    (platform : string) : Result (option string) :=
  match goarch_to_platform self with
  | None => Raise (KeyError "platform_descriptors")
  | Some arch_to_platform =>
      match platform_digests arch_to_platform (dict_items env arch_digests) None [] with
      | Raise e => Raise e
      | Ok (present_platform, build_image_digests) =>
          if bool_decide (is_Some (dict_get platform build_image_digests)) then Ok None
          else
            match present_platform with
            | None => Raise (KeyError "None")
            | Some p =>
                match dict_get p build_image_digests with
                | None => Raise (KeyError p)
                | Some d => Ok (Some d)
                end
            end
      end
  end.

Definition _get_image_for_different_arch (image : ImageName) (platform : string)
  : M State (option ImageName) :=
  manifest_list <- _get_manifest_list image ;;
  match manifest_list with
  | None => ret None
  | Some manifests =>
      let image_name := to_str_notag env image in
      let arch_digests := arch_digests_of image_name manifests in
      try_except
        (spec <- lift (different_arch_pullspec arch_digests platform) ;;
         ret (parse env <$> spec))
        (fun e => match e with KeyError _ => true | _ => false end)
        (fun _ =>
           log INFO ("Cannot validate available platforms for base image "
                     +:+ "because platform descriptors are not defined") [] ;;;
           ret None)
  end.

(** *** [_resolve_base_image] *)

Definition _resolve_base_image (build_json : BuildJson) : M State ImageName :=
  match trigger_image_id build_json with
  | None =>
      log INFO "using %s as base image." [to_str env (base_image self)] ;;;
      ret (base_image self)
  | Some image_id =>
      log INFO "using %s from build spec[triggeredBy] as base image." [image_id] ;;;
      ret (parse env image_id)
  end.

(** *** [run] *)

Definition current_platform : string :=
  if String.eqb (processor self) "" then "x86_64" else processor self.

(** What [run] does to an image between [_ensure_image_registry] and
    [_pull_and_tag_image]. *)
Definition select_for_platform (image : ImageName) : M State ImageName :=
  if check_platforms self then
    _validate_platforms_in_image image ;;;
    new_arch_image <- _get_image_for_different_arch image current_platform ;;
    ret (match new_arch_image with Some i => i | None => image end)
  else ret image.

(** One iteration of the loop of [run]. *)
Definition run_parent (build_json : BuildJson) (nonce : nat) (parent : string) : M State unit :=
  let base_image_str := original_base_image self in
  image <- (if String.eqb parent base_image_str then _resolve_base_image build_json
            else ret (parse env parent)) ;;
  image <- _ensure_image_registry image ;;
  image <- select_for_platform image ;;
  new_image <- _pull_and_tag_image image build_json (pretty nonce) ;;
  modify (set_parent parent (to_str env new_image)) ;;;
  if String.eqb parent base_image_str
  then modify (emit (SetBaseImage (to_str env new_image)))
  else ret tt.

Fixpoint run_loop (build_json : BuildJson) (nonce : nat) (parents : list string) : M State unit :=
  match parents with
  | [] => ret tt
  | parent :: rest =>
      run_parent build_json nonce parent ;;;
      run_loop build_json (S nonce) rest
  end.

Definition run (build_json : BuildJson) : M State unit :=
  modify (set_cache ∅) ;;;
  s <- get ;;
  run_loop build_json 0 (sorted (elements (dom (parent_images s)))).

End Model.

(** *** Relations between the states before and after a computation *)

(** [keeps R m]: whatever its outcome, [m] ends in a state that [R] relates
    to the state it starts from. *)
Definition keeps {A} (R : State -> State -> Prop) (m : M State A) : Prop :=
  forall s, R s (snd (m s)).

(** The trace grows, by events that satisfy [P]. *)
Definition adds_only (P : Event -> Prop) (s s' : State) : Prop :=
  exists t, trace s' = trace s ++ t /\ Forall P t.

(** Nothing leaves [workflow.pulled_base_images]. *)
Definition ledger_grows (s s' : State) : Prop :=
  pulled_base_images s ⊆ pulled_base_images s'.

(** [builder.parent_images] keeps its keys. *)
Definition same_parents (s s' : State) : Prop :=
  dom (parent_images s') = dom (parent_images s).

(** The [insecure] argument of a call to the docker tasker or the registry,
    for the events that are such calls. *)
Definition event_insecure (e : Event) : option bool :=
  match e with
  | PullImage _ insecure
  | GetManifestList _ _ insecure
  | GetConfigFromRegistry _ _ _ insecure => Some insecure
  | _ => None
  end.

Definition is_set_base_image (e : Event) : bool :=
  match e with SetBaseImage _ => true | _ => false end.

(** What [_ensure_image_registry] returns when a parent registry is
    configured. *)
Definition ensured (self : Plugin) (image : ImageName) : Prop :=
  truthy (parent_registry self) = true -> registry image = parent_registry self.

(** The state after holds the trace before and at most [n] pulls more. *)
Definition pulls_within (n : nat) (s s' : State) : Prop :=
  exists t, trace s' = trace s ++ t /\ count is_pull t <= n.

(** [builder.parent_images] is as it was. *)
Definition parents_untouched (s s' : State) : Prop :=
  parent_images s' = parent_images s.

End PullBaseImage.

(** ** post_pulp_pull.py *)

Module PulpPull.
Import Py Image.
Open Scope py_scope.
Open Scope Z_scope.

(** [ManifestDigest]: the digest found for each manifest kind, if any. *)
Record ManifestDigest := mkManifestDigest {
  v1 : option string;
  v2 : option string;
  v2_list : option string
}.

Record PulpRegistry := mkPulpRegistry {
  uri : string;
  server_side_sync : bool
}.

Inductive Event :=
| Log (lvl : Level) (fmt : string) (args : list string)
| GetManifestDigests (pullspec : ImageName) (reg : string) (insecure : bool)
                     (secret : option string)
| Time
| Sleep (seconds : Z)
| PullImage (image : ImageName) (insecure : bool)
| InspectImage (name : string)
| DeferRemoval (name : string).

Definition is_lookup (e : Event) : bool :=
  match e with GetManifestDigests _ _ _ _ => true | _ => false end.

Definition count (p : Event -> bool) (t : list Event) : nat :=
  length (List.filter p t).

(** What the plugin imports: the constants of [atomic_reactor.constants],
    [ImageName.to_str], the truth value of a [ManifestDigest], and the
    answers of the registry, the clock and the docker tasker given the trace
    of the calls made before ([inspect_image] answers the ['Id'] entry of
    the metadata, if it has one).  Clock readings are whole seconds. *)
Record Env := mkEnv {
  PLUGIN_PULP_PUSH_KEY : string;
  PLUGIN_PULP_SYNC_KEY : string;
  MEDIA_TYPE_DOCKER_V1 : string;
  MEDIA_TYPE_DOCKER_V2_SCHEMA1 : string;
  MEDIA_TYPE_DOCKER_V2_SCHEMA2 : string;
  MEDIA_TYPE_DOCKER_V2_MANIFEST_LIST : string;
  to_str : ImageName -> string;
  digests_bool : ManifestDigest -> bool;
  get_manifest_digests :
    list Event -> ImageName -> string -> bool -> option string -> Result ManifestDigest;
  time : list Event -> Z;
  pull_image : list Event -> ImageName -> bool -> option Exn;
  inspect_image : list Event -> string -> Result (option string)
}.

(** The constructor's arguments. *)
Record Plugin := mkPlugin {
  timeout : Z;
  retry_delay : Z;
  insecure : bool;
  secret : option string
}.

(** What the plugin reads from the workflow: [build_process_failed], the
    truth value of [postbuild_results.get(PLUGIN_GROUP_MANIFESTS_KEY)],
    [get_platforms], [get_platform_to_goarch_mapping] ([None] where it
    raises [KeyError]), [tag_conf.unique_images],
    [push_conf.pulp_registries] and the names in [postbuild_plugins_conf]. *)
Record Workflow := mkWorkflow {
  build_process_failed : bool;
  group_manifests_result : bool;
  platforms : option (list string);
  platform_to_goarch : option (gmap string string);
  unique_images : list ImageName;
  pulp_registries : list PulpRegistry;
  postbuild_plugins_conf : list string
}.

(** What the plugin changes: its three expectation attributes and
    [workflow.builder.image_id]. *)
Record State := mkState {
  expect_v2schema2 : bool;
  expect_v2schema2list : bool;
  expect_v2schema2list_only : bool;
  image_id : option string;
  trace : list Event
}.

Definition emit (e : Event) (s : State) : State :=
  mkState (expect_v2schema2 s) (expect_v2schema2list s) (expect_v2schema2list_only s)
          (image_id s) (trace s ++ [e]).

Definition set_expect_v2schema2 (b : bool) (s : State) : State :=
  mkState b (expect_v2schema2list s) (expect_v2schema2list_only s) (image_id s) (trace s).

Definition set_expect_v2schema2list (b : bool) (s : State) : State :=
  mkState (expect_v2schema2 s) b (expect_v2schema2list_only s) (image_id s) (trace s).

Definition set_expect_v2schema2list_only (b : bool) (s : State) : State :=
  mkState (expect_v2schema2 s) (expect_v2schema2list s) b (image_id s) (trace s).

Definition set_image_id (i : option string) (s : State) : State :=
  mkState (expect_v2schema2 s) (expect_v2schema2list s) (expect_v2schema2list_only s)
          i (trace s).

Definition log (lvl : Level) (fmt : string) (args : list string) : M State unit :=
  modify (emit (Log lvl fmt args)).

(** The three expectation attributes: [expect_v2schema2],
    [expect_v2schema2list], [expect_v2schema2list_only]. *)
Definition expectations (s : State) : bool * bool * bool :=
  (expect_v2schema2 s, expect_v2schema2list s, expect_v2schema2list_only s).

(** A computation that leaves the expectation attributes alone and only
    adds to the trace. *)
Definition steady {A} (m : M State A) : Prop :=
  forall s, expectations (snd (m s)) = expectations s /\
            exists t, trace (snd (m s)) = trace s ++ t.

Section Model.
Variable env : Env.
Variable self : Plugin.
Variable workflow : Workflow.

Definition call_time : M State Z :=
  s <- get ;;
  modify (emit Time) ;;;
  ret (time env (trace s)).

Definition call_sleep (seconds : Z) : M State unit :=
  modify (emit (Sleep seconds)).

Definition call_get_manifest_digests (pullspec : ImageName) (reg : string)
  : M State ManifestDigest :=
  s <- get ;;
  modify (emit (GetManifestDigests pullspec reg (insecure self) (secret self))) ;;;
  lift (get_manifest_digests env (trace s) pullspec reg (insecure self) (secret self)).

(** *** [retry_if_not_found] *)

(** The [else] branch of the [try]: does the answer meet the expectations? *)
Definition check_digests (digests : ManifestDigest) : M State (option ManifestDigest) :=
  s <- get ;;
  if expect_v2schema2list s && negb (truthy (v2_list digests)) then
    log WARNING "Expected schema 2 manifest list" [] ;;;
    ret None
  else if negb (expect_v2schema2list_only s) && expect_v2schema2 s &&
          negb (truthy (v2 digests)) then
    log WARNING "Expected schema 2 manifest" [] ;;;
    ret None
  else ret (Some digests).

(** The handler of [requests.exceptions.HTTPError]: it ends without raising
    for 404 and, after logging, for 403. *)
Definition handle_http_error (ex : Exn) : M State (option ManifestDigest) :=
  match ex with
  | HTTPError None _ =>
      raise (AttributeError "'NoneType' object has no attribute 'status_code'")
  | HTTPError (Some response) request =>
      if negb (status_code response =? 404) then
        if status_code response =? 403 then
          match request with
          | None => raise (AttributeError "'NoneType' object has no attribute 'url'")
          | Some request =>
              log ERROR "[%s] %s %s %r: from %s %s"
                [pretty (status_code response); reason response; headers response;
                 content response; url request; request_headers request] ;;;
              ret None
          end
        else raise ex
      else ret None
  | _ => raise ex
  end.

(** One pass through the body of [while True], up to the clock check:
    [Some digests] is [return digests], [None] goes on to the check. *)
Definition lookup_once (pullspec : ImageName) (reg : string)
  : M State (option ManifestDigest) :=
  r <- try_except
         (digests <- call_get_manifest_digests pullspec reg ;;
          ret (inl digests))
         (fun e => match e with HTTPError _ _ => true | _ => false end)
         (fun ex => r <- handle_http_error ex ;; ret (inr r)) ;;
  match r with
  | inl digests => check_digests digests
  | inr r => ret r
  end.

(** [while True] with a bound on the number of iterations; [None] when the
    bound is reached before the loop is left. *)
Fixpoint retry_loop (fuel : nat) (start : Z) (pullspec : ImageName) (reg : string)
  : M State (option ManifestDigest) :=
  match fuel with
  | O => ret None
  | S fuel' =>
      r <- lookup_once pullspec reg ;;
      match r with
      | Some digests => ret (Some digests)
      | None =>
          now <- call_time ;;
          if now - start >? timeout self then
            raise (CraneTimeoutError (pretty (timeout self) +:+ " seconds exceeded"))
          else
            log INFO "not found; will try again in %ss" [pretty (retry_delay self)] ;;;
            call_sleep (retry_delay self) ;;;
            retry_loop fuel' start pullspec reg
      end
  end.

Definition retry_if_not_found (fuel : nat) (pullspec : ImageName) (reg : string)
  : M State (option ManifestDigest) :=
  start <- call_time ;;
  retry_loop fuel start pullspec reg.

(** *** [set_manifest_list_expectations] *)

(** The [for plat in platforms] loop: [true] when it is left by [break],
    [false] when its [else] branch runs; a platform without an entry in the
    mapping raises [KeyError]. *)
Fixpoint amd64_built (platform_to_goarch : gmap string string) (platforms : list string)
  : Result bool :=
  match platforms with
  | [] => Ok false
  | plat :: rest =>
      match platform_to_goarch !! plat with
      | None => Raise (KeyError plat)
      | Some arch =>
          if String.eqb arch "amd64" then Ok true
          else amd64_built platform_to_goarch rest
      end
  end.

Definition set_manifest_list_expectations : M State unit :=
  if group_manifests_result workflow then
    modify (set_expect_v2schema2list true) ;;;
    match platforms workflow with
    | None | Some [] =>
        log DEBUG ("Cannot check if only manifest list digest should be checked "
                   +:+ "because we have no platforms list") []
    | Some platforms =>
        match platform_to_goarch workflow with
        | None =>
            log DEBUG ("Cannot check if only manifest list digest should be checked "
                       +:+ "because there are no platform descriptors") []
        | Some platform_to_goarch =>
            built <- lift (amd64_built platform_to_goarch platforms) ;;
            if built then ret tt
            else
              log DEBUG "amd64 was not built, only manifest list digest is available" [] ;;;
              modify (set_expect_v2schema2list_only true) ;;;
              modify (set_expect_v2schema2 false)
        end
    end
  else ret tt.

(** *** [run] *)

Definition call_pull_image (image : ImageName) : M State unit :=
  s <- get ;;
  modify (emit (PullImage image (insecure self))) ;;;
  match pull_image env (trace s) image (insecure self) with
  | Some e => raise e
  | None => ret tt
  end.

Definition call_inspect_image (name : string) : M State (option string) :=
  s <- get ;;
  modify (emit (InspectImage name)) ;;;
  lift (inspect_image env (trace s) name).

Definition media_types_of_conf : list string :=
  flat_map
    (fun name =>
       (if String.eqb name (PLUGIN_PULP_SYNC_KEY env)
        then [MEDIA_TYPE_DOCKER_V2_SCHEMA1 env] else []) ++
       (if String.eqb name (PLUGIN_PULP_PUSH_KEY env)
        then [MEDIA_TYPE_DOCKER_V1 env] else []))
    (postbuild_plugins_conf workflow).

Definition render_id (i : option string) : string := default "None" i.

(** The [if registry.server_side_sync] block.  The answer is [None] when
    the polling bound was reached, [Some (inl r)] for [return r] and
    [Some (inr media_types)] when [run] goes on to pull the image. *)
Definition check_crane (fuel : nat) (pullspec : ImageName) (reg : PulpRegistry)
    (media_types : list string) : M State (option (list string + list string)) :=
  polled <- retry_if_not_found fuel pullspec (uri reg) ;;
  match polled with
  | None => ret None
  | Some digests =>
      if digests_bool env digests then
        listed <-
          (if truthy (v2_list digests) then
             log INFO "Manifest list found" [] ;;;
             let media_types := media_types ++ [MEDIA_TYPE_DOCKER_V2_MANIFEST_LIST env] in
             s <- get ;;
             if expect_v2schema2list_only s then
               log INFO ("Only V2 schema 2 manifest list is expected, "
                         +:+ "leaving image ID unchanged %s") [render_id (image_id s)] ;;;
               ret (inl [MEDIA_TYPE_DOCKER_V2_MANIFEST_LIST env])
             else ret (inr media_types)
           else ret (inr media_types)) ;;
        match listed with
        | inl result => ret (Some (inl result))
        | inr media_types =>
            if truthy (v2 digests) then
              s <- get ;;
              log INFO "V2 schema 2 digest found, leaving image ID unchanged %s"
                [render_id (image_id s)] ;;;
              ret (Some (inl (sorted (media_types ++ [MEDIA_TYPE_DOCKER_V2_SCHEMA2 env]))))
            else ret (Some (inr media_types))
        end
      else
        log INFO "No digests were found" [] ;;;
        ret (Some (inr media_types))
  end.

Definition pull_and_inspect (pullspec : ImageName) (media_types : list string)
  : M State (list string) :=
  call_pull_image pullspec ;;;
  let name := to_str env pullspec in
  metadata_Id <- call_inspect_image name ;;
  modify (emit (DeferRemoval name)) ;;;
  match metadata_Id with
  | None => raise (KeyError "Id")
  | Some new_id =>
      s <- get ;;
      log DEBUG "image ID changed from %s to %s" [render_id (image_id s); new_id] ;;;
      modify (set_image_id (Some new_id)) ;;;
      ret (sorted media_types)
  end.

Definition run (fuel : nat) : M State (option (list string)) :=
  if build_process_failed workflow then
    log INFO "Not running for failed build" [] ;;;
    modify (set_image_id None) ;;;
    ret (Some [])
  else
    set_manifest_list_expectations ;;;
    match unique_images workflow with
    | [] => raise (AssertionError "")
    | image :: _ =>
        match pulp_registries workflow with
        | [] => raise (AssertionError "")
        | reg :: _ =>
            let pullspec := set_registry (Some (uri reg)) image in
            let media_types := media_types_of_conf in
            checked <-
              (if server_side_sync reg
               then check_crane fuel pullspec reg media_types
               else ret (Some (inr media_types))) ;;
            match checked with
            | None => ret None
            | Some (inl result) => ret (Some result)
            | Some (inr media_types) =>
                result <- pull_and_inspect pullspec media_types ;;
                ret (Some result)
            end
        end
    end.

End Model.

Definition is_sleep (e : Event) : bool :=
  match e with Sleep _ => true | _ => false end.

Definition is_pull (e : Event) : bool :=
  match e with PullImage _ _ => true | _ => false end.

Definition is_docker_call (e : Event) : bool :=
  match e with PullImage _ _ | InspectImage _ | DeferRemoval _ => true | _ => false end.

(** What [retry_if_not_found] asks of an answer before it returns it. *)
Definition meets_expectations (s : State) (digests : ManifestDigest) : Prop :=
  (expect_v2schema2list s = true -> truthy (v2_list digests) = true) /\
  (expect_v2schema2list_only s = false -> expect_v2schema2 s = true ->
   truthy (v2 digests) = true).

(** The seconds slept in a trace. *)
Definition slept (t : list Event) : Z :=
  foldr (fun e acc => match e with Sleep seconds => seconds + acc | _ => acc end) 0 t.

(** A clock that moves on by at least the seconds slept. *)
Definition clock_advances (env : Env) : Prop :=
  forall h h', time env h + slept h' <= time env (h ++ h').

(** Whatever the state before, [m] leaves a state that [R] relates to it. *)
Definition preserves {A} (R : State -> State -> Prop) (m : M State A) : Prop :=
  forall s, R s (snd (m s)).

(** [workflow.builder.image_id] is as it was. *)
Definition id_kept (s s' : State) : Prop := image_id s' = image_id s.

(** The trace has grown by events that satisfy [P]. *)
Definition emits_only (P : Event -> Prop) (s s' : State) : Prop :=
  exists t, trace s' = trace s ++ t /\ Forall P t.

(** [pullspec] in [run]: the first unique image with the first Pulp
    registry as its registry, when there are both. *)
Definition pullspec_of (workflow : Workflow) : option ImageName :=
  match unique_images workflow, pulp_registries workflow with
  | image :: _, reg :: _ => Some (set_registry (Some (uri reg)) image)
  | _, _ => None
  end.

(** The part of [run] for a build that has not failed, up to the pull:
    answers as [check_crane] does. *)
Definition before_pull (env : Env) (self : Plugin) (workflow : Workflow) (fuel : nat)
  : M State (option (list string + list string)) :=
  set_manifest_list_expectations workflow ;;;
  match unique_images workflow with
  | [] => raise (AssertionError "")
  | image :: _ =>
      match pulp_registries workflow with
      | [] => raise (AssertionError "")
      | reg :: _ =>
          let pullspec := set_registry (Some (uri reg)) image in
          let media_types := media_types_of_conf env workflow in
          if server_side_sync reg
          then check_crane env self fuel pullspec reg media_types
          else ret (Some (inr media_types))
      end
  end.

(** The docker tasker calls of [run] when it pulls, in their order. *)
Definition docker_calls (env : Env) (self : Plugin) (pullspec : ImageName) : list Event :=
  [PullImage pullspec (insecure self);
   InspectImage (to_str env pullspec);
   DeferRemoval (to_str env pullspec)].

End PulpPull.

(** ** dock/source.py

    [PathSource.get], the staging of a local source directory.  Paths are
    strings; [os.path.join] is a function of the environment, and the
    calls to [os] and [shutil] are events, answered by the environment from
    the calls made before. *)

Module DockSource.
Import Py.
Open Scope py_scope.

Inductive Event :=
| ListDir (path : string)
| Exists (path : string)
| IsDir (path : string)
| CopyTree (src dst : string)
| Copy2 (src dst : string).

(** [os.path.exists] and [os.path.isdir] answer a truth value;
    [os.listdir], [shutil.copytree] and [shutil.copy2] may raise. *)
Record Env := mkEnv {
  join : string -> string -> string;
  listdir : list Event -> string -> Result (list string);
  path_exists : list Event -> string -> bool;
  isdir : list Event -> string -> bool;
  copytree : list Event -> string -> string -> option Exn;
  copy2 : list Event -> string -> string -> option Exn
}.

(** The attributes of a [PathSource] that [get] reads. *)
Record PathSource := mkPathSource {
  schemeless_path : string;
  tmpdir : string
}.

Definition emit (e : Event) : M (list Event) unit :=
  modify (fun t => t ++ [e]).

(** The source and the destination of a copy, and the path of a check. *)
Definition copy_of (e : Event) : option (string * string) :=
  match e with
  | CopyTree src dst | Copy2 src dst => Some (src, dst)
  | _ => None
  end.

Definition check_of (e : Event) : option string :=
  match e with Exists path => Some path | _ => None end.

Section Model.
Variable env : Env.
Variable self : PathSource.

Definition call_listdir (path : string) : M (list Event) (list string) :=
  t <- get ;;
  emit (ListDir path) ;;;
  lift (listdir env t path).

Definition call_exists (path : string) : M (list Event) bool :=
  t <- get ;;
  emit (Exists path) ;;;
  ret (path_exists env t path).

Definition call_isdir (path : string) : M (list Event) bool :=
  t <- get ;;
  emit (IsDir path) ;;;
  ret (isdir env t path).

Definition call_copytree (src dst : string) : M (list Event) unit :=
  t <- get ;;
  emit (CopyTree src dst) ;;;
  match copytree env t src dst with
  | Some e => raise e
  | None => ret tt
  end.

Definition call_copy2 (src dst : string) : M (list Event) unit :=
  t <- get ;;
  emit (Copy2 src dst) ;;;
  match copy2 env t src dst with
  | Some e => raise e
  | None => ret tt
  end.

(** The [for f in os.listdir(...)] loop over the entries that are left:
    [break] ends it. *)
Fixpoint copy_entries (entries : list string) : M (list Event) unit :=
  match entries with
  | [] => ret tt
  | f :: rest =>
      let old := join env (schemeless_path self) f in
      let new := join env (tmpdir self) f in
      present <- call_exists new ;;
      if present then ret tt
      else
        is_dir <- call_isdir old ;;
        (if is_dir then call_copytree old new else call_copy2 old new) ;;;
        copy_entries rest
  end.

Definition get : M (list Event) string :=
  entries <- call_listdir (schemeless_path self) ;;
  copy_entries entries ;;;
  ret (tmpdir self).

(** The [path] property. *)
Definition path : M (list Event) string := get.

(** The copy [get] makes for the entry [f], given the trace up to the check
    of its destination. *)
Definition copy_for (f : string) (before : list Event) : Event :=
  let old := join env (schemeless_path self) f in
  let new := join env (tmpdir self) f in
  if isdir env (before ++ [Exists new]) old then CopyTree old new else Copy2 old new.

End Model.
End DockSource.

(** ** Sample environments

    Concrete collaborators, used to run the model on examples. *)

Module Samples.
Import Py Image.

(** A rendering of image names: [registry/namespace/repo], followed by
    [:tag], or by [@tag] when the tag is a digest. *)
Definition sample_to_str (with_tag : bool) (i : ImageName) : string :=
  let r := default "" (repo i) in
  let r := if truthy (namespace i) then default "" (namespace i) +:+ "/" +:+ r else r in
  let r := if with_tag && truthy (tag i)
           then if str_in ":" (default "" (tag i))
                then r +:+ "@" +:+ default "" (tag i)
                else r +:+ ":" +:+ default "" (tag i)
           else r in
  if truthy (registry i) then default "" (registry i) +:+ "/" +:+ r else r.

(** A parser that keeps the whole pull specification as the repository. *)
Definition sample_parse (s : string) : ImageName :=
  mkImageName None None (Some s) None.

Definition fedora : ImageName :=
  mkImageName None None (Some "fedora") (Some "28").

Definition fedora_digest : ImageName :=
  mkImageName (Some "registry.example.com") (Some "library") (Some "fedora")
              (Some "sha256:0123").

Definition build_json : PullBaseImage.BuildJson :=
  PullBaseImage.mkBuildJson None (Some "build-1").

Definition empty_state : PullBaseImage.State :=
  PullBaseImage.mkState ∅ ∅ ∅ [].

Definition two_arch_list : list PullBaseImage.Manifest :=
  [PullBaseImage.mkManifest "amd64" "sha256:aaaa";
   PullBaseImage.mkManifest "ppc64le" "sha256:bbbb"].

Definition labels_28_1 : gmap string string :=
  {[ "version" := "28"; "release" := "1" ]}.

(** A registry that knows manifest lists by tag only, and a docker daemon
    where every pull succeeds and every tag finds the image removed. *)
Definition racing_env : PullBaseImage.Env :=
  PullBaseImage.mkEnv
    (sample_to_str true) (sample_to_str false) sample_parse
    (fun _ _ _ => None)
    (fun _ _ _ => Raise (NotFound "No such image"))
    (fun _ image _ _ =>
       Ok (if str_in ":" (default "" (tag image)) then None else Some two_arch_list))
    (fun _ _ _ _ _ => Ok (PullBaseImage.mkConfigBlob (Some labels_28_1)))
    (fun items => items).

(** A docker daemon where every pull fails with a retryable error that
    names the image. *)
Definition failing_pull_env : PullBaseImage.Env :=
  PullBaseImage.mkEnv
    (sample_to_str true) (sample_to_str false) sample_parse
    (fun _ image _ => Some (RetryGeneratorException (sample_to_str true image)))
    (fun _ _ _ => Ok "tagged")
    (fun _ _ _ _ => Ok None)
    (fun _ _ _ _ _ => Raise (Timeout None))
    (fun items => items).

(** A registry whose configuration blobs cannot be fetched. *)
Definition unreachable_env : PullBaseImage.Env :=
  PullBaseImage.mkEnv
    (sample_to_str true) (sample_to_str false) sample_parse
    (fun _ _ _ => None)
    (fun _ _ _ => Ok "tagged")
    (fun _ _ _ _ => Ok None)
    (fun _ _ _ _ _ => Raise (HTTPError (Some (mkResponse 503 "Unavailable" "" "")) None))
    (fun items => items).

(** A docker daemon that finds no image without a namespace. *)
Definition library_only_env : PullBaseImage.Env :=
  PullBaseImage.mkEnv
    (sample_to_str true) (sample_to_str false) sample_parse
    (fun _ image _ =>
       if truthy (namespace image) then None
       else Some (RetryGeneratorException (sample_to_str true image)))
    (fun _ _ _ => Ok "tagged")
    (fun _ _ _ _ => Ok None)
    (fun _ _ _ _ _ => Raise (Timeout None))
    (fun items => items).

(** A docker daemon where the image is removed before the first tag, and
    only then. *)
Definition removed_once_env : PullBaseImage.Env :=
  PullBaseImage.mkEnv
    (sample_to_str true) (sample_to_str false) sample_parse
    (fun _ _ _ => None)
    (fun t _ _ =>
       if Nat.eqb (PullBaseImage.count PullBaseImage.is_tag t) 0
       then Raise (NotFound "No such image") else Ok "tagged")
    (fun _ _ _ _ => Ok None)
    (fun _ _ _ _ _ => Raise (Timeout None))
    (fun items => items).

Definition ppc_only_list : list PullBaseImage.Manifest :=
  [PullBaseImage.mkManifest "ppc64le" "sha256:bbbb"].

(** A registry whose manifest lists hold one image, for ppc64le. *)
Definition ppc_only_env : PullBaseImage.Env :=
  PullBaseImage.mkEnv
    (sample_to_str true) (sample_to_str false) sample_parse
    (fun _ _ _ => None)
    (fun _ _ _ => Ok "tagged")
    (fun _ _ _ _ => Ok (Some ppc_only_list))
    (fun _ _ _ _ _ => Raise (Timeout None))
    (fun items => items).

Definition fedora_at_registry : ImageName :=
  mkImageName (Some "registry.example.com") None (Some "fedora") (Some "28").

Definition plugin (reg : option string) (platforms : option (list string))
    (mapping : bool) (proc : string) : PullBaseImage.Plugin :=
  PullBaseImage.mkPlugin reg false true platforms
    (if mapping then Some {[ "x86_64" := "amd64"; "ppc64le" := "ppc64le" ]} else None)
    (if mapping then Some {[ "amd64" := "x86_64"; "ppc64le" := "ppc64le" ]} else None)
    proc "fedora:28" fedora.

(** A registry that answers 404 to the first lookup and both schema 2
    digests to every later one, with a clock that advances by 30 seconds
    from one reading to the next. *)
Definition slow_crane_env : PulpPull.Env :=
  PulpPull.mkEnv "pulp_push" "pulp_sync"
    "application/json"
    "application/vnd.docker.distribution.manifest.v1+json"
    "application/vnd.docker.distribution.manifest.v2+json"
    "application/vnd.docker.distribution.manifest.list.v2+json"
    (sample_to_str true)
    (fun d => truthy (PulpPull.v1 d) || truthy (PulpPull.v2 d) || truthy (PulpPull.v2_list d))
    (fun t _ _ _ _ =>
       if Nat.eqb (PulpPull.count PulpPull.is_lookup t) 0
       then Raise (HTTPError (Some (mkResponse 404 "Not Found" "" ""))
                     (Some (mkRequest "https://crane.example.com/v2/fedora/manifests/28" "")))
       else Ok (PulpPull.mkManifestDigest None (Some "sha256:2222") (Some "sha256:3333")))
    (fun t => 30 * Z.of_nat (PulpPull.count
                               (fun e => match e with PulpPull.Time => true | _ => false end) t))%Z
    (fun _ _ _ => None)
    (fun _ _ => Ok (Some "sha256:1111")).

(** A registry that has the manifest list only, at the first lookup. *)
Definition list_only_env : PulpPull.Env :=
  PulpPull.mkEnv "pulp_push" "pulp_sync"
    "application/json"
    "application/vnd.docker.distribution.manifest.v1+json"
    "application/vnd.docker.distribution.manifest.v2+json"
    "application/vnd.docker.distribution.manifest.list.v2+json"
    (sample_to_str true)
    (fun d => truthy (PulpPull.v1 d) || truthy (PulpPull.v2 d) || truthy (PulpPull.v2_list d))
    (fun _ _ _ _ _ => Ok (PulpPull.mkManifestDigest None None (Some "sha256:3333")))
    (fun _ => 0%Z)
    (fun _ _ _ => None)
    (fun _ _ => Ok (Some "sha256:1111")).

(** A registry that answers every lookup with the given status. *)
Definition failing_crane_env (status : Z) : PulpPull.Env :=
  PulpPull.mkEnv "pulp_push" "pulp_sync"
    "application/json"
    "application/vnd.docker.distribution.manifest.v1+json"
    "application/vnd.docker.distribution.manifest.v2+json"
    "application/vnd.docker.distribution.manifest.list.v2+json"
    (sample_to_str true)
    (fun d => truthy (PulpPull.v1 d) || truthy (PulpPull.v2 d) || truthy (PulpPull.v2_list d))
    (fun _ _ _ _ _ =>
       Raise (HTTPError (Some (mkResponse status "reason" "headers" "content"))
                (Some (mkRequest "https://crane.example.com/v2/fedora/manifests/28"
                         "request headers"))))
    (fun _ => 0%Z)
    (fun _ _ _ => None)
    (fun _ _ => Ok (Some "sha256:1111")).

(** A registry that answers 404, 404, a schema 1 digest only, and from
    then on a schema 2 digest too; the clock stands still. *)
Definition catching_up_env : PulpPull.Env :=
  PulpPull.mkEnv "pulp_push" "pulp_sync"
    "application/json"
    "application/vnd.docker.distribution.manifest.v1+json"
    "application/vnd.docker.distribution.manifest.v2+json"
    "application/vnd.docker.distribution.manifest.list.v2+json"
    (sample_to_str true)
    (fun d => truthy (PulpPull.v1 d) || truthy (PulpPull.v2 d) || truthy (PulpPull.v2_list d))
    (fun t _ _ _ _ =>
       match PulpPull.count PulpPull.is_lookup t with
       | 0 | 1 =>
           Raise (HTTPError (Some (mkResponse 404 "Not Found" "headers" "content"))
                    (Some (mkRequest "https://crane.example.com/v2/fedora/manifests/28"
                             "request headers")))
       | 2 => Ok (PulpPull.mkManifestDigest (Some "sha256:1111") None None)
       | _ => Ok (PulpPull.mkManifestDigest (Some "sha256:1111") (Some "sha256:2222") None)
       end%nat)
    (fun _ => 0%Z)
    (fun _ _ _ => None)
    (fun _ _ => Ok (Some "sha256:1111")).

Definition poller : PulpPull.Plugin := PulpPull.mkPlugin 10 5 false None.

Definition poller_state : PulpPull.State :=
  PulpPull.mkState true false false (Some "sha256:0000") [].

(** A build for ppc64le only, whose manifests were grouped. *)
Definition ppc_workflow : PulpPull.Workflow :=
  PulpPull.mkWorkflow false true (Some ["ppc64le"])
    (Some {[ "x86_64" := "amd64"; "ppc64le" := "ppc64le" ]})
    [fedora] [PulpPull.mkPulpRegistry "crane.example.com" true] ["pulp_sync"].

(** The state after [fedora_digest] has been resolved once, from an empty
    cache, against [racing_env]. *)
Definition resolved_once : PullBaseImage.State :=
  snd (PullBaseImage._get_manifest_list racing_env (plugin None None false "")
         fedora_digest empty_state).

(** A docker daemon where every pull succeeds and every tag fails for a
    reason other than a missing image. *)
Definition failing_tag_env : PullBaseImage.Env :=
  PullBaseImage.mkEnv
    (sample_to_str true) (sample_to_str false) sample_parse
    (fun _ _ _ => None)
    (fun _ _ _ => Raise (RuntimeError "tag failed"))
    (fun _ _ _ _ => Ok None)
    (fun _ _ _ _ _ => Raise (Timeout None))
    (fun items => items).

(** The plugin without the platform check. *)
Definition unchecked_plugin (reg : option string) : PullBaseImage.Plugin :=
  PullBaseImage.mkPlugin reg false false None None None "" "fedora:28" fedora.

(** A build with two parent images, the base image and one more. *)
Definition two_parents : PullBaseImage.State :=
  PullBaseImage.mkState ∅ ∅ {[ "fedora:28" := "fedora:28"; "alpine:3" := "alpine:3" ]} [].

(** A registry that answers 404 to every lookup, with a clock that shows
    the seconds slept so far. *)
Definition ticking_env : PulpPull.Env :=
  PulpPull.mkEnv "pulp_push" "pulp_sync"
    "application/json"
    "application/vnd.docker.distribution.manifest.v1+json"
    "application/vnd.docker.distribution.manifest.v2+json"
    "application/vnd.docker.distribution.manifest.list.v2+json"
    (sample_to_str true)
    (fun d => truthy (PulpPull.v1 d) || truthy (PulpPull.v2 d) || truthy (PulpPull.v2_list d))
    (fun _ _ _ _ _ =>
       Raise (HTTPError (Some (mkResponse 404 "Not Found" "headers" "content"))
                (Some (mkRequest "https://crane.example.com/v2/fedora/manifests/28"
                         "request headers"))))
    PulpPull.slept
    (fun _ _ _ => None)
    (fun _ _ => Ok (Some "sha256:1111")).

(** A build without a unique image. *)
Definition no_image_workflow : PulpPull.Workflow :=
  PulpPull.mkWorkflow false true (Some ["ppc64le"])
    (Some {[ "x86_64" := "amd64"; "ppc64le" := "ppc64le" ]})
    [] [PulpPull.mkPulpRegistry "crane.example.com" true] ["pulp_sync"].

(** A build pushed to a Pulp registry that is not synchronised on the
    server side. *)
Definition push_only_workflow : PulpPull.Workflow :=
  PulpPull.mkWorkflow false false None None
    [fedora] [PulpPull.mkPulpRegistry "crane.example.com" false] ["pulp_push"; "pulp_sync"].

(** A build for ppc64le, x86_64 and a platform without a descriptor, in
    this order. *)
Definition mixed_workflow : PulpPull.Workflow :=
  PulpPull.mkWorkflow false true (Some ["ppc64le"; "x86_64"; "s390x"])
    (Some {[ "x86_64" := "amd64"; "ppc64le" := "ppc64le" ]})
    [fedora] [PulpPull.mkPulpRegistry "crane.example.com" true] ["pulp_sync"].

(** A source directory with a file, a directory and another file; of the
    staging directory only the path of the third entry exists. *)
Definition half_staged_env : DockSource.Env :=
  DockSource.mkEnv
    (fun a b => a +:+ "/" +:+ b)
    (fun _ _ => Ok ["Dockerfile"; "src"; "README"])
    (fun _ p => String.eqb p "/tmp/build/README")
    (fun _ p => String.eqb p "/work/src")
    (fun _ _ _ => None)
    (fun _ _ _ => None).

Definition local_source : DockSource.PathSource :=
  DockSource.mkPathSource "/work" "/tmp/build".

(** A manifest list with images for ppc64le and s390x, in this order. *)
Definition ppc_s390x_list : list PullBaseImage.Manifest :=
  [PullBaseImage.mkManifest "ppc64le" "sha256:bbbb";
   PullBaseImage.mkManifest "s390x" "sha256:cccc"].

(** A registry whose manifest lists are [ppc_s390x_list], under an
    interpreter that iterates over a dictionary in the given order. *)
Definition ppc_s390x_env
    (order : list (string * string) -> list (string * string)) : PullBaseImage.Env :=
  PullBaseImage.mkEnv
    (sample_to_str true) (sample_to_str false) sample_parse
    (fun _ _ _ => None)
    (fun _ _ _ => Ok "tagged")
    (fun _ _ _ _ => Ok (Some ppc_s390x_list))
    (fun _ _ _ _ _ => Raise (Timeout None))
    order.

(** A build for ppc64le and s390x on an x86_64 host. *)
Definition s390x_plugin : PullBaseImage.Plugin :=
  PullBaseImage.mkPlugin None false true (Some ["ppc64le"; "s390x"])
    (Some {[ "x86_64" := "amd64"; "ppc64le" := "ppc64le"; "s390x" := "s390x" ]})
    (Some {[ "amd64" := "x86_64"; "ppc64le" := "ppc64le"; "s390x" := "s390x" ]})
    "x86_64" "fedora:28" fedora.

(** A build for s390x only, a platform without a descriptor, whose
    manifests were grouped. *)
Definition s390x_workflow : PulpPull.Workflow :=
  PulpPull.mkWorkflow false true (Some ["s390x"])
    (Some {[ "x86_64" := "amd64"; "ppc64le" := "ppc64le" ]})
    [fedora] [PulpPull.mkPulpRegistry "crane.example.com" true] ["pulp_sync"].

(** A build synchronised to Crane on the server side, without grouped
    manifests. *)
Definition sync_workflow : PulpPull.Workflow :=
  PulpPull.mkWorkflow false false None None
    [fedora] [PulpPull.mkPulpRegistry "crane.example.com" true] ["pulp_sync"].

Definition fedora_at_crane : ImageName :=
  mkImageName (Some "crane.example.com") None (Some "fedora") (Some "28").

End Samples.

(** ** Properties of pull_base_image *)

Module PullBaseImageSpec.
Import Py Image PullBaseImage.
Open Scope py_scope.

Ltac run_monad :=
  unfold bind, ret, raise, get, modify, lift, log, try_except in *; simpl in *.

Ltac norm_trace :=
  unfold emit, add_pulled, set_cache, set_parent in *; simpl in *;
  rewrite <- ?app_assoc; simpl.

(** Runs [_get_manifest_list], in the goal or after reverting [Hres], up to
    the fetch of the configuration blob, from [Hfb : takes_fallback .. = true]. *)
Ltac enter_fallback Hfb Hres :=
  try revert Hres; unfold takes_fallback in Hfb;
  apply andb_prop in Hfb as [Hfb ?]; apply andb_prop in Hfb as [Hfb ?];
  apply bool_decide_eq_true_1 in Hfb;
  match goal with
  | H : match ?g with _ => _ end = true |- _ =>
      let Hd := fresh "Hd" in
      destruct g as [[?|]|?] eqn:Hd; try discriminate H
  end;
  unfold _get_manifest_list, call_get_manifest_list, call_get_config_from_registry, label;
  run_monad;
  match goal with
  | Hm : manifest_list_cache _ !! _ = None, Hs : str_in _ _ = true,
    Hd : get_manifest_list _ _ _ _ _ = Ok None |- _ => rewrite Hm, Hd, Hs
  end;
  norm_trace.

Lemma count_app p (a b : list Event) : count p (a ++ b) = count p a + count p b.
Proof. unfold count. by rewrite List.filter_app, length_app. Qed.

Section Facts.
Variable env : Env.
Variable self : Plugin.

(** *** The registry of the image *)

Lemma alloc_fresh (h : gmap loc ImageName) : h !! fresh (dom h) = None.
Proof. apply not_elem_of_dom, is_fresh. Qed.

(** C10: [_ensure_image_registry] works on a copy: every [ImageName]
    object that exists before the call, the one it is given among them, is
    the same after it.  What it raises is a [RuntimeError].  With a parent
    registry configured it raises exactly when the registry of the image it
    is given is set and differs from the configured one, and otherwise
    returns a new object that equals the given image but for its registry,
    which is the configured one; with no parent registry configured it
    returns a new object equal to the given image. *)
Theorem ensure_image_registry_enforces (h : gmap loc ImageName) (image : loc)
    (v : ImageName) :
  h !! image = Some v ->
  exists r h' lg,
    _ensure_image_registry_obj env self image h = Some (r, h', lg) /\
    (forall l w, h !! l = Some w -> h' !! l = Some w) /\
    (forall e, r = Raise e -> exists msg, e = RuntimeError msg) /\
    (truthy (parent_registry self) = true ->
       (is_ok r = false <->
          truthy (registry v) = true /\ registry v <> parent_registry self) /\
       (forall l, r = Ok l ->
          l <> image /\ h' !! l = Some (set_registry (parent_registry self) v))) /\
    (truthy (parent_registry self) = false ->
       exists l, r = Ok l /\ l <> image /\ h' !! l = Some v).
Proof.
  intros Hv. unfold _ensure_image_registry_obj, alloc. rewrite Hv. simpl.
  pose proof (alloc_fresh h) as Hfresh.
  set (l := fresh (dom h)) in *.
  assert (Hne : l <> image) by (intros ->; congruence).
  assert (Hkeep : forall k w, h !! k = Some w -> <[l:=v]> h !! k = Some w).
  { intros k w Hk. rewrite lookup_insert_ne; [done | intros ->; congruence]. }
  destruct (truthy (parent_registry self)) eqn:Hconf.
  - rewrite (Hkeep _ _ Hv). simpl.
    destruct (truthy (registry v)) eqn:Hreg; simpl.
    + case_bool_decide as Heq; simpl.
      * eexists _, _, _. split; [reflexivity|]. split.
        { intros k w Hk. rewrite lookup_alter_ne; [by apply Hkeep | intros ->; congruence]. }
        split; [intros e [=]|]. split; [|done].
        intros _. split.
        { split; [done | intros [_ ?]; done]. }
        intros l' [= <-]. split; [done|].
        by rewrite lookup_alter_eq, lookup_insert_eq.
      * eexists _, _, _. split; [reflexivity|]. split; [exact Hkeep|].
        split; [intros e [= <-]; eauto|]. split; [|done].
        intros _. split; [done | intros l' [=]].
    + eexists _, _, _. split; [reflexivity|]. split.
      { intros k w Hk. rewrite lookup_alter_ne; [by apply Hkeep | intros ->; congruence]. }
      split; [intros e [=]|]. split; [|done].
      intros _. split.
      { split; [done | intros [? _]; done]. }
      intros l' [= <-]. split; [done|].
      by rewrite lookup_alter_eq, lookup_insert_eq.
  - eexists _, _, _. split; [reflexivity|]. split; [exact Hkeep|].
    split; [intros e [=]|]. split; [done|].
    intros _. exists l. split; [done|]. split; [done|]. apply lookup_insert_eq.
Qed.

(** The method on values, as [run] is modelled, agrees with the method on
    objects: same outcome, same log, and the object returned holds the value
    returned. *)
Lemma ensure_image_registry_obj_value (h : gmap loc ImageName) (image : loc)
    (v : ImageName) (s : State) :
  h !! image = Some v ->
  match _ensure_image_registry env self v s, _ensure_image_registry_obj env self image h with
  | (Ok w, s'), Some (Ok l, h', lg) => h' !! l = Some w /\ trace s' = trace s ++ lg
  | (Raise e, s'), Some (Raise e', _, lg) => e = e' /\ trace s' = trace s ++ lg
  | _, _ => False
  end.
Proof.
  intros Hv. unfold _ensure_image_registry, _ensure_image_registry_obj, alloc.
  rewrite Hv. simpl.
  assert (Hl : <[fresh (dom h):=v]> h !! image = Some v).
  { rewrite lookup_insert_ne; [done|]. intros <-.
    pose proof (alloc_fresh h). congruence. }
  destruct (truthy (parent_registry self)); simpl.
  - rewrite Hl. simpl.
    destruct (truthy (registry v) && negb (bool_decide (registry v = parent_registry self)));
      run_monad.
    + done.
    + rewrite lookup_alter_eq, lookup_insert_eq. simpl. by rewrite app_nil_r.
  - run_monad. rewrite lookup_insert_eq. by rewrite app_nil_r.
Qed.

(** *** One pass of the pull-and-tag loop *)

Lemma attempt_trace bj nonce image first s r s' :
  attempt env self bj nonce image first s = (r, s') ->
  exists t, trace s' = trace s ++ PullImage image (parent_registry_insecure self) :: t
            /\ count is_pull t = 0
            /\ count is_library_rewrite t <= 1
            /\ (is_Some first -> count is_library_rewrite t = 0)
            /\ (forall image' first', r = Ok (Continue image' first') ->
                  (count is_library_rewrite t = 0 \/ is_Some first') /\
                  (is_Some first -> is_Some first')).
Proof.
  unfold attempt, call_pull_image, call_tag_image. run_monad.
  intros H.
  repeat (case_match; simpl in *; simplify_eq);
    eexists; norm_trace;
    (split; [reflexivity | split; [reflexivity | split; [vm_compute; lia |]]]).
  all: split; [first [by intros [? ?] | done] |].
  all: intros image' first' Heq; simplify_eq.
  all: split; [first [by left | by right; eauto] | done].
Qed.


Lemma loop_S n bj nonce image first s :
  pull_and_tag_loop env self (S n) bj nonce image first s =
    match attempt env self bj nonce image first s with
    | (Ok (Continue image' first'), s1) =>
        pull_and_tag_loop env self n bj nonce image' first' s1
    | (Ok (Return new_image), s1) => (Ok new_image, s1)
    | (Raise e, s1) => (Raise e, s1)
    end.
Proof.
  simpl. unfold bind at 1.
  by destruct (attempt env self bj nonce image first s) as [[[]|] ?].
Qed.

Lemma loop_trace n : forall bj nonce image first s,
  exists t, trace (snd (pull_and_tag_loop env self n bj nonce image first s)) = trace s ++ t
            /\ count is_pull t <= n /\ count is_library_rewrite t <= 1
            /\ (is_Some first -> count is_library_rewrite t = 0).
Proof.
  induction n as [|n IH]; intros bj nonce image first s.
  - simpl. run_monad. norm_trace. eexists. repeat split; auto.
  - rewrite loop_S.
    destruct (attempt env self bj nonce image first s) as [r s1] eqn:Ha.
    destruct (attempt_trace _ _ _ _ _ _ _ Ha) as (t1 & Ht1 & Hc1 & Hw1 & Hz1 & Hk1).
    destruct r as [[image' first'|new_image]|e]; simpl.
    + destruct (IH bj nonce image' first' s1) as (t2 & Ht2 & Hc2 & Hw2 & Hk2).
      exists (PullImage image (parent_registry_insecure self) :: t1 ++ t2).
      rewrite Ht2, Ht1, <- app_assoc. simpl. split; [done|].
      change (PullImage image (parent_registry_insecure self) :: t1 ++ t2)
        with ([PullImage image (parent_registry_insecure self)] ++ t1 ++ t2).
      rewrite !count_app. change (count is_pull [PullImage image _]) with 1.
      change (count is_library_rewrite [PullImage image _]) with 0.
      destruct (Hk1 image' first' eq_refl) as [Hrew Hfirst'].
      split; [lia|]. split.
      * destruct Hrew as [Hrew|Hrew]; [lia | specialize (Hk2 Hrew); lia].
      * intros Hf. specialize (Hz1 Hf). specialize (Hk2 (Hfirst' Hf)). lia.
    + exists (PullImage image (parent_registry_insecure self) :: t1). split; [done|].
      change (PullImage image (parent_registry_insecure self) :: t1)
        with ([PullImage image (parent_registry_insecure self)] ++ t1).
      rewrite !count_app. change (count is_pull [PullImage image _]) with 1.
      change (count is_library_rewrite [PullImage image _]) with 0.
      split; [lia|]. split; [lia|]. intros Hf. specialize (Hz1 Hf). lia.
    + exists (PullImage image (parent_registry_insecure self) :: t1). split; [done|].
      change (PullImage image (parent_registry_insecure self) :: t1)
        with ([PullImage image (parent_registry_insecure self)] ++ t1).
      rewrite !count_app. change (count is_pull [PullImage image _]) with 1.
      change (count is_library_rewrite [PullImage image _]) with 0.
      split; [lia|]. split; [lia|]. intros Hf. specialize (Hz1 Hf). lia.
Qed.


Lemma loop_starts_with_pull n bj nonce image first s :
  exists t, trace (snd (pull_and_tag_loop env self (S n) bj nonce image first s))
            = trace s ++ PullImage image (parent_registry_insecure self) :: t.
Proof.
  rewrite loop_S.
  destruct (attempt env self bj nonce image first s) as [r s1] eqn:Ha.
  destruct (attempt_trace _ _ _ _ _ _ _ Ha) as (t1 & Ht1 & _).
  destruct r as [[image' first'|new_image]|e]; simpl; eauto.
  destruct (loop_trace n bj nonce image' first' s1) as (t2 & Ht2 & _).
  rewrite Ht2, Ht1, <- app_assoc. simpl. eauto.
Qed.

Lemma loop_exhausted n : forall bj nonce image first s,
  all_continue env self n bj nonce image first s ->
  fst (pull_and_tag_loop env self n bj nonce image first s)
    = Raise (RuntimeError "too many attempts to pull and tag image") /\
  exists t, trace (snd (pull_and_tag_loop env self n bj nonce image first s)) = trace s ++ t
            /\ count is_pull t = n.
Proof.
  induction n as [|n IH]; intros bj nonce image first s Hall.
  - simpl. run_monad. norm_trace. split; [done|]. eexists. split; reflexivity.
  - rewrite loop_S. simpl in Hall.
    destruct (attempt env self bj nonce image first s) as [r s1] eqn:Ha.
    destruct r as [[image' first'|new_image]|e]; try done.
    destruct (attempt_trace _ _ _ _ _ _ _ Ha) as (t1 & Ht1 & Hc1 & _).
    destruct (IH _ _ _ _ _ Hall) as (Hr & t2 & Ht2 & Hc2).
    split; [done|].
    exists ([PullImage image (parent_registry_insecure self)] ++ t1 ++ t2).
    rewrite Ht2, Ht1, <- app_assoc. split; [done|].
    rewrite !count_app. change (count is_pull [PullImage image _]) with 1. lia.
Qed.

(** A pull that succeeds followed by a tag that finds the image removed
    ends the pass in [continue], with the image and the remembered failure
    unchanged. *)
Lemma attempt_not_found bj nonce image first s unique_id msg :
  pull_image env (trace s) image (parent_registry_insecure self) = None ->
  metadata_name bj = Some unique_id ->
  tag_image env
    (trace s ++ [PullImage image (parent_registry_insecure self);
                 Log INFO "tagging pulled image" []])
    image (mkImageName None None (Some unique_id) (Some nonce)) = Raise (NotFound msg) ->
  exists s', attempt env self bj nonce image first s = (Ok (Continue image first), s').
Proof.
  intros Hpull Hname Htag.
  unfold attempt, call_pull_image, call_tag_image. run_monad.
  rewrite Hpull, Hname. norm_trace. rewrite Htag. eauto.
Qed.

(** Pull failures. *)
Lemma attempt_pull_failed bj nonce image first s msg :
  pull_image env (trace s) image (parent_registry_insecure self)
    = Some (RetryGeneratorException msg) ->
  attempt env self bj nonce image first s =
    let s1 := emit (PullImage image (parent_registry_insecure self)) s in
    match first with
    | Some e0 => (Raise e0, s1)
    | None =>
        if truthy (namespace image) then (Raise (RetryGeneratorException msg), s1)
        else
          let library := set_namespace (Some "library") image in
          (Ok (Continue library (Some (RetryGeneratorException msg))),
           emit (Log INFO "trying '%s'" [to_str env library])
             (emit (Log INFO "'%s' not found" [to_str env image]) s1))
    end.
Proof.
  intros Hpull. unfold attempt, call_pull_image. run_monad. rewrite Hpull.
  destruct first; [done|]. by destruct (truthy (namespace image)).
Qed.


Lemma attempt_keeps_first bj nonce image e0 s image' first' s' :
  attempt env self bj nonce image (Some e0) s = (Ok (Continue image' first'), s') ->
  image' = image /\ first' = Some e0.
Proof.
  unfold attempt, call_pull_image, call_tag_image. run_monad. intros H.
  repeat (case_match; simpl in *; simplify_eq); done.
Qed.

Lemma always_not_found_all_continue bj nonce unique_id n : forall image first s,
  (forall h i b, pull_image env h i b = None) ->
  (forall h a b, exists msg, tag_image env h a b = Raise (NotFound msg)) ->
  metadata_name bj = Some unique_id ->
  all_continue env self n bj nonce image first s.
Proof.
  induction n as [|n IH]; intros image first s Hpull Htag Hname; [done|].
  simpl.
  destruct (Htag (trace s ++ [PullImage image (parent_registry_insecure self);
                               Log INFO "tagging pulled image" []])
              image (mkImageName None None (Some unique_id) (Some nonce))) as [msg Hmsg].
  destruct (attempt_not_found bj nonce image first s unique_id msg (Hpull _ _ _) Hname Hmsg)
    as [s' ->].
  by apply IH.
Qed.

(** C1: a call of [_pull_and_tag_image] pulls at most 20 times; a tag that
    fails with [NotFound] ends the pass in [continue], and the next pass
    pulls the same image again; when 20 passes in a row end in [continue]
    (as they do when every tag fails with [NotFound]) the call raises
    [RuntimeError('too many attempts to pull and tag image')] after exactly
    20 pulls. *)
Theorem pull_and_tag_attempt_budget (image : ImageName) (bj : BuildJson)
    (nonce : string) (s : State) :
  let ins := parent_registry_insecure self in
  let result := _pull_and_tag_image env self image bj nonce s in
  (exists t, trace (snd result) = trace s ++ t /\ count is_pull t <= 20) /\
  (forall img first s1 unique_id msg,
     pull_image env (trace s1) img ins = None ->
     metadata_name bj = Some unique_id ->
     tag_image env (trace s1 ++ [PullImage img ins; Log INFO "tagging pulled image" []])
       img (mkImageName None None (Some unique_id) (Some nonce)) = Raise (NotFound msg) ->
     exists s2,
       attempt env self bj nonce img first s1 = (Ok (Continue img first), s2) /\
       forall n, exists t,
         trace (snd (pull_and_tag_loop env self (S n) bj nonce img first s2))
         = trace s2 ++ PullImage img ins :: t) /\
  (all_continue env self 20 bj nonce image None s ->
     fst result = Raise (RuntimeError "too many attempts to pull and tag image") /\
     exists t, trace (snd result) = trace s ++ t /\ count is_pull t = 20) /\
  ((forall h i b, pull_image env h i b = None) ->
   (forall h a b, exists msg, tag_image env h a b = Raise (NotFound msg)) ->
   is_Some (metadata_name bj) ->
   fst result = Raise (RuntimeError "too many attempts to pull and tag image")).
Proof.
  intros ins result. unfold result, _pull_and_tag_image. repeat split.
  - destruct (loop_trace 20 bj nonce image None s) as (t & Ht & Hc & _). eauto.
  - intros img first s1 unique_id msg Hpull Hname Htag.
    destruct (attempt_not_found bj nonce img first s1 unique_id msg Hpull Hname Htag)
      as [s2 Hs2].
    exists s2. split; [done|]. intros n. apply loop_starts_with_pull.
  - by apply loop_exhausted.
  - by apply loop_exhausted.
  - intros Hpull Htag [unique_id Hname].
    apply loop_exhausted. by eapply always_not_found_all_continue.
Qed.

(** C2: when a pull fails with a retryable error and no failure is
    remembered, an image without a namespace is given the namespace
    [library], the failure is remembered and the pass ends in [continue],
    so that the next pass (when one is left) pulls the rewritten image, and
    a retryable failure of that pull raises the remembered, first failure;
    an image with a namespace raises the failure at once; once a failure is
    remembered every later retryable pull failure raises the remembered one
    and no pass rewrites the image again: a call rewrites at most once. *)
Theorem pull_failure_library_retry (bj : BuildJson) (nonce : string)
    (image : ImageName) (first : option Exn) (s : State) (msg : string) :
  let ins := parent_registry_insecure self in
  let exc := RetryGeneratorException msg in
  let library := set_namespace (Some "library") image in
  let s1 := emit (PullImage image ins) s in
  let s2 := emit (Log INFO "trying '%s'" [to_str env library])
              (emit (Log INFO "'%s' not found" [to_str env image]) s1) in
  pull_image env (trace s) image ins = Some exc ->
  (first = None -> truthy (namespace image) = false ->
     attempt env self bj nonce image first s = (Ok (Continue library (Some exc)), s2) /\
     (forall n, exists t,
        trace (snd (pull_and_tag_loop env self (S (S n)) bj nonce image first s))
        = trace s2 ++ PullImage library ins :: t) /\
     (forall n msg2,
        pull_image env (trace s2) library ins = Some (RetryGeneratorException msg2) ->
        pull_and_tag_loop env self (S (S n)) bj nonce image first s
        = (Raise exc, emit (PullImage library ins) s2)) /\
     (forall n, exists t,
        trace (snd (pull_and_tag_loop env self n bj nonce library (Some exc) s2))
        = trace s2 ++ t /\ count is_library_rewrite t = 0)) /\
  (first = None -> truthy (namespace image) = true ->
     forall n, pull_and_tag_loop env self (S n) bj nonce image first s = (Raise exc, s1)) /\
  (forall e0, first = Some e0 ->
     forall n, pull_and_tag_loop env self (S n) bj nonce image first s = (Raise e0, s1)) /\
  (forall image0 e0 s0 image' first' s',
     attempt env self bj nonce image0 (Some e0) s0 = (Ok (Continue image' first'), s') ->
     image' = image0 /\ first' = Some e0) /\
  (forall image0 s0, exists t,
     trace (snd (_pull_and_tag_image env self image0 bj nonce s0)) = trace s0 ++ t /\
     count is_library_rewrite t <= 1).
Proof.
  intros ins exc library s1 s2 Hpull. subst ins exc library s1 s2.
  pose proof (attempt_pull_failed bj nonce image first s msg Hpull) as Ha.
  split; [|split; [|split; [|split]]].
  - intros -> Hns. simpl in Ha. rewrite Hns in Ha. split; [exact Ha|].
    split; [|split].
    + intros n. rewrite loop_S, Ha. apply loop_starts_with_pull.
    + intros n msg2 Hpull2. rewrite loop_S, Ha, loop_S.
      by erewrite attempt_pull_failed by exact Hpull2.
    + intros n.
      edestruct (loop_trace n bj nonce) as (t & Ht & _ & _ & Hz).
      exists t. split; [done|]. apply Hz. eauto.
  - intros -> Hns n. simpl in Ha. rewrite Hns in Ha. by rewrite loop_S, Ha.
  - intros e0 -> n. simpl in Ha. by rewrite loop_S, Ha.
  - intros image0 e0 s0 image' first' s'. apply attempt_keeps_first.
  - intros image0 s0. unfold _pull_and_tag_image.
    destruct (loop_trace 20 bj nonce image0 None s0) as (t & Ht & _ & Hw & _). eauto.
Qed.

(** *** The manifest list cache *)

Lemma get_manifest_list_cached image cached s :
  manifest_list_cache s !! image = Some cached ->
  _get_manifest_list env self image s = (Ok cached, s).
Proof. intros H. unfold _get_manifest_list. run_monad. by rewrite H. Qed.

(** A resolution that does not go through the configuration blob. *)
Lemma get_manifest_list_direct image s :
  manifest_list_cache s !! image = None ->
  takes_fallback env self image s = false ->
  let ev := GetManifestList image (registry image) (parent_registry_insecure self) in
  _get_manifest_list env self image s =
    match get_manifest_list env (trace s) image (registry image)
            (parent_registry_insecure self) with
    | Ok ml => (Ok ml, set_cache (<[image := ml]> (manifest_list_cache s)) (emit ev s))
    | Raise e => (Raise e, emit ev s)
    end.
Proof.
  intros Hmiss Hfb. unfold takes_fallback in Hfb. rewrite Hmiss in Hfb.
  rewrite bool_decide_eq_true_2 in Hfb by done. simpl in Hfb.
  unfold _get_manifest_list, call_get_manifest_list. run_monad. rewrite Hmiss.
  destruct (get_manifest_list env (trace s) image _ _) as [[ml|]|e]; simpl; [| |done].
  - by rewrite andb_false_r.
  - destruct (str_in "@sha256:" (to_str env image)); [done|]. done.
Qed.

(** A resolution through the configuration blob, up to the second fetch. *)
Lemma get_manifest_list_fallback image s labels version release :
  let ins := parent_registry_insecure self in
  let ev1 := GetManifestList image (registry image) ins in
  let ev2 := GetConfigFromRegistry image (registry image) (tag image) ins in
  let tagged := set_tag (Some (version +:+ "-" +:+ release)) image in
  let ev3 := GetManifestList tagged (registry tagged) ins in
  takes_fallback env self image s = true ->
  get_config_from_registry env (trace s ++ [ev1]) image (registry image) (tag image) ins
    = Ok (mkConfigBlob (Some labels)) ->
  labels !! "version" = Some version ->
  labels !! "release" = Some release ->
  _get_manifest_list env self image s =
    match get_manifest_list env (trace s ++ [ev1; ev2]) tagged (registry tagged) ins with
    | Ok ml => (Ok ml, set_cache (<[tagged := ml]> (manifest_list_cache s))
                         (emit ev3 (emit ev2 (emit ev1 s))))
    | Raise e => (Raise e, emit ev3 (emit ev2 (emit ev1 s)))
    end.
Proof.
  intros ins ev1 ev2 tagged ev3 Hfb Hcfg Hv Hr. subst ins ev1 ev2 ev3 tagged.
  unfold takes_fallback in Hfb.
  apply andb_prop in Hfb as [Hfb Hdirect]. apply andb_prop in Hfb as [Hmiss Hdig].
  apply bool_decide_eq_true_1 in Hmiss.
  destruct (get_manifest_list env (trace s) image _ _) as [[ml|]|e] eqn:Hd; try done.
  unfold _get_manifest_list, call_get_manifest_list, call_get_config_from_registry, label.
  run_monad. rewrite Hmiss, Hd, Hdig. norm_trace. rewrite Hcfg. simpl.
  rewrite Hr, Hv. simpl.
  destruct (get_manifest_list env (trace s ++ _) _ _ _) as [ml|e];
    norm_trace; reflexivity.
Qed.

Lemma get_manifest_list_unreachable image s e :
  let ins := parent_registry_insecure self in
  let ev1 := GetManifestList image (registry image) ins in
  let ev2 := GetConfigFromRegistry image (registry image) (tag image) ins in
  takes_fallback env self image s = true ->
  get_config_from_registry env (trace s ++ [ev1]) image (registry image) (tag image) ins
    = Raise e ->
  is_transport_error e = true ->
  _get_manifest_list env self image s =
    match exn_response e with
    | None =>
        (Raise (AttributeError "'NoneType' object has no attribute 'status_code'"),
         emit ev2 (emit ev1 s))
    | Some response =>
        (Raise (RuntimeError "Unable to fetch config for base image"),
         emit (Log WARNING "Unable to fetch config for %s, got error %s"
                 [to_str env image; pretty (status_code response)])
           (emit ev2 (emit ev1 s)))
    end.
Proof.
  intros ins ev1 ev2 Hfb Hcfg Htr. subst ins ev1 ev2.
  unfold takes_fallback in Hfb.
  apply andb_prop in Hfb as [Hfb Hdirect]. apply andb_prop in Hfb as [Hmiss Hdig].
  apply bool_decide_eq_true_1 in Hmiss.
  destruct (get_manifest_list env (trace s) image _ _) as [[ml|]|e'] eqn:Hd; try done.
  unfold _get_manifest_list, call_get_manifest_list, call_get_config_from_registry, label.
  run_monad. rewrite Hmiss, Hd, Hdig. norm_trace. rewrite Hcfg. simpl. rewrite Htr.
  destruct (exn_response e); norm_trace; reflexivity.
Qed.

(** What a resolution through the configuration blob that returns has
    done. *)
Lemma get_manifest_list_fallback_inv image s ml s' :
  takes_fallback env self image s = true ->
  _get_manifest_list env self image s = (Ok ml, s') ->
  exists version release,
    let tagged := set_tag (Some (version +:+ "-" +:+ release)) image in
    manifest_list_cache s' = <[tagged := ml]> (manifest_list_cache s) /\
    count is_manifest_fetch (trace s') = 2 + count is_manifest_fetch (trace s) /\
    count is_config_fetch (trace s') = 1 + count is_config_fetch (trace s).
Proof.
  intros Hfb Hres.
  destruct (get_config_from_registry env
              (trace s ++ [GetManifestList image (registry image)
                             (parent_registry_insecure self)])
              image (registry image) (tag image) (parent_registry_insecure self))
    as [[[labels|]]|e] eqn:Hcfg.
  - destruct (labels !! "release") as [release|] eqn:Hr;
      [destruct (labels !! "version") as [version|] eqn:Hv|].
    + rewrite (get_manifest_list_fallback image s labels version release Hfb Hcfg Hv Hr)
        in Hres.
      exists version, release.
      destruct (get_manifest_list env _ _ _ _) as [ml'|]; simplify_eq.
      norm_trace. rewrite !count_app. split; [done|].
      split; (rewrite Nat.add_comm; reflexivity).
    + exfalso. enter_fallback Hfb Hres. rewrite Hcfg. simpl. by rewrite Hr, Hv.
    + exfalso. enter_fallback Hfb Hres. rewrite Hcfg. simpl. by rewrite Hr.
  - exfalso. enter_fallback Hfb Hres. by rewrite Hcfg.
  - exfalso. enter_fallback Hfb Hres. rewrite Hcfg. simpl.
    destruct (is_transport_error e); [destruct (exn_response e)|]; done.
Qed.

(** C3: when an image addressed by digest ([@sha256:] in its string) is
    not cached and the fetch of its manifest list answers nothing, the
    resolver fetches the configuration blob once, and, given the labels
    [version] and [release], fetches the manifest list once more, for the
    image with the tag [version-release] in place of the digest; what that
    fetch answers is the result.  When the fetch of the blob raises
    [HTTPError], [RetryError] or [Timeout] the resolution raises, after these
    two fetches and without caching anything. *)
Theorem digest_tag_fallback (image : ImageName) (s : State) :
  let ins := parent_registry_insecure self in
  let ev1 := GetManifestList image (registry image) ins in
  let ev2 := GetConfigFromRegistry image (registry image) (tag image) ins in
  let result := _get_manifest_list env self image s in
  manifest_list_cache s !! image = None ->
  str_in "@sha256:" (to_str env image) = true ->
  get_manifest_list env (trace s) image (registry image) ins = Ok None ->
  (forall labels version release,
     get_config_from_registry env (trace s ++ [ev1]) image (registry image) (tag image) ins
       = Ok (mkConfigBlob (Some labels)) ->
     labels !! "version" = Some version ->
     labels !! "release" = Some release ->
     let tagged := set_tag (Some (version +:+ "-" +:+ release)) image in
     let ev3 := GetManifestList tagged (registry image) ins in
     trace (snd result) = trace s ++ [ev1; ev2; ev3] /\
     fst result = get_manifest_list env (trace s ++ [ev1; ev2]) tagged (registry image) ins) /\
  (forall e,
     get_config_from_registry env (trace s ++ [ev1]) image (registry image) (tag image) ins
       = Raise e ->
     is_transport_error e = true ->
     is_ok (fst result) = false /\
     List.filter is_registry_fetch (trace (snd result))
       = List.filter is_registry_fetch (trace s) ++ [ev1; ev2] /\
     manifest_list_cache (snd result) = manifest_list_cache s /\
     (is_Some (exn_response e) ->
      fst result = Raise (RuntimeError "Unable to fetch config for base image"))).
Proof.
  intros ins ev1 ev2 result Hmiss Hdig Hdirect. subst ins ev1 ev2 result.
  assert (Hfb : takes_fallback env self image s = true).
  { unfold takes_fallback. rewrite Hdirect, Hdig.
    by rewrite bool_decide_eq_true_2. }
  split.
  - intros labels version release Hcfg Hv Hr tagged ev3. subst tagged ev3.
    rewrite (get_manifest_list_fallback image s labels version release Hfb Hcfg Hv Hr).
    simpl. destruct (get_manifest_list env (_ ++ _) _ _ _); norm_trace; done.
  - intros e Hcfg Htr.
    rewrite (get_manifest_list_unreachable image s e Hfb Hcfg Htr).
    destruct (exn_response e) as [response|]; norm_trace.
    + rewrite !List.filter_app. simpl. done.
    + rewrite !List.filter_app. simpl. repeat split; done.
Qed.

(** C4, amended: a resolution that returns has cached its result, absent
    or not, under the reference it fetched last.  Unless it went through the
    configuration blob that is the reference it was given, and a second
    resolution of that reference returns the same result without any call
    and without any change of state.  When it went through the
    configuration blob, the result is cached under the reference with the
    tag [version-release]: resolving that one returns it without any call,
    while the digest reference itself is still not cached. *)
Theorem manifest_list_cached_as_fetched (image : ImageName) (s s' : State)
    (ml : option (list Manifest)) :
  _get_manifest_list env self image s = (Ok ml, s') ->
  (takes_fallback env self image s = false ->
     _get_manifest_list env self image s' = (Ok ml, s')) /\
  (takes_fallback env self image s = true ->
     exists version release,
       let tagged := set_tag (Some (version +:+ "-" +:+ release)) image in
       manifest_list_cache s' = <[tagged := ml]> (manifest_list_cache s) /\
       _get_manifest_list env self tagged s' = (Ok ml, s') /\
       (tagged <> image -> manifest_list_cache s' !! image = None)).
Proof.
  intros Hres. split; intros Hfb.
  - destruct (manifest_list_cache s !! image) as [cached|] eqn:Hc.
    + rewrite (get_manifest_list_cached image cached s Hc) in Hres. simplify_eq.
      by apply get_manifest_list_cached.
    + rewrite (get_manifest_list_direct image s Hc Hfb) in Hres.
      destruct (get_manifest_list env _ _ _ _) as [ml'|]; simplify_eq.
      apply get_manifest_list_cached. simpl. apply lookup_insert_eq.
  - destruct (get_manifest_list_fallback_inv image s ml s' Hfb Hres)
      as (version & release & Hcache & _).
    exists version, release. simpl in *. split; [done|]. split.
    + apply get_manifest_list_cached. rewrite Hcache. apply lookup_insert_eq.
    + intros Hne. rewrite Hcache, lookup_insert_ne by done.
      unfold takes_fallback in Hfb. apply andb_prop in Hfb as [Hfb _].
      apply andb_prop in Hfb as [Hmiss _]. by apply bool_decide_eq_true_1 in Hmiss.
Qed.

(** *** Validation of the platforms *)

Lemma lookup_all_Forall2 (platform_to_arch : gmap string string) platforms mapped :
  Forall2 (fun p a => platform_to_arch !! p = Some a) platforms mapped ->
  lookup_all platform_to_arch platforms = Ok mapped.
Proof.
  induction 1 as [|p a platforms mapped Hp _ IH]; simpl; [done|].
  by rewrite Hp, IH.
Qed.

Lemma validate_skips image s :
  validation_skipped self image ->
  exists msg, _validate_platforms_in_image env self image s
              = (Ok tt, emit (Log INFO msg []) s).
Proof.
  unfold validation_skipped, _validate_platforms_in_image. run_monad.
  intros Hskip.
  destruct (expected_platforms self) as [[|p [|q l]]|] eqn:He; simpl; eauto.
  destruct (truthy (registry image)) eqn:Hreg; simpl; eauto.
  destruct (platform_to_goarch self) eqn:Hmap; simpl; eauto.
  exfalso. destruct Hskip as [?|[(l' & Hl' & Hlen)|[?|?]]]; try done.
  simplify_eq. simpl in Hlen. lia.
Qed.

Lemma arches_spec manifests arch :
  arch ∈ arches manifests <-> exists m, m ∈ manifests /\ architecture m = arch.
Proof.
  unfold arches. rewrite elem_of_list_to_set, list_elem_of_fmap.
  split; intros (m & ? & ?); eauto.
Qed.

Lemma validate_checks image s expected platform_to_arch mapped manifests s1 :
  expected_platforms self = Some expected ->
  2 <= length expected ->
  truthy (registry image) = true ->
  platform_to_goarch self = Some platform_to_arch ->
  Forall2 (fun p a => platform_to_arch !! p = Some a) expected mapped ->
  _get_manifest_list env self image s = (Ok (Some manifests), s1) ->
  fst (_validate_platforms_in_image env self image s) =
    if bool_decide (list_to_set (C := gset string) mapped ⊆ arches manifests)
    then Ok tt
    else Raise (AssertionError "Missing arches in manifest list for base image").
Proof.
  intros He Hlen Hreg Hmap Hall Hml.
  apply lookup_all_Forall2 in Hall.
  unfold _validate_platforms_in_image. rewrite He.
  destruct expected as [|p [|q l]]; simpl in Hlen; [lia | lia |].
  run_monad. rewrite Hreg, Hmap. simpl. rewrite Hml, Hall.
  by case_bool_decide.
Qed.

(** C5, amended: [_validate_platforms_in_image] returns without raising
    and without any call to the registry when the expected platforms are
    unknown or fewer than two, when the image has no registry, and when the
    mapping from platforms to architectures is unavailable.  With at least
    two expected platforms, a registry, each platform with an entry in the
    mapping, and the manifest list of the image at hand, it returns if and
    only if every architecture the expected platforms map to is the
    architecture of a manifest of the list, and raises
    [AssertionError('Missing arches in manifest list for base image')] as
    soon as one of them is the architecture of no manifest of the list. *)
Theorem platform_coverage_validation (image : ImageName) (s : State) :
  let result := _validate_platforms_in_image env self image s in
  ((expected_platforms self = None \/
    exists l, expected_platforms self = Some l /\ length l < 2) ->
   fst result = Ok tt /\
   List.filter is_registry_fetch (trace (snd result))
     = List.filter is_registry_fetch (trace s)) /\
  (platform_to_goarch self = None ->
   fst result = Ok tt /\
   List.filter is_registry_fetch (trace (snd result))
     = List.filter is_registry_fetch (trace s)) /\
  (truthy (registry image) = false ->
   fst result = Ok tt /\
   List.filter is_registry_fetch (trace (snd result))
     = List.filter is_registry_fetch (trace s)) /\
  (forall expected platform_to_arch mapped manifests s1,
     expected_platforms self = Some expected ->
     2 <= length expected ->
     truthy (registry image) = true ->
     platform_to_goarch self = Some platform_to_arch ->
     Forall2 (fun p a => platform_to_arch !! p = Some a) expected mapped ->
     _get_manifest_list env self image s = (Ok (Some manifests), s1) ->
     (fst result = Ok tt <->
      forall arch, arch ∈ mapped -> exists m, m ∈ manifests /\ architecture m = arch) /\
     (forall arch,
        arch ∈ mapped ->
        (forall m, m ∈ manifests -> architecture m <> arch) ->
        fst result
        = Raise (AssertionError "Missing arches in manifest list for base image"))).
Proof.
  intros result. subst result.
  assert (Hskip : validation_skipped self image ->
    fst (_validate_platforms_in_image env self image s) = Ok tt /\
    List.filter is_registry_fetch (trace (snd (_validate_platforms_in_image env self image s)))
    = List.filter is_registry_fetch (trace s)).
  { intros Hs. destruct (validate_skips image s Hs) as [msg ->].
    norm_trace. split; [done|]. rewrite List.filter_app. simpl. by rewrite app_nil_r. }
  split; [|split; [|split]].
  - intros Hfew. apply Hskip. unfold validation_skipped. tauto.
  - intros Hmap. apply Hskip. unfold validation_skipped. tauto.
  - intros Hreg. apply Hskip. unfold validation_skipped. tauto.
  - intros expected platform_to_arch mapped manifests s1 He Hlen Hreg Hmap Hall Hml.
    rewrite (validate_checks image s _ _ _ _ _ He Hlen Hreg Hmap Hall Hml).
    assert (Hsub : list_to_set (C := gset string) mapped ⊆ arches manifests <->
                   forall arch, arch ∈ mapped ->
                     exists m, m ∈ manifests /\ architecture m = arch).
    { split.
      - intros Hs arch Harch. apply arches_spec, Hs. by apply elem_of_list_to_set.
      - intros Hs arch Harch%elem_of_list_to_set. by apply arches_spec, Hs. }
    destruct Hsub as [Hsub1 Hsub2].
    case_bool_decide as Hdec; split.
    + split; [intros _; exact (Hsub1 Hdec) | done].
    + intros arch Harch Hno.
      destruct (Hsub1 Hdec arch Harch) as (m & Hm & Heq). by destruct (Hno m Hm).
    + split; [done|]. intros Hs. destruct Hdec. exact (Hsub2 Hs).
    + done.
Qed.

(** *** The image for a different architecture *)

Lemma dict_get_set_eq {V} k (v : V) d : dict_get k (dict_set k v d) = Some v.
Proof.
  induction d as [|[k' v'] d IH]; simpl.
  - by rewrite String.eqb_refl.
  - destruct (String.eqb k k') eqn:E; simpl; rewrite ?String.eqb_refl, ?E; done.
Qed.

Lemma dict_get_set_ne {V} k k' (v : V) d :
  k <> k' -> dict_get k' (dict_set k v d) = dict_get k' d.
Proof.
  intros Hne. induction d as [|[k0 v0] d IH]; simpl.
  - destruct (String.eqb k' k) eqn:E; [|done].
    apply String.eqb_eq in E. congruence.
  - destruct (String.eqb k k0) eqn:E; simpl.
    + apply String.eqb_eq in E. subst k0.
      destruct (String.eqb k' k) eqn:E'; [|done].
      apply String.eqb_eq in E'. congruence.
    + by rewrite IH.
Qed.

Lemma dict_set_entries {V} k (v : V) d k' v' :
  (k', v') ∈ dict_set k v d -> (k' = k /\ v' = v) \/ (k', v') ∈ d.
Proof.
  induction d as [|[k0 v0] d IH]; simpl.
  - intros Hin. apply list_elem_of_singleton in Hin. simplify_eq. by left.
  - destruct (String.eqb k k0).
    + intros [Hin|Hin]%elem_of_cons; [simplify_eq; by left|].
      right. by apply elem_of_cons; right.
    + intros [Hin|Hin]%elem_of_cons.
      * right. apply elem_of_cons. by left.
      * destruct (IH Hin) as [?|?]; [by left|]. right. apply elem_of_cons. by right.
Qed.

Lemma dict_set_nonempty {V} k (v : V) d : dict_set k v d <> [].
Proof. destruct d as [|[k' v'] d]; simpl; [done|]. by destruct (String.eqb k k'). Qed.

(** Every entry of [arch_digests] is the digest of a manifest of the list,
    under its architecture. *)
Lemma arch_digests_of_entries image_name manifests arch pullspec :
  (arch, pullspec) ∈ arch_digests_of image_name manifests ->
  exists m, m ∈ manifests /\ architecture m = arch /\
            pullspec = image_name +:+ "@" +:+ digest m.
Proof.
  unfold arch_digests_of.
  assert (Hgen : forall d0,
    (arch, pullspec) ∈
      foldl (fun d m => dict_set (architecture m) (image_name +:+ "@" +:+ digest m) d)
        d0 manifests ->
    (arch, pullspec) ∈ d0 \/
    exists m, m ∈ manifests /\ architecture m = arch /\
              pullspec = image_name +:+ "@" +:+ digest m).
  { induction manifests as [|m manifests IH]; simpl; intros d0 Hin; [by left|].
    destruct (IH _ Hin) as [Hd|(m' & Hm' & ? & ?)].
    - apply dict_set_entries in Hd as [[? ?]|?]; [|by left].
      right. exists m. split; [apply elem_of_cons; by left | done].
    - right. exists m'. split; [apply elem_of_cons; by right | done]. }
  intros Hin. destruct (Hgen [] Hin) as [Hd|?]; [|done]. by apply elem_of_nil in Hd.
Qed.

Lemma arch_digests_of_nonempty image_name manifests :
  manifests <> [] -> arch_digests_of image_name manifests <> [].
Proof.
  unfold arch_digests_of.
  assert (Hgen : forall ms d0, d0 <> [] ->
    foldl (fun d m => dict_set (architecture m) (image_name +:+ "@" +:+ digest m) d)
      d0 ms <> []).
  { induction ms as [|m ms IH]; simpl; intros d0 Hd0; [done|].
    apply IH, dict_set_nonempty. }
  destruct manifests as [|m manifests]; [done|]. intros _. simpl.
  by apply Hgen.
Qed.

(** The loop over [arch_digests.items()], when every architecture has a
    platform: the platform seen last is that of the last item, whose image
    is then the entry of that platform, and the platforms entered are those
    of the items. *)
Lemma platform_digests_spec (arch_to_platform : gmap string string) items :
  forall present build,
    Forall (fun item => is_Some (arch_to_platform !! item.1)) items ->
    exists present' build',
      platform_digests arch_to_platform items present build = Ok (present', build') /\
      (items = [] -> present' = present /\ build' = build) /\
      (forall arch pullspec, last items = Some (arch, pullspec) ->
         exists p, arch_to_platform !! arch = Some p /\ present' = Some p /\
                   dict_get p build' = Some pullspec) /\
      (forall q, is_Some (dict_get q build') <->
                 is_Some (dict_get q build) \/
                 exists item, item ∈ items /\ arch_to_platform !! item.1 = Some q).
Proof.
  induction items as [|[arch pullspec] items IH]; intros present build Hall.
  - exists present, build. simpl. repeat split; try done.
    + by left.
    + intros [?|(item & Hin & _)]; [done|]. by apply elem_of_nil in Hin.
  - apply Forall_cons in Hall as [[p Hp] Hall]. simpl in Hp. simpl. rewrite Hp.
    destruct (IH (Some p) (dict_set p pullspec build) Hall)
      as (present' & build' & Hrun & Hnil & Hlast & Hkeys).
    exists present', build'. split; [done|]. split; [done|]. split.
    + intros arch' pullspec' Hl.
      destruct items as [|item items'].
      * simpl in Hl. simplify_eq. destruct (Hnil eq_refl) as [-> ->].
        exists p. by rewrite dict_get_set_eq.
      * apply Hlast. exact Hl.
    + intros q. rewrite Hkeys. split.
      * intros [Hq|(item & Hin & Hitem)].
        -- destruct (decide (p = q)) as [->|Hne].
           ++ right. exists (arch, pullspec). split; [apply elem_of_cons; by left | done].
           ++ left. by rewrite dict_get_set_ne in Hq.
        -- right. exists item. split; [apply elem_of_cons; by right | done].
      * intros [Hq|(item & Hin & Hitem)].
        -- destruct (decide (p = q)) as [->|Hne].
           ++ left. rewrite dict_get_set_eq. eauto.
           ++ left. by rewrite dict_get_set_ne.
        -- apply elem_of_cons in Hin as [->|Hin].
           ++ simpl in Hitem. simplify_eq. left. rewrite dict_get_set_eq. eauto.
           ++ right. eauto.
Qed.

Lemma dict_set_keeps_keys {V} k (v : V) d k' :
  (k' = k \/ exists v', (k', v') ∈ d) -> exists v', (k', v') ∈ dict_set k v d.
Proof.
  induction d as [|[k0 v0] d IH]; simpl.
  - intros [->|(v' & Hin)]; [|by apply elem_of_nil in Hin].
    exists v. apply list_elem_of_singleton. done.
  - destruct (String.eqb k k0) eqn:E.
    + apply String.eqb_eq in E. subst k0.
      intros [->|(v' & [Heq|Hin]%elem_of_cons)].
      * exists v. apply elem_of_cons. by left.
      * simplify_eq. exists v. apply elem_of_cons. by left.
      * exists v'. apply elem_of_cons. by right.
    + intros [->|(v' & [Heq|Hin]%elem_of_cons)].
      * destruct IH as [v' Hv']; [by left|]. exists v'. apply elem_of_cons. by right.
      * simplify_eq. exists v0. apply elem_of_cons. by left.
      * destruct IH as [v'' Hv'']; [right; eauto|]. exists v''. apply elem_of_cons. by right.
Qed.

Lemma arch_digests_of_keys image_name manifests m :
  m ∈ manifests ->
  exists pullspec, (architecture m, pullspec) ∈ arch_digests_of image_name manifests.
Proof.
  unfold arch_digests_of.
  assert (Hgen : forall ms d0 k,
    ((exists v, (k, v) ∈ d0) \/ exists m', m' ∈ ms /\ architecture m' = k) ->
    exists v, (k, v) ∈
      foldl (fun d m => dict_set (architecture m) (image_name +:+ "@" +:+ digest m) d)
        d0 ms).
  { induction ms as [|m' ms IH]; simpl; intros d0 k Hk.
    - destruct Hk as [?|(m' & Hin & _)]; [done|]. by apply elem_of_nil in Hin.
    - apply IH. destruct Hk as [Hd|(m'' & [->|Hin]%elem_of_cons & Hm'')].
      + left. apply dict_set_keeps_keys. by right.
      + left. apply dict_set_keeps_keys. by left.
      + right. eauto. }
  intros Hin. apply Hgen. right. eauto.
Qed.

Lemma platform_digests_missing (arch_to_platform : gmap string string) items :
  forall present build,
    (exists item, item ∈ items /\ arch_to_platform !! item.1 = None) ->
    exists key, platform_digests arch_to_platform items present build = Raise (KeyError key).
Proof.
  induction items as [|[arch pullspec] items IH]; intros present build (item & Hin & Hnone).
  - by apply elem_of_nil in Hin.
  - simpl. destruct (arch_to_platform !! arch) as [p|] eqn:Hp; [|eauto].
    apply IH. apply elem_of_cons in Hin as [->|Hin]; [simpl in Hnone; congruence|].
    eauto.
Qed.

Lemma different_arch_pullspec_spec manifests arch_to_platform image_name platform :
  dict_items env (arch_digests_of image_name manifests)
    ≡ₚ arch_digests_of image_name manifests ->
  goarch_to_platform self = Some arch_to_platform ->
  Forall (fun m => is_Some (arch_to_platform !! architecture m)) manifests ->
  ((exists m, m ∈ manifests /\ arch_to_platform !! architecture m = Some platform) ->
   different_arch_pullspec env self (arch_digests_of image_name manifests) platform
   = Ok None) /\
  ((forall m, m ∈ manifests -> arch_to_platform !! architecture m <> Some platform) ->
   forall arch pullspec,
     last (dict_items env (arch_digests_of image_name manifests)) = Some (arch, pullspec) ->
     different_arch_pullspec env self (arch_digests_of image_name manifests) platform
     = Ok (Some pullspec)).
Proof.
  intros Hperm Hmap Hall.
  assert (Hitems : Forall (fun item => is_Some (arch_to_platform !! item.1))
                     (dict_items env (arch_digests_of image_name manifests))).
  { apply Forall_forall. intros [arch pullspec] Hin. rewrite Hperm in Hin.
    apply arch_digests_of_entries in Hin as (m & Hm & <- & _).
    rewrite Forall_forall in Hall. by apply Hall. }
  destruct (platform_digests_spec arch_to_platform _ None [] Hitems)
    as (present' & build' & Hrun & _ & Hlast & Hkeys).
  unfold different_arch_pullspec. rewrite Hmap, Hrun. split.
  - intros (m & Hm & Hp).
    rewrite bool_decide_eq_true_2; [done|].
    apply Hkeys. right.
    destruct (arch_digests_of_keys image_name manifests m Hm) as [pullspec Hin].
    exists (architecture m, pullspec). by rewrite Hperm.
  - intros Hnone arch pullspec Hl.
    rewrite bool_decide_eq_false_2.
    + destruct (Hlast arch pullspec Hl) as (p & _ & -> & ->). done.
    + intros [[? Hd]|([arch' pullspec'] & Hin & Hitem)]%Hkeys; [done|].
      rewrite Hperm in Hin.
      apply arch_digests_of_entries in Hin as (m & Hm & <- & _).
      by apply (Hnone m Hm).
Qed.

Lemma get_image_for_different_arch_run image platform s ml s1 :
  _get_manifest_list env self image s = (Ok ml, s1) ->
  _get_image_for_different_arch env self image platform s =
    match ml with
    | None => (Ok None, s1)
    | Some manifests =>
        match different_arch_pullspec env self
                (arch_digests_of (to_str_notag env image) manifests) platform with
        | Ok spec => (Ok (parse env <$> spec), s1)
        | Raise (KeyError _) =>
            (Ok None,
             emit (Log INFO ("Cannot validate available platforms for base image "
                             +:+ "because platform descriptors are not defined") []) s1)
        | Raise e => (Raise e, s1)
        end
    end.
Proof.
  intros Hml. unfold _get_image_for_different_arch. unfold bind at 1. rewrite Hml.
  destruct ml as [manifests|]; [|done]. run_monad.
  destruct (different_arch_pullspec env self _ platform) as [spec|[]]; done.
Qed.

(** C9, amended: whatever the order in which the interpreter iterates
    over a dictionary, with the manifest list of the image at hand, a
    mapping from architectures to platforms and an entry in it for every
    architecture of the list, [_get_image_for_different_arch] answers
    nothing when some architecture of the list maps to the current platform,
    and otherwise the image parsed from [name@digest] of an architecture
    that is present in the list and does not map to the current platform
    (there is one as soon as the list is not empty): the architecture the
    iteration over [arch_digests] ends with.  Without a manifest list it
    answers nothing and logs nothing; without the mapping, or without an
    entry in it for an architecture of the list, or with an empty list, it
    answers nothing and logs at level info; it raises in none of these
    cases.  [run] asks for this image only when [check_platforms] is set
    and replaces the image when there is an answer. *)
Theorem image_for_different_arch (image : ImageName) (platform : string)
    (s s1 : State) (ml : option (list Manifest)) :
  (forall d, dict_items env d ≡ₚ d) ->
  _get_manifest_list env self image s = (Ok ml, s1) ->
  let result := _get_image_for_different_arch env self image platform s in
  (ml = None -> result = (Ok None, s1)) /\
  (forall manifests,
     ml = Some manifests -> goarch_to_platform self = None ->
     exists msg, result = (Ok None, emit (Log INFO msg []) s1)) /\
  (forall manifests arch_to_platform,
     ml = Some manifests ->
     goarch_to_platform self = Some arch_to_platform ->
     Forall (fun m => is_Some (arch_to_platform !! architecture m)) manifests ->
     ((exists m, m ∈ manifests /\ arch_to_platform !! architecture m = Some platform) ->
      result = (Ok None, s1)) /\
     ((forall m, m ∈ manifests -> arch_to_platform !! architecture m <> Some platform) ->
      (forall arch pullspec,
         last (dict_items env (arch_digests_of (to_str_notag env image) manifests))
         = Some (arch, pullspec) ->
         result = (Ok (Some (parse env pullspec)), s1) /\
         exists m, m ∈ manifests /\ architecture m = arch /\
                   pullspec = to_str_notag env image +:+ "@" +:+ digest m /\
                   arch_to_platform !! arch <> Some platform) /\
      (manifests <> [] ->
       exists m, m ∈ manifests /\
                 arch_to_platform !! architecture m <> Some platform /\
                 result
                 = (Ok (Some (parse env (to_str_notag env image +:+ "@" +:+ digest m))),
                    s1))) /\
     (manifests = [] -> exists msg, result = (Ok None, emit (Log INFO msg []) s1))) /\
  (forall manifests arch_to_platform m,
     ml = Some manifests ->
     goarch_to_platform self = Some arch_to_platform ->
     m ∈ manifests -> arch_to_platform !! architecture m = None ->
     exists msg, result = (Ok None, emit (Log INFO msg []) s1)) /\
  (check_platforms self = false ->
   forall s0, select_for_platform env self image s0 = (Ok image, s0)) /\
  (check_platforms self = true ->
   forall s0, _validate_platforms_in_image env self image s0 = (Ok tt, s) ->
     platform = current_platform self ->
     select_for_platform env self image s0 =
       match result with
       | (Ok new_arch_image, s2) => (Ok (default image new_arch_image), s2)
       | (Raise e, s2) => (Raise e, s2)
       end).
Proof.
  intros Hperm Hml result. subst result.
  rewrite (get_image_for_different_arch_run image platform s ml s1 Hml).
  split; [|split; [|split; [|split; [|split]]]].
  - by intros ->.
  - intros manifests -> Hmap. unfold different_arch_pullspec. rewrite Hmap. eauto.
  - intros manifests arch_to_platform -> Hmap Hall.
    destruct (different_arch_pullspec_spec manifests arch_to_platform
                (to_str_notag env image) platform (Hperm _) Hmap Hall) as [Hsame Hother].
    assert (Hlast : forall arch pullspec,
      (forall m, m ∈ manifests -> arch_to_platform !! architecture m <> Some platform) ->
      last (dict_items env (arch_digests_of (to_str_notag env image) manifests))
      = Some (arch, pullspec) ->
      exists m, m ∈ manifests /\ architecture m = arch /\
                pullspec = to_str_notag env image +:+ "@" +:+ digest m /\
                arch_to_platform !! arch <> Some platform).
    { intros arch pullspec Hnone Hl.
      assert (Hin : (arch, pullspec) ∈ arch_digests_of (to_str_notag env image) manifests).
      { rewrite <- (Hperm _). apply last_Some in Hl as [l' ->]. apply elem_of_app. right.
        by apply list_elem_of_singleton. }
      apply arch_digests_of_entries in Hin as (m & Hm & <- & ->).
      exists m. repeat split; try done. by apply Hnone. }
    split; [|split].
    + intros Hex. by rewrite (Hsame Hex).
    + intros Hnone. split.
      * intros arch pullspec Hl. rewrite (Hother Hnone arch pullspec Hl).
        split; [done|]. by apply Hlast.
      * intros Hne.
        destruct (last (dict_items env (arch_digests_of (to_str_notag env image) manifests)))
          as [[arch pullspec]|] eqn:Hl.
        -- destruct (Hlast arch pullspec Hnone eq_refl) as (m & Hm & <- & -> & Hother').
           exists m. rewrite (Hother Hnone _ _ eq_refl). done.
        -- apply last_None in Hl. pose proof (Hperm (arch_digests_of (to_str_notag env image)
                                                       manifests)) as Hp.
           rewrite Hl in Hp. symmetry in Hp. apply Permutation_nil_r in Hp.
           by apply (arch_digests_of_nonempty (to_str_notag env image)) in Hne.
    + intros ->. unfold different_arch_pullspec. rewrite Hmap.
      assert (Hnil : dict_items env (arch_digests_of (to_str_notag env image) []) = []).
      { apply Permutation_nil_r. apply Hperm. }
      rewrite Hnil. simpl. eauto.
  - intros manifests arch_to_platform m -> Hmap Hm Hnone.
    destruct (arch_digests_of_keys (to_str_notag env image) manifests m Hm)
      as [pullspec Hin].
    destruct (platform_digests_missing arch_to_platform
                (dict_items env (arch_digests_of (to_str_notag env image) manifests))
                None [])
      as [key Hkey]; [exists (architecture m, pullspec); by rewrite (Hperm _)|].
    unfold different_arch_pullspec. rewrite Hmap, Hkey. eauto.
  - intros Hcheck s0. unfold select_for_platform. by rewrite Hcheck.
  - intros Hcheck s0 Hval ->. unfold select_for_platform. rewrite Hcheck.
    unfold bind at 1. rewrite Hval. unfold bind at 1.
    rewrite (get_image_for_different_arch_run image _ s ml s1 Hml).
    destruct ml as [manifests|]; [|done].
    destruct (different_arch_pullspec env self _ _) as [[spec|]|[]]; done.
Qed.

(** *** What a computation keeps *)

#[local] Instance adds_only_refl P : Reflexive (adds_only P).
Proof. intros s. exists []. by rewrite app_nil_r. Qed.

#[local] Instance adds_only_trans P : Transitive (adds_only P).
Proof.
  intros s1 s2 s3 (t & Ht & HP) (t' & Ht' & HP'). exists (t ++ t').
  split; [by rewrite Ht', Ht, app_assoc | by apply Forall_app].
Qed.

#[local] Instance ledger_grows_refl : Reflexive ledger_grows.
Proof. intros s. unfold ledger_grows. set_solver. Qed.

#[local] Instance ledger_grows_trans : Transitive ledger_grows.
Proof. intros s1 s2 s3. unfold ledger_grows. set_solver. Qed.

#[local] Instance same_parents_refl : Reflexive same_parents.
Proof. intros s. reflexivity. Qed.

#[local] Instance same_parents_trans : Transitive same_parents.
Proof. intros s1 s2 s3. unfold same_parents. congruence. Qed.

Lemma keeps_ret {A} R `{!Reflexive R} (a : A) : keeps R (ret a).
Proof. by intros s. Qed.

Lemma keeps_raise {A} R `{!Reflexive R} e : keeps R (raise (A := A) e).
Proof. by intros s. Qed.

Lemma keeps_lift {A} R `{!Reflexive R} (r : Result A) : keeps R (lift r).
Proof. by intros s. Qed.

Lemma keeps_get R `{!Reflexive R} : keeps R get.
Proof. by intros s. Qed.

Lemma keeps_modify R (f : State -> State) : (forall s, R s (f s)) -> keeps R (modify f).
Proof. intros Hf s. apply Hf. Qed.

Lemma keeps_bind {A B} R `{!Transitive R} (m : M State A) (k : A -> M State B) :
  keeps R m -> (forall a, keeps R (k a)) -> keeps R (bind m k).
Proof.
  intros Hm Hk s. unfold bind. specialize (Hm s).
  destruct (m s) as [[a|e] s1]; simpl in *; [|done].
  etrans; [exact Hm | apply Hk].
Qed.

Lemma keeps_try {A} R `{!Transitive R} (m : M State A) catches (h : Exn -> M State A) :
  keeps R m -> (forall e, keeps R (h e)) -> keeps R (try_except m catches h).
Proof.
  intros Hm Hh s. unfold try_except. specialize (Hm s).
  destruct (m s) as [[a|e] s1]; simpl in *; [done|].
  destruct (catches e); simpl; [|done]. etrans; [exact Hm | apply Hh].
Qed.

(** Takes a computation apart, down to the changes of state it makes. *)
Ltac split_keeps :=
  repeat match goal with
  | |- keeps _ (bind _ _) => apply keeps_bind; [try apply _ | | intros ?]
  | |- keeps _ (try_except _ _ _) => apply keeps_try; [try apply _ | | intros ?]
  | |- keeps _ (ret _) => apply keeps_ret; apply _
  | |- keeps _ (raise _) => apply keeps_raise; apply _
  | |- keeps _ (lift _) => apply keeps_lift; apply _
  | |- keeps _ get => apply keeps_get; apply _
  | |- keeps _ (log _ _ _) => unfold log
  | |- keeps _ (modify _) => apply keeps_modify; intros ?
  | |- keeps _ _ => solve [eauto 2]
  | |- keeps _ (match ?x with _ => _ end) => destruct x
  | |- keeps _ (let '(_, _) := ?x in _) => destruct x
  end.

Lemma adds_only_emit (P : Event -> Prop) e s : P e -> adds_only P s (emit e s).
Proof. intros HP. exists [e]. split; [done | by constructor]. Qed.

Lemma adds_only_same P s s' : trace s' = trace s -> adds_only P s s'.
Proof. intros Ht. exists []. by rewrite Ht, app_nil_r. Qed.

(** *** The ledger of pulled images *)

Lemma ledger_attempt bj nonce image first :
  keeps ledger_grows (attempt env self bj nonce image first).
Proof.
  unfold attempt, call_pull_image, call_tag_image. split_keeps;
    unfold ledger_grows, emit, add_pulled; simpl; set_solver.
Qed.

Lemma ledger_loop n : forall bj nonce image first,
  keeps ledger_grows (pull_and_tag_loop env self n bj nonce image first).
Proof.
  induction n as [|n IH]; intros bj nonce image first; simpl.
  - split_keeps; unfold ledger_grows, emit; simpl; set_solver.
  - pose proof (ledger_attempt bj nonce image first). split_keeps.
Qed.

(** X1: a pull that succeeds is entered in [workflow.pulled_base_images]
    within the same pass, whether the tag that follows succeeds, finds the
    image removed or fails; a pull that fails enters nothing; a pass that
    returns has also entered what [tag_image] answered; and nothing ever
    leaves the ledger during a call. *)
Theorem pulled_images_recorded (bj : BuildJson) (nonce : string) (image : ImageName)
    (first : option Exn) (s : State) :
  let ins := parent_registry_insecure self in
  let pass := attempt env self bj nonce image first s in
  (pull_image env (trace s) image ins = None ->
   to_str env image ∈ pulled_base_images (snd pass)) /\
  (is_Some (pull_image env (trace s) image ins) ->
   pulled_base_images (snd pass) = pulled_base_images s) /\
  (forall new_image,
     fst pass = Ok (Return new_image) ->
     exists response,
       tag_image env (trace s ++ [PullImage image ins; Log INFO "tagging pulled image" []])
         image new_image = Ok response /\
       response ∈ pulled_base_images (snd pass)) /\
  (forall n,
     pulled_base_images s
     ⊆ pulled_base_images (snd (pull_and_tag_loop env self n bj nonce image first s))).
Proof.
  intros ins pass. subst ins pass. split; [|split; [|split]].
  - intros Hpull. unfold attempt, call_pull_image, call_tag_image. run_monad.
    rewrite Hpull. simpl.
    repeat (case_match; simpl in *; simplify_eq); norm_trace; set_solver.
  - intros [e Hpull]. unfold attempt, call_pull_image. run_monad. rewrite Hpull.
    repeat (case_match; simpl in *; simplify_eq); done.
  - intros new_image. unfold attempt, call_pull_image, call_tag_image. run_monad.
    intros Hret.
    repeat (case_match; simpl in *; simplify_eq); norm_trace.
    match goal with
    | H : tag_image _ _ _ _ = Ok ?r |- _ =>
        rewrite <- app_assoc in H; simpl in H; exists r; split; [exact H|]
    end.
    set_solver.
  - intros n. apply ledger_loop.
Qed.

(** A pass that returns has pulled, found the name of the build, tagged, and
    logged, in this order. *)
Lemma attempt_return bj nonce image first s new_image s' :
  attempt env self bj nonce image first s = (Ok (Return new_image), s') ->
  exists unique_id,
    metadata_name bj = Some unique_id /\
    new_image = mkImageName None None (Some unique_id) (Some nonce) /\
    trace s' = trace s ++ [PullImage image (parent_registry_insecure self);
                           Log INFO "tagging pulled image" [];
                           TagImage image new_image;
                           Log DEBUG "image '%s' is available as '%s'"
                             [to_str env image; to_str env new_image]].
Proof.
  unfold attempt, call_pull_image, call_tag_image. run_monad. intros H.
  repeat (case_match; simpl in *; simplify_eq); norm_trace. eauto.
Qed.

Lemma pull_and_tag_loop_return n : forall bj nonce image first s new_image,
  fst (pull_and_tag_loop env self n bj nonce image first s) = Ok new_image ->
  exists unique_id pulled t,
    metadata_name bj = Some unique_id /\
    new_image = mkImageName None None (Some unique_id) (Some nonce) /\
    trace (snd (pull_and_tag_loop env self n bj nonce image first s))
    = trace s ++ t ++ [PullImage pulled (parent_registry_insecure self);
                       Log INFO "tagging pulled image" [];
                       TagImage pulled new_image;
                       Log DEBUG "image '%s' is available as '%s'"
                         [to_str env pulled; to_str env new_image]].
Proof.
  induction n as [|n IH]; intros bj nonce img first s0 new_image; [done|].
  rewrite loop_S.
  destruct (attempt env self bj nonce img first s0) as [[[img' first'|new]|e] s1] eqn:Ha;
    simpl; [| |done].
  - intros Hok. destruct (IH _ _ img' first' s1 _ Hok) as (uid & pulled & t & Hname & Hnew & Ht).
    destruct (attempt_trace _ _ _ _ _ _ _ Ha) as (t1 & Ht1 & _).
    exists uid, pulled, (PullImage img (parent_registry_insecure self) :: t1 ++ t).
    split; [done|]. split; [done|].
    rewrite Ht, Ht1, <- !app_assoc. simpl. by rewrite <- app_assoc.
  - intros [= ->].
    destruct (attempt_return _ _ _ _ _ _ _ Ha) as (uid & Hname & Hnew & Ht).
    exists uid, img, []. done.
Qed.

(** X2: when [_pull_and_tag_image] returns, what it returns is the image
    name made of the name of the build and the nonce, whatever image was
    pulled and whatever was done to its namespace; the call ends with the
    tag of the image pulled last under that name, and the debug record of
    it. *)
Theorem tagged_image_is_build_name_and_nonce (image : ImageName) (bj : BuildJson)
    (nonce : string) (s : State) (new_image : ImageName) :
  fst (_pull_and_tag_image env self image bj nonce s) = Ok new_image ->
  exists unique_id pulled t,
    metadata_name bj = Some unique_id /\
    new_image = mkImageName None None (Some unique_id) (Some nonce) /\
    trace (snd (_pull_and_tag_image env self image bj nonce s))
    = trace s ++ t ++ [PullImage pulled (parent_registry_insecure self);
                       Log INFO "tagging pulled image" [];
                       TagImage pulled new_image;
                       Log DEBUG "image '%s' is available as '%s'"
                         [to_str env pulled; to_str env new_image]].
Proof. apply pull_and_tag_loop_return. Qed.

(** X3: an exception of [pull_image] other than [RetryGeneratorException],
    an exception of [tag_image] other than [NotFound], and the missing name
    of the build after a pull, are raised by the call as they are, from the
    pass in which they occur: no further pass is made. *)
Theorem other_failures_are_fatal (n : nat) (bj : BuildJson) (nonce : string)
    (image : ImageName) (first : option Exn) (s : State) :
  let ins := parent_registry_insecure self in
  let pulled := add_pulled (to_str env image) (emit (PullImage image ins) s) in
  (forall e,
     pull_image env (trace s) image ins = Some e ->
     (forall msg, e <> RetryGeneratorException msg) ->
     pull_and_tag_loop env self (S n) bj nonce image first s
     = (Raise e, emit (PullImage image ins) s)) /\
  (pull_image env (trace s) image ins = None ->
   metadata_name bj = None ->
   pull_and_tag_loop env self (S n) bj nonce image first s = (Raise (KeyError "name"), pulled)) /\
  (forall unique_id e,
     pull_image env (trace s) image ins = None ->
     metadata_name bj = Some unique_id ->
     tag_image env (trace s ++ [PullImage image ins; Log INFO "tagging pulled image" []])
       image (mkImageName None None (Some unique_id) (Some nonce)) = Raise e ->
     (forall msg, e <> NotFound msg) ->
     pull_and_tag_loop env self (S n) bj nonce image first s
     = (Raise e,
        emit (TagImage image (mkImageName None None (Some unique_id) (Some nonce)))
          (emit (Log INFO "tagging pulled image" []) pulled))).
Proof.
  intros ins pulled. subst ins pulled. split; [|split].
  - intros e Hpull Hother. rewrite loop_S.
    unfold attempt, call_pull_image. run_monad. rewrite Hpull.
    destruct e; try done. by destruct (Hother msg).
  - intros Hpull Hname. rewrite loop_S.
    unfold attempt, call_pull_image. run_monad. by rewrite Hpull, Hname.
  - intros unique_id e Hpull Hname Htag Hother. rewrite loop_S.
    unfold attempt, call_pull_image, call_tag_image. run_monad.
    rewrite Hpull, Hname. norm_trace. rewrite Htag.
    destruct e; try done. by destruct (Hother msg).
Qed.

(** X4: [_ensure_image_registry] changes the registry of the image and
    nothing else, adds nothing to the state when it returns, and accepts its
    own result: called on the image it returned, from any state, it returns
    that image again. *)
Theorem ensure_image_registry_idempotent (image w : ImageName) (s s' : State) :
  _ensure_image_registry env self image s = (Ok w, s') ->
  s' = s /\
  namespace w = namespace image /\ repo w = repo image /\ tag w = tag image /\
  (truthy (parent_registry self) = true -> registry w = parent_registry self) /\
  (truthy (parent_registry self) = false -> w = image) /\
  forall s0, _ensure_image_registry env self w s0 = (Ok w, s0).
Proof.
  unfold _ensure_image_registry. run_monad.
  destruct (truthy (parent_registry self)) eqn:Hconf.
  - destruct (truthy (registry image) && _) eqn:Hbad; [done|].
    intros [= <- <-]. repeat split; try done.
    intros s0. simpl.
    rewrite bool_decide_eq_true_2 by done. rewrite andb_false_r.
    by destruct image.
  - intros [= <- <-]. repeat split; done.
Qed.

(** *** More on the validation of platforms *)

(** The validation, when it does not return early, is a resolution of the
    manifest list followed by the comparison. *)
Lemma validate_run image s expected platform_to_arch :
  expected_platforms self = Some expected ->
  2 <= length expected ->
  truthy (registry image) = true ->
  platform_to_goarch self = Some platform_to_arch ->
  _validate_platforms_in_image env self image s =
    match _get_manifest_list env self image s with
    | (Raise e, s1) => (Raise e, s1)
    | (Ok None, s1) =>
        (Raise (RuntimeError "Unable to fetch manifest list for base image"), s1)
    | (Ok (Some manifests), s1) =>
        match lookup_all platform_to_arch expected with
        | Raise e => (Raise e, s1)
        | Ok mapped =>
            let s2 := emit (Log INFO "Manifest list arches: %s, expected arches: %s"
                              [render_set (arches manifests);
                               render_set (list_to_set mapped)]) s1 in
            if bool_decide (list_to_set (C := gset string) mapped ⊆ arches manifests)
            then (Ok tt,
                  emit (Log INFO "Base image is a manifest list for all required platforms"
                          []) s2)
            else (Raise (AssertionError "Missing arches in manifest list for base image"),
                  s2)
        end
    end.
Proof.
  intros He Hlen Hreg Hmap. unfold _validate_platforms_in_image. rewrite He.
  destruct expected as [|p [|q l]]; simpl in Hlen; [lia | lia |].
  cbn [length Nat.eqb]. rewrite Hreg, Hmap. cbn [negb]. unfold bind at 1.
  destruct (_get_manifest_list env self image s) as [[[manifests|]|e] s1]; try done.
  unfold bind, lift, log, modify, raise.
  destruct (lookup_all platform_to_arch (p :: q :: l)) as [mapped|e]; [|done].
  by case_bool_decide.
Qed.

Lemma lookup_all_missing (platform_to_arch : gmap string string) known p rest :
  Forall (fun q => is_Some (platform_to_arch !! q)) known ->
  platform_to_arch !! p = None ->
  lookup_all platform_to_arch (known ++ p :: rest) = Raise (KeyError p).
Proof.
  intros Hknown Hp. induction Hknown as [|q known [a Hq] _ IH]; simpl.
  - by rewrite Hp.
  - by rewrite Hq, IH.
Qed.

(** X5: what [_validate_platforms_in_image] does beyond the comparison of
    architectures.  For an image without a registry it returns after one
    info record, without any call.  With at least two expected platforms, a
    registry and the mapping: an exception of the resolution of the manifest
    list is raised as it is; a manifest list that is not found raises
    [RuntimeError('Unable to fetch manifest list for base image')]; and the
    first expected platform without an entry in the mapping raises
    [KeyError] for it, after the manifest list was fetched and before
    anything is logged or compared. *)
Theorem validation_other_outcomes (image : ImageName) (s : State) :
  let result := _validate_platforms_in_image env self image s in
  let resolved := _get_manifest_list env self image s in
  (truthy (registry image) = false ->
   exists msg, result = (Ok tt, emit (Log INFO msg []) s)) /\
  (forall expected platform_to_arch,
     expected_platforms self = Some expected ->
     2 <= length expected ->
     truthy (registry image) = true ->
     platform_to_goarch self = Some platform_to_arch ->
     (forall e, fst resolved = Raise e -> result = (Raise e, snd resolved)) /\
     (fst resolved = Ok None ->
      result = (Raise (RuntimeError "Unable to fetch manifest list for base image"),
                snd resolved)) /\
     (forall manifests known p rest,
        fst resolved = Ok (Some manifests) ->
        expected = known ++ p :: rest ->
        Forall (fun q => is_Some (platform_to_arch !! q)) known ->
        platform_to_arch !! p = None ->
        result = (Raise (KeyError p), snd resolved))).
Proof.
  intros result resolved. subst result resolved. split.
  - intros Hreg. apply validate_skips. unfold validation_skipped. tauto.
  - intros expected platform_to_arch He Hlen Hreg Hmap.
    rewrite (validate_run image s expected platform_to_arch He Hlen Hreg Hmap).
    destruct (_get_manifest_list env self image s) as [[[manifests|]|e] s1]; simpl.
    + split; [done|]. split; [done|].
      intros ? known p rest [= <-] -> Hknown Hp.
      by rewrite (lookup_all_missing _ _ _ _ Hknown Hp).
    + split; [done|]. split; [done|]. by intros.
    + split; [by intros ? [= ->]|]. split; [done|]. by intros.
Qed.

(** *** The cache between the validation and the selection *)

(** The manifest list resolution leaves the ledger and the parent images
    alone, writes the cache at one key at most, and writes nothing when it
    raises or finds the image cached. *)
Lemma get_manifest_list_writes image s :
  let result := _get_manifest_list env self image s in
  pulled_base_images (snd result) = pulled_base_images s /\
  parent_images (snd result) = parent_images s /\
  (is_Some (manifest_list_cache s !! image) -> snd result = s) /\
  (is_ok (fst result) = false -> manifest_list_cache (snd result) = manifest_list_cache s) /\
  (takes_fallback env self image s = false ->
   forall ml, fst result = Ok ml -> manifest_list_cache (snd result) !! image = Some ml) /\
  (takes_fallback env self image s = false ->
   manifest_list_cache s ⊆ manifest_list_cache (snd result)) /\
  exists key, forall k, k <> key ->
    manifest_list_cache (snd result) !! k = manifest_list_cache s !! k.
Proof.
  intros result. subst result.
  destruct (manifest_list_cache s !! image) as [cached|] eqn:Hc.
  { rewrite (get_manifest_list_cached image cached s Hc). simpl.
    repeat split; try done.
    - intros _ ml [= <-]. done.
    - exists image. by intros k _. }
  destruct (takes_fallback env self image s) eqn:Hfb.
  - assert (Hcases :
      (exists e s1, _get_manifest_list env self image s = (Raise e, s1) /\
                    manifest_list_cache s1 = manifest_list_cache s /\
                    pulled_base_images s1 = pulled_base_images s /\
                    parent_images s1 = parent_images s) \/
      (exists ml s1 key, _get_manifest_list env self image s = (Ok ml, s1) /\
                    manifest_list_cache s1 = <[key := ml]> (manifest_list_cache s) /\
                    pulled_base_images s1 = pulled_base_images s /\
                    parent_images s1 = parent_images s)).
    { pose proof Hfb as Hfb'. unfold takes_fallback in Hfb'.
      apply andb_prop in Hfb' as [Hfb' Hdirect]. apply andb_prop in Hfb' as [_ Hdig].
      destruct (get_manifest_list env (trace s) image _ _) as [[?|]|?] eqn:Hd; try done.
      unfold _get_manifest_list, call_get_manifest_list, call_get_config_from_registry, label.
      run_monad. rewrite Hc, Hd, Hdig. norm_trace.
      repeat (case_match; simpl in *; simplify_eq); norm_trace;
        first [left; by eauto 10 | right; by eauto 10]. }
    destruct Hcases as [(e & s1 & -> & Hcache & Hl & Hp)|(ml & s1 & key & -> & Hcache & Hl & Hp)];
      simpl.
    + repeat split; try done. exists image. intros k _. by rewrite Hcache.
    + repeat split; try done. exists key. intros k Hk. by rewrite Hcache, lookup_insert_ne.
  - rewrite (get_manifest_list_direct image s Hc Hfb).
    destruct (get_manifest_list env _ _ _ _) as [ml|e]; simpl.
    + repeat split; try done.
      * intros _ ml' [= <-]. apply lookup_insert_eq.
      * intros _. by apply insert_subseteq.
      * exists image. intros k Hk. by rewrite lookup_insert_ne.
    + repeat split; try done. exists image. by intros k _.
Qed.

Lemma not_skipped image :
  ~ validation_skipped self image ->
  exists expected platform_to_arch,
    expected_platforms self = Some expected /\ 2 <= length expected /\
    truthy (registry image) = true /\ platform_to_goarch self = Some platform_to_arch.
Proof.
  unfold validation_skipped. intros Hns.
  destruct (expected_platforms self) as [expected|] eqn:He; [|tauto].
  destruct (platform_to_goarch self) as [platform_to_arch|] eqn:Hmap; [|tauto].
  destruct (truthy (registry image)) eqn:Hreg; [|tauto].
  exists expected, platform_to_arch. repeat split; try done.
  destruct (decide (2 <= length expected)); [done|].
  exfalso. apply Hns. right. left. exists expected. split; [done | lia].
Qed.

Lemma count_emit_log p lvl fmt args s :
  p (Log lvl fmt args) = false ->
  count p (trace (emit (Log lvl fmt args) s)) = count p (trace s).
Proof.
  intros Hp. unfold emit. simpl. rewrite count_app. unfold count at 2. simpl.
  rewrite Hp. simpl. lia.
Qed.

(** X6: the cache does its work between the two users of the manifest
    list.  When the validation does not return early and the image is
    resolved without the configuration blob, [run]'s handling of the image
    between [_ensure_image_registry] and [_pull_and_tag_image] calls the
    registry once at most; and when the validation returns, the manifest
    list is cached under the image and the selection of the image for
    another architecture makes no call to the registry. *)
Theorem validation_feeds_selection (image : ImageName) (platform : string) (s : State) :
  ~ validation_skipped self image ->
  takes_fallback env self image s = false ->
  let validated := _validate_platforms_in_image env self image s in
  count is_registry_fetch (trace (snd (select_for_platform env self image s)))
    <= 1 + count is_registry_fetch (trace s) /\
  (fst validated = Ok tt ->
   (exists manifests, manifest_list_cache (snd validated) !! image = Some (Some manifests)) /\
   count is_registry_fetch
     (trace (snd (_get_image_for_different_arch env self image platform (snd validated))))
   = count is_registry_fetch (trace (snd validated))).
Proof.
  intros Hns Hfb validated. subst validated.
  destruct (not_skipped image Hns) as (expected & platform_to_arch & He & Hlen & Hreg & Hmap).
  pose proof (validate_run image s expected platform_to_arch He Hlen Hreg Hmap) as Hval.
  destruct (get_manifest_list_writes image s) as (_ & _ & _ & _ & Hcached & _).
  specialize (Hcached Hfb).
  assert (Hone : count is_registry_fetch (trace (snd (_get_manifest_list env self image s)))
                 <= 1 + count is_registry_fetch (trace s)).
  { destruct (manifest_list_cache s !! image) as [cached|] eqn:Hc.
    - rewrite (get_manifest_list_cached image cached s Hc). simpl. lia.
    - rewrite (get_manifest_list_direct image s Hc Hfb).
      destruct (get_manifest_list env _ _ _ _); norm_trace; rewrite count_app;
        unfold count at 2; simpl; lia. }
  assert (Hsel : forall s1 manifests pf,
    manifest_list_cache s1 !! image = Some (Some manifests) ->
    count is_registry_fetch
      (trace (snd (_get_image_for_different_arch env self image pf s1)))
    = count is_registry_fetch (trace s1)).
  { intros s1 manifests pf Hc1.
    rewrite (get_image_for_different_arch_run image pf s1 (Some manifests) s1)
      by (by apply get_manifest_list_cached).
    destruct (different_arch_pullspec env self _ pf) as [spec|[]]; cbn [fst snd]; try done.
    by rewrite count_emit_log. }
  destruct (_get_manifest_list env self image s) as [[[manifests|]|e] s1] eqn:Hres;
    cbn [fst snd] in *.
  - specialize (Hcached _ eq_refl).
    destruct (lookup_all platform_to_arch expected) as [mapped|e] eqn:Hall.
    + case_bool_decide as Hsub.
      * split.
        -- unfold select_for_platform. destruct (check_platforms self); cbn [fst snd]; [|unfold ret; cbn [snd]; lia].
           unfold bind at 1. rewrite Hval. unfold bind at 1.
           match goal with
           | |- context [_get_image_for_different_arch env self image ?pf ?s2] =>
               pose proof (Hsel s2 manifests pf Hcached) as Hs;
               destruct (_get_image_for_different_arch env self image pf s2)
                 as [[new|e] s3]
           end; unfold ret; cbn [fst snd] in *; rewrite Hs, !count_emit_log by done; lia.
        -- intros _. rewrite Hval. cbn [fst snd]. split; [eauto|].
           rewrite (Hsel _ manifests platform) by done. done.
      * split; [|by rewrite Hval].
        unfold select_for_platform. destruct (check_platforms self); cbn [fst snd]; [|unfold ret; cbn [snd]; lia].
        unfold bind at 1. rewrite Hval. cbn [fst snd]. rewrite count_emit_log by done. lia.
    + split; [|by rewrite Hval].
      unfold select_for_platform. destruct (check_platforms self); cbn [fst snd]; [|unfold ret; cbn [snd]; lia].
      unfold bind at 1. by rewrite Hval.
  - split; [|by rewrite Hval].
    unfold select_for_platform. destruct (check_platforms self); cbn [fst snd]; [|unfold ret; cbn [snd]; lia].
    unfold bind at 1. by rewrite Hval.
  - split; [|by rewrite Hval].
    unfold select_for_platform. destruct (check_platforms self); cbn [fst snd]; [|unfold ret; cbn [snd]; lia].
    unfold bind at 1. by rewrite Hval.
Qed.

(** X7: a resolution of the manifest list writes the cache at one key at
    most, and leaves the ledger of pulled images and the parent images as
    they are.  It writes nothing when the image is cached, when it ends
    without a state change at all, and nothing when it raises; without the
    configuration blob every entry the cache held is kept and the result is
    entered under the image itself. *)
Theorem resolution_writes_one_key (image : ImageName) (s : State) :
  let result := _get_manifest_list env self image s in
  pulled_base_images (snd result) = pulled_base_images s /\
  parent_images (snd result) = parent_images s /\
  (is_Some (manifest_list_cache s !! image) -> snd result = s) /\
  (is_ok (fst result) = false -> manifest_list_cache (snd result) = manifest_list_cache s) /\
  (takes_fallback env self image s = false ->
   manifest_list_cache s ⊆ manifest_list_cache (snd result) /\
   forall ml, fst result = Ok ml -> manifest_list_cache (snd result) !! image = Some ml) /\
  exists key, forall k, k <> key ->
    manifest_list_cache (snd result) !! k = manifest_list_cache s !! k.
Proof.
  intros result. subst result.
  destruct (get_manifest_list_writes image s) as (Hl & Hp & Hhit & Hraise & Hin & Hsub & Hkey).
  repeat split; auto.
Qed.

(** *** [arch_digests] as a dictionary *)

Lemma dict_set_keys {V} k (v : V) d :
  (dict_set k v d).*1 = if bool_decide (k ∈ d.*1) then d.*1 else d.*1 ++ [k].
Proof.
  induction d as [|[k' v'] d IH].
  - rewrite bool_decide_eq_false_2; [reflexivity | apply not_elem_of_nil].
  - cbn [dict_set]. destruct (String.eqb_spec k k') as [->|Hne].
    + rewrite bool_decide_eq_true_2; [reflexivity|]. cbn. apply elem_of_cons. by left.
    + change (((k', v') :: dict_set k v d).*1) with (k' :: (dict_set k v d).*1).
      change (((k', v') :: d).*1) with (k' :: d.*1).
      rewrite IH. destruct (decide (k ∈ d.*1)) as [Hin|Hin].
      * rewrite (bool_decide_eq_true_2 (k ∈ d.*1)) by done.
        rewrite bool_decide_eq_true_2; [done|]. apply elem_of_cons. by right.
      * rewrite (bool_decide_eq_false_2 (k ∈ d.*1)) by done.
        rewrite bool_decide_eq_false_2; [done|].
        intros [?|?]%elem_of_cons; done.
Qed.

Lemma dict_set_NoDup {V} k (v : V) d : NoDup d.*1 -> NoDup (dict_set k v d).*1.
Proof.
  intros Hnd. rewrite dict_set_keys. case_bool_decide as Hin; [done|].
  apply NoDup_app. split; [done|]. split; [|apply NoDup_singleton].
  intros x Hx ->%list_elem_of_singleton. done.
Qed.

Lemma dict_get_None {V} k (d : list (string * V)) : dict_get k d = None <-> k ∉ d.*1.
Proof.
  induction d as [|[k' v'] d IH]; simpl.
  - split; [intros _; apply not_elem_of_nil | done].
  - destruct (String.eqb_spec k k') as [->|Hne].
    + split; [done|]. intros Hn. exfalso. apply Hn. apply elem_of_cons. by left.
    + rewrite IH. split.
      * intros Hn [?|?]%elem_of_cons; done.
      * intros Hn Hin. apply Hn. apply elem_of_cons. by right.
Qed.

(** X8: [arch_digests] holds every architecture of the manifest list once;
    looking up an architecture gives [name@digest] for the manifest that
    comes last among those of that architecture, so that a later manifest
    replaces an earlier one of the same architecture; an architecture that
    is not in the manifest list has no entry. *)
Theorem arch_digests_last_manifest_wins (image_name : string) (manifests : list Manifest) :
  NoDup (arch_digests_of image_name manifests).*1 /\
  (forall arch, arch ∈ (arch_digests_of image_name manifests).*1
                <-> arch ∈ architecture <$> manifests) /\
  (forall before m after,
     manifests = before ++ m :: after ->
     Forall (fun m' => architecture m' <> architecture m) after ->
     dict_get (architecture m) (arch_digests_of image_name manifests)
     = Some (image_name +:+ "@" +:+ digest m)) /\
  (forall arch, arch ∉ architecture <$> manifests ->
     dict_get arch (arch_digests_of image_name manifests) = None).
Proof.
  unfold arch_digests_of.
  set (step := fun d m => dict_set (architecture m) (image_name +:+ "@" +:+ digest m) d).
  assert (Hnd : forall ms d0, NoDup d0.*1 -> NoDup (foldl step d0 ms).*1).
  { induction ms as [|m ms IH]; simpl; intros d0 Hd0; [done|].
    apply IH. by apply dict_set_NoDup. }
  assert (Hkeys : forall ms d0 arch,
    arch ∈ (foldl step d0 ms).*1 <-> arch ∈ d0.*1 \/ arch ∈ architecture <$> ms).
  { induction ms as [|m ms IH]; simpl; intros d0 arch.
    - split; [by left | intros [?|Hin]; [done | by apply elem_of_nil in Hin]].
    - rewrite IH. unfold step at 1. rewrite dict_set_keys.
      rewrite elem_of_cons. case_bool_decide as Hin.
      + split; [tauto|]. intros [?|[->|?]]; tauto.
      + rewrite elem_of_app, list_elem_of_singleton. tauto. }
  assert (Hkeep : forall ms d0 arch,
    Forall (fun m' => architecture m' <> arch) ms ->
    dict_get arch (foldl step d0 ms) = dict_get arch d0).
  { induction ms as [|m ms IH]; simpl; intros d0 arch Hall; [done|].
    apply Forall_cons in Hall as [Hm Hall]. rewrite IH by done.
    unfold step. by rewrite dict_get_set_ne. }
  split; [apply Hnd; constructor|]. split; [|split].
  - intros arch. rewrite Hkeys. split; [|by right].
    intros [Hin|?]; [by apply elem_of_nil in Hin | done].
  - intros before m after -> Hafter.
    rewrite foldl_app. simpl. rewrite Hkeep by done.
    unfold step at 1. apply dict_get_set_eq.
  - intros arch Hnot. apply dict_get_None. rewrite Hkeys.
    intros [Hin|?]; [by apply elem_of_nil in Hin | done].
Qed.

(** *** The calls of [run], whatever the parent images are *)

Lemma keeps_bind_post {A B} R (Q : A -> Prop) `{!Transitive R}
    (m : M State A) (k : A -> M State B) :
  keeps R m -> (forall s a, fst (m s) = Ok a -> Q a) ->
  (forall a, Q a -> keeps R (k a)) -> keeps R (bind m k).
Proof.
  intros Hm HQ Hk s. unfold bind. specialize (Hm s). specialize (HQ s).
  destruct (m s) as [[a|e] s1]; simpl in *; [|done].
  etrans; [exact Hm | by apply Hk, HQ].
Qed.

Lemma ensure_image_registry_ensured image s w :
  fst (_ensure_image_registry env self image s) = Ok w -> ensured self w.
Proof.
  unfold _ensure_image_registry, ensured. run_monad.
  repeat (case_match; simpl in *; simplify_eq); try done.
  by intros [= <-] _.
Qed.

Lemma select_without_check image :
  check_platforms self = false -> select_for_platform env self image = ret image.
Proof. unfold select_for_platform. by intros ->. Qed.

Lemma attempt_continue bj nonce image first s image' first' s' :
  attempt env self bj nonce image first s = (Ok (Continue image' first'), s') ->
  image' = image \/ image' = set_namespace (Some "library") image.
Proof.
  unfold attempt, call_pull_image, call_tag_image. run_monad. intros H.
  repeat (case_match; simpl in *; simplify_eq); auto.
Qed.

Section Events.
Variable P : Event -> Prop.
Hypothesis P_log : forall lvl fmt args, P (Log lvl fmt args).

Ltac leaf :=
  first [ apply adds_only_emit; solve [auto] | apply adds_only_same; reflexivity ].

Lemma adds_only_resolve bj : keeps (adds_only P) (_resolve_base_image env self bj).
Proof. unfold _resolve_base_image. split_keeps; leaf. Qed.

Lemma adds_only_ensure image : keeps (adds_only P) (_ensure_image_registry env self image).
Proof. unfold _ensure_image_registry. split_keeps; leaf. Qed.

Section Fetches.
Hypothesis P_manifest_list : forall image registry,
  P (GetManifestList image registry (parent_registry_insecure self)).
Hypothesis P_config : forall image registry tag,
  P (GetConfigFromRegistry image registry tag (parent_registry_insecure self)).

Lemma adds_only_get_manifest_list image :
  keeps (adds_only P) (_get_manifest_list env self image).
Proof.
  unfold _get_manifest_list, call_get_manifest_list, call_get_config_from_registry, label.
  split_keeps; leaf.
Qed.

Lemma adds_only_validate image :
  keeps (adds_only P) (_validate_platforms_in_image env self image).
Proof.
  pose proof adds_only_get_manifest_list.
  unfold _validate_platforms_in_image. split_keeps; leaf.
Qed.

Lemma adds_only_different_arch image platform :
  keeps (adds_only P) (_get_image_for_different_arch env self image platform).
Proof.
  pose proof adds_only_get_manifest_list.
  unfold _get_image_for_different_arch. split_keeps; leaf.
Qed.

Lemma adds_only_select image : keeps (adds_only P) (select_for_platform env self image).
Proof.
  pose proof adds_only_validate. pose proof adds_only_different_arch.
  unfold select_for_platform. split_keeps; leaf.
Qed.

End Fetches.

Section Pulls.
Variable Q : ImageName -> Prop.
Hypothesis P_tag : forall image new_image, P (TagImage image new_image).
Hypothesis P_pull : forall image, Q image -> P (PullImage image (parent_registry_insecure self)).
Hypothesis P_set_base_image : forall name, P (SetBaseImage name).
Hypothesis Q_library : forall image, Q image -> Q (set_namespace (Some "library") image).
Hypothesis P_select : forall image, keeps (adds_only P) (select_for_platform env self image).
Hypothesis Q_select : forall image image' s,
  ensured self image -> fst (select_for_platform env self image s) = Ok image' -> Q image'.

Lemma adds_only_attempt bj nonce image first :
  Q image -> keeps (adds_only P) (attempt env self bj nonce image first).
Proof.
  intros HQ. unfold attempt, call_pull_image, call_tag_image. split_keeps; leaf.
Qed.

Lemma adds_only_loop n : forall bj nonce image first,
  Q image -> keeps (adds_only P) (pull_and_tag_loop env self n bj nonce image first).
Proof.
  induction n as [|n IH]; intros bj nonce image first HQ.
  - simpl. split_keeps; leaf.
  - intros s. rewrite loop_S. pose proof (adds_only_attempt bj nonce image first HQ s) as Ha.
    destruct (attempt env self bj nonce image first s) as [[[image' first'|new]|e] s1] eqn:Hrun;
      simpl in *; [|done|done].
    etrans; [exact Ha|]. apply IH.
    by destruct (attempt_continue _ _ _ _ _ _ _ _ Hrun) as [->| ->]; [|apply Q_library].
Qed.

Lemma adds_only_run_parent bj nonce parent :
  keeps (adds_only P) (run_parent env self bj nonce parent).
Proof.
  unfold run_parent.
  apply keeps_bind; [apply _ | pose proof adds_only_resolve; split_keeps; leaf |].
  intros image0.
  apply (keeps_bind_post _ (ensured self)); [apply adds_only_ensure | |].
  { intros s w. apply ensure_image_registry_ensured. }
  intros image1 He.
  apply (keeps_bind_post _ Q); [apply P_select | by intros s w; apply Q_select |].
  intros image2 HQ.
  apply keeps_bind; [apply _ | by apply adds_only_loop |].
  intros new. split_keeps; leaf.
Qed.

Lemma adds_only_run_loop bj parents : forall nonce,
  keeps (adds_only P) (run_loop env self bj nonce parents).
Proof.
  induction parents as [|parent rest IH]; intros nonce; simpl.
  - split_keeps.
  - pose proof adds_only_run_parent. split_keeps.
Qed.

Lemma adds_only_run bj : keeps (adds_only P) (run env self bj).
Proof. pose proof adds_only_run_loop. unfold run. split_keeps; leaf. Qed.

End Pulls.
End Events.

Lemma count_Forall_false (p : Event -> bool) t :
  Forall (fun e => p e = false) t -> count p t = 0.
Proof.
  unfold count. induction 1 as [|e t He _ IH]; simpl; [done|]. by rewrite He.
Qed.

(** X9: without the platform check ([check_platforms] false) [run] never
    asks the registry for a manifest list or a configuration blob, whatever
    the parent images are and however the pulls and tags end. *)
Theorem run_without_platform_check_asks_no_registry (bj : BuildJson) (s : State) :
  check_platforms self = false ->
  exists t, trace (snd (run env self bj s)) = trace s ++ t /\
            count is_registry_fetch t = 0.
Proof.
  intros Hcheck.
  destruct (adds_only_run (fun e => is_registry_fetch e = false) ltac:(done)
              (fun _ => True) ltac:(done) ltac:(done) ltac:(done) ltac:(done)
              ltac:(intros image; rewrite select_without_check by done; apply keeps_ret, _)
              ltac:(done) bj s) as (t & Ht & Hall).
  exists t. split; [done|]. by apply count_Forall_false.
Qed.

(** X10: with a parent registry configured and without the platform check,
    every image that [run] pulls, the retries under the [library] namespace
    and the pulls repeated after a removal included, has the configured
    registry; this holds for the pulls made before a failure as well. *)
Theorem run_pulls_from_parent_registry (bj : BuildJson) (s : State) :
  check_platforms self = false ->
  truthy (parent_registry self) = true ->
  exists t, trace (snd (run env self bj s)) = trace s ++ t /\
            forall image insecure,
              PullImage image insecure ∈ t -> registry image = parent_registry self.
Proof.
  intros Hcheck Hreg.
  destruct (adds_only_run
              (fun e => forall image insecure,
                 e = PullImage image insecure -> registry image = parent_registry self)
              ltac:(done)
              (fun image => registry image = parent_registry self)
              ltac:(done) ltac:(by intros image HQ ? ? [= <- _]) ltac:(done) ltac:(done)
              ltac:(intros image; rewrite select_without_check by done; apply keeps_ret, _)
              ltac:(by intros image image' s0 He; rewrite select_without_check by done;
                    intros [= <-]; apply He)
              bj s) as (t & Ht & Hall).
  exists t. split; [done|]. intros image insecure Hin.
  rewrite Forall_forall in Hall. by eapply Hall.
Qed.

(** X11: every call of [run] to the docker tasker or to the registry that
    takes an [insecure] argument (pulls, manifest list and configuration
    blob fetches) is made with [parent_registry_insecure], on every path. *)
Theorem run_calls_carry_insecure_flag (bj : BuildJson) (s : State) :
  exists t, trace (snd (run env self bj s)) = trace s ++ t /\
            Forall (fun e => forall insecure,
                      event_insecure e = Some insecure ->
                      insecure = parent_registry_insecure self) t.
Proof.
  set (P := fun e => forall insecure,
              event_insecure e = Some insecure -> insecure = parent_registry_insecure self).
  assert (Hlog : forall lvl fmt args, P (Log lvl fmt args)) by done.
  apply (adds_only_run P Hlog (fun _ => True)); try done.
  - by intros image _ ? [= <-].
  - intros image. apply adds_only_select; [done| |]; by intros ? ? ? [= <-] || by intros ? ? ? ? [= <-].
Qed.

(** *** What [run] does to the attributes of the workflow *)

Section Fields.
Variable R : State -> State -> Prop.
Context `{!Reflexive R, !Transitive R}.
Hypothesis R_emit : forall e s, R s (emit e s).
Hypothesis R_add_pulled : forall name s, R s (add_pulled name s).
Hypothesis R_set_cache : forall cache s, R s (set_cache cache s).

Lemma field_before_pull bj parent image0 :
  keeps R (image <- (if String.eqb parent (original_base_image self)
                     then _resolve_base_image env self bj else ret image0) ;;
           image <- _ensure_image_registry env self image ;;
           select_for_platform env self image).
Proof.
  unfold _resolve_base_image, _ensure_image_registry, select_for_platform,
    _validate_platforms_in_image, _get_image_for_different_arch, _get_manifest_list,
    call_get_manifest_list, call_get_config_from_registry, label.
  split_keeps; auto.
Qed.

Lemma field_loop n : forall bj nonce image first,
  keeps R (pull_and_tag_loop env self n bj nonce image first).
Proof.
  induction n as [|n IH]; intros bj nonce image first; simpl.
  - split_keeps; auto.
  - unfold attempt, call_pull_image, call_tag_image. split_keeps; auto.
Qed.

End Fields.

#[local] Instance parents_untouched_refl : Reflexive parents_untouched.
Proof. by intros s. Qed.

#[local] Instance parents_untouched_trans : Transitive parents_untouched.
Proof. intros s1 s2 s3 H1 H2. unfold parents_untouched in *. congruence. Qed.

Lemma bind_assoc {A B C} (m : M State A) (k : A -> M State B) (h : B -> M State C) s :
  bind (bind m k) h s = bind m (fun a => bind (k a) h) s.
Proof. unfold bind. by destruct (m s) as [[a|e] s1]. Qed.

(** [run_parent] in three steps: the image to pull, the pull and tag, the
    assignments. *)
Lemma run_parent_steps bj nonce parent s :
  run_parent env self bj nonce parent s =
  bind (image <- (if String.eqb parent (original_base_image self)
                  then _resolve_base_image env self bj else ret (parse env parent)) ;;
        image <- _ensure_image_registry env self image ;;
        select_for_platform env self image)
       (fun image =>
          new_image <- _pull_and_tag_image env self image bj (pretty nonce) ;;
          modify (set_parent parent (to_str env new_image)) ;;;
          if String.eqb parent (original_base_image self)
          then modify (emit (SetBaseImage (to_str env new_image)))
          else ret tt) s.
Proof.
  unfold run_parent, bind.
  destruct ((if String.eqb parent (original_base_image self)
             then _resolve_base_image env self bj else ret (parse env parent)) s)
    as [[image0|e] s1]; [|done].
  destruct (_ensure_image_registry env self image0 s1) as [[image1|e] s2]; [|done].
  by destruct (select_for_platform env self image1 s2) as [[image2|e] s3].
Qed.

Lemma pulls_within_bind {A B} a b (m : M State A) (k : A -> M State B) :
  (forall s, pulls_within a s (snd (m s))) ->
  (forall x s, pulls_within b s (snd (k x s))) ->
  forall s, pulls_within (a + b) s (snd (bind m k s)).
Proof.
  intros Hm Hk s. unfold bind. destruct (Hm s) as (t & Ht & Hc).
  destruct (m s) as [[x|e] s1]; simpl in *.
  - destruct (Hk x s1) as (t' & Ht' & Hc'). exists (t ++ t').
    rewrite Ht', Ht, app_assoc, count_app. split; [done | lia].
  - exists t. split; [done | lia].
Qed.

Lemma pulls_within_none {A} (m : M State A) :
  keeps (adds_only (fun e => is_pull e = false)) m ->
  forall s, pulls_within 0 s (snd (m s)).
Proof.
  intros Hm s. destruct (Hm s) as (t & Ht & Hall). exists t.
  split; [done|]. by rewrite count_Forall_false.
Qed.

Lemma pulls_run_parent bj nonce parent s :
  pulls_within 20 s (snd (run_parent env self bj nonce parent s)).
Proof.
  rewrite run_parent_steps. revert s.
  change 20 with (0 + (20 + 0)). apply pulls_within_bind.
  - apply pulls_within_none.
    pose proof (adds_only_resolve (fun e => is_pull e = false) ltac:(done)).
    pose proof (adds_only_ensure (fun e => is_pull e = false) ltac:(done)).
    pose proof (adds_only_select (fun e => is_pull e = false) ltac:(done) ltac:(done)
                  ltac:(done)).
    split_keeps.
  - intros image. apply pulls_within_bind.
    + intros s. destruct (loop_trace 20 bj (pretty nonce) image None s) as (t & Ht & Hc & _).
      by exists t.
    + intros new. apply pulls_within_none.
      split_keeps; by apply adds_only_emit || by apply adds_only_same.
Qed.

Lemma pulls_run_loop bj parents : forall nonce s,
  pulls_within (20 * length parents) s (snd (run_loop env self bj nonce parents s)).
Proof.
  induction parents as [|parent rest IH]; intros nonce s.
  - exists []. by rewrite app_nil_r.
  - cbn [run_loop length]. replace (20 * S (length rest)) with (20 + 20 * length rest) by lia.
    revert s. apply pulls_within_bind; [apply pulls_run_parent | intros _; apply IH].
Qed.

Lemma insert_sorted_perm x l : insert_sorted x l ≡ₚ x :: l.
Proof.
  induction l as [|y l IH]; simpl; [done|].
  destruct (String.leb x y); [done|]. by rewrite IH, Permutation_swap.
Qed.

Lemma sorted_perm l : sorted l ≡ₚ l.
Proof.
  induction l as [|x l IH]; simpl; [done|]. by rewrite insert_sorted_perm, IH.
Qed.

(** X12: [run] pulls at most twenty times for each parent image, so at most
    20 times the number of keys of [builder.parent_images]; it pulls
    nothing when there is no parent image; and nothing leaves
    [workflow.pulled_base_images] during the call. *)
Theorem run_pull_budget (bj : BuildJson) (s : State) :
  (exists t, trace (snd (run env self bj s)) = trace s ++ t /\
             count is_pull t <= 20 * size (dom (parent_images s))) /\
  pulled_base_images s ⊆ pulled_base_images (snd (run env self bj s)).
Proof.
  split.
  - unfold run. run_monad.
    destruct (pulls_run_loop bj (sorted (elements (dom (parent_images s)))) 0
                (set_cache ∅ s)) as (t & Ht & Hc).
    exists t. split; [done|]. by rewrite sorted_perm in Hc.
  - assert (Hk : keeps ledger_grows (run env self bj)); [|apply Hk].
    assert (He : forall e s0, ledger_grows s0 (emit e s0))
      by (intros; unfold ledger_grows; simpl; set_solver).
    assert (Ha : forall x s0, ledger_grows s0 (add_pulled x s0))
      by (intros; unfold ledger_grows; simpl; set_solver).
    assert (Hc : forall c s0, ledger_grows s0 (set_cache c s0))
      by (intros; unfold ledger_grows; simpl; set_solver).
    assert (Hp : forall bj nonce parent, keeps ledger_grows (run_parent env self bj nonce parent)).
    { intros bj0 nonce parent s0. rewrite run_parent_steps. revert s0.
      apply keeps_bind; [apply _ | by apply field_before_pull; try apply _ |].
      intros image. apply keeps_bind; [apply _ | by apply field_loop; try apply _ |].
      intros new. split_keeps; unfold ledger_grows; simpl; set_solver. }
    assert (Hl : forall parents nonce, keeps ledger_grows (run_loop env self bj nonce parents)).
    { induction parents as [|parent rest IH]; intros nonce; simpl; split_keeps. }
    unfold run. split_keeps. apply Hc.
Qed.

(** *** The names [run] gives to the parent images *)

Lemma run_parent_result bj nonce parent s :
  match run_parent env self bj nonce parent s with
  | (Ok _, s') =>
      exists unique_id,
        metadata_name bj = Some unique_id /\
        parent_images s' =
          <[parent := to_str env (mkImageName None None (Some unique_id) (Some (pretty nonce)))]>
            (parent_images s)
  | (Raise _, s') => parent_images s' = parent_images s
  end.
Proof.
  assert (He : forall e s0, parents_untouched s0 (emit e s0)) by done.
  assert (Ha : forall x s0, parents_untouched s0 (add_pulled x s0)) by done.
  assert (Hc : forall c s0, parents_untouched s0 (set_cache c s0)) by done.
  rewrite run_parent_steps. unfold bind at 1.
  pose proof (field_before_pull parents_untouched He Hc bj parent (parse env parent) s) as H1.
  match goal with |- context [match ?m s with _ => _ end] =>
    destruct (m s) as [[image|e] s1] end; simpl in H1; [|done].
  unfold bind at 1. unfold _pull_and_tag_image.
  pose proof (field_loop parents_untouched He Ha 20 bj (pretty nonce) image None s1) as H2.
  pose proof (pull_and_tag_loop_return 20 bj (pretty nonce) image None s1) as H3.
  destruct (pull_and_tag_loop env self 20 bj (pretty nonce) image None s1) as [[new|e] s2];
    simpl in *; [|unfold parents_untouched in *; congruence].
  destruct (H3 _ eq_refl) as (uid & pulled & t & Hname & -> & _).
  run_monad.
  destruct (String.eqb parent (original_base_image self)); simpl;
    (exists uid; split; [done|]); unfold parents_untouched in *; congruence.
Qed.

Lemma run_loop_names bj parents : forall nonce s s',
  NoDup parents ->
  run_loop env self bj nonce parents s = (Ok tt, s') ->
  (forall i parent, parents !! i = Some parent ->
     exists unique_id,
       metadata_name bj = Some unique_id /\
       parent_images s' !! parent =
         Some (to_str env (mkImageName None None (Some unique_id)
                             (Some (pretty (nonce + i)))))) /\
  (forall other, other ∉ parents -> parent_images s' !! other = parent_images s !! other).
Proof.
  induction parents as [|parent rest IH]; intros nonce s s' Hnd Hrun.
  - simpl in Hrun. injection Hrun as <-. split; [by intros i p ?|done].
  - apply NoDup_cons in Hnd as [Hnotin Hnd]. cbn [run_loop] in Hrun.
    unfold bind at 1 in Hrun. pose proof (run_parent_result bj nonce parent s) as Hp.
    destruct (run_parent env self bj nonce parent s) as [[[]|e] s1]; [|done].
    destruct Hp as (uid & Hname & Hs1).
    destruct (IH _ _ _ Hnd Hrun) as [Hnames Hothers]. split.
    + intros [|i] p Hi; simpl in Hi.
      * injection Hi as <-. exists uid. split; [done|].
        rewrite Hothers by done. rewrite Hs1, Nat.add_0_r. apply lookup_insert_eq.
      * destruct (Hnames i p Hi) as (uid' & Hname' & Hl). exists uid'. split; [done|].
        by replace (nonce + S i) with (S nonce + i) by lia.
    + intros other Ho. apply not_elem_of_cons in Ho as [Hne Ho].
      rewrite Hothers by done. rewrite Hs1. by apply lookup_insert_ne.
Qed.

Lemma run_loop_keys bj parents : forall nonce s,
  Forall (fun parent => parent ∈ dom (parent_images s)) parents ->
  dom (parent_images (snd (run_loop env self bj nonce parents s))) = dom (parent_images s).
Proof.
  induction parents as [|parent rest IH]; intros nonce s Hall; [done|].
  apply Forall_cons in Hall as [Hin Hall]. cbn [run_loop]. unfold bind at 1.
  pose proof (run_parent_result bj nonce parent s) as Hp.
  destruct (run_parent env self bj nonce parent s) as [[[]|e] s1]; simpl.
  - destruct Hp as (uid & _ & Hs1).
    assert (Hdom : dom (parent_images s1) = dom (parent_images s)).
    { rewrite Hs1, dom_insert_L. apply subseteq_union_1_L. by apply singleton_subseteq_l. }
    rewrite IH; [done|]. by rewrite Hdom.
  - by rewrite Hp.
Qed.

(** X13: [run] leaves the keys of [builder.parent_images] as they are,
    whether it returns or raises; when it returns, the parent image that
    comes at place [i] among the sorted keys is mapped to the string of the
    image named after the build, with [str(i)] as its tag and neither
    registry nor namespace. *)
Theorem run_names_each_parent (bj : BuildJson) (s : State) :
  dom (parent_images (snd (run env self bj s))) = dom (parent_images s) /\
  forall s', run env self bj s = (Ok tt, s') ->
    forall i parent,
      sorted (elements (dom (parent_images s))) !! i = Some parent ->
      exists unique_id,
        metadata_name bj = Some unique_id /\
        parent_images s' !! parent =
          Some (to_str env (mkImageName None None (Some unique_id) (Some (pretty i)))).
Proof.
  unfold run. run_monad. split.
  - rewrite run_loop_keys; [done|]. apply Forall_forall. intros p Hp. simpl.
    rewrite sorted_perm in Hp. by apply elem_of_elements in Hp.
  - intros s' Hrun i p Hi.
    eapply run_loop_names in Hrun as [Hnames _]; [by apply Hnames|].
    rewrite sorted_perm. apply NoDup_elements.
Qed.

(** *** [set_base_image] *)

Lemma run_parent_base bj nonce parent s :
  exists t, trace (snd (run_parent env self bj nonce parent s)) = trace s ++ t /\
    count is_set_base_image t
      <= (if String.eqb parent (original_base_image self) then 1 else 0) /\
    (forall s', run_parent env self bj nonce parent s = (Ok tt, s') ->
       String.eqb parent (original_base_image self) = true ->
       exists name, SetBaseImage name ∈ t /\ parent_images s' !! parent = Some name).
Proof.
  set (P := fun e => is_set_base_image e = false).
  assert (Hlog : forall lvl fmt args, P (Log lvl fmt args)) by done.
  assert (H1 : keeps (adds_only P)
    (image <- (if String.eqb parent (original_base_image self)
               then _resolve_base_image env self bj else ret (parse env parent)) ;;
     image <- _ensure_image_registry env self image ;;
     select_for_platform env self image)).
  { pose proof (adds_only_resolve P Hlog). pose proof (adds_only_ensure P Hlog).
    pose proof (adds_only_select P Hlog ltac:(done) ltac:(done)). split_keeps. }
  specialize (H1 s).
  destruct (run_parent env self bj nonce parent s) as [r s'] eqn:Hrun.
  rewrite run_parent_steps in Hrun. unfold bind at 1 in Hrun.
  match type of Hrun with context [match ?m s with _ => _ end] =>
    destruct (m s) as [[image|e] s1] end; simpl in H1;
    destruct H1 as (t1 & Ht1 & Hall1%count_Forall_false);
    [|injection Hrun as <- <-; exists t1; simpl; split; [done|];
      split; [rewrite Hall1; lia | by intros ? [=]]].
  unfold bind at 1 in Hrun. unfold _pull_and_tag_image in Hrun.
  pose proof (adds_only_loop P Hlog (fun _ => True) ltac:(done) ltac:(done) ltac:(done)
                20 bj (pretty nonce) image None I s1) as (t2 & Ht2 & Hall2%count_Forall_false).
  destruct (pull_and_tag_loop env self 20 bj (pretty nonce) image None s1) as [[new|e] s2];
    simpl in Ht2;
    [|injection Hrun as <- <-; exists (t1 ++ t2); simpl;
      rewrite Ht2, Ht1, app_assoc, count_app, Hall1, Hall2;
      split; [done|]; split; [apply Nat.le_0_l | by intros ? [=]]].
  run_monad. destruct (String.eqb parent (original_base_image self));
    injection Hrun as <- <-; simpl.
  - exists (t1 ++ t2 ++ [SetBaseImage (to_str env new)]).
    rewrite Ht2, Ht1, <- !app_assoc, !count_app, Hall1, Hall2. split; [done|].
    split; [unfold count; simpl; lia|].
    intros s' [= <-] _. exists (to_str env new).
    split; [rewrite !elem_of_app, list_elem_of_singleton; auto|].
    simpl. apply lookup_insert_eq.
  - exists (t1 ++ t2). rewrite Ht2, Ht1, app_assoc, count_app, Hall1, Hall2. split; [done|].
    split; [lia | done].
Qed.

Lemma run_loop_cons bj nonce parent rest s r s1 :
  run_parent env self bj nonce parent s = (r, s1) ->
  run_loop env self bj nonce (parent :: rest) s =
    match r with
    | Ok _ => run_loop env self bj (S nonce) rest s1
    | Raise e => (Raise e, s1)
    end.
Proof. intros Hrun. cbn [run_loop]. unfold bind at 1. rewrite Hrun. by destruct r. Qed.

Lemma run_loop_base bj parents : forall nonce s,
  NoDup parents ->
  exists t, trace (snd (run_loop env self bj nonce parents s)) = trace s ++ t /\
    count is_set_base_image t <= 1 /\
    (original_base_image self ∉ parents -> count is_set_base_image t = 0) /\
    (forall s', run_loop env self bj nonce parents s = (Ok tt, s') ->
       original_base_image self ∈ parents ->
       exists name, SetBaseImage name ∈ t /\
                    parent_images s' !! original_base_image self = Some name).
Proof.
  induction parents as [|parent rest IH]; intros nonce s Hnd.
  - exists []. simpl. rewrite app_nil_r. split; [done|].
    split; [unfold count; simpl; lia|]. split; [done|].
    by intros s' _ ?%elem_of_nil.
  - apply NoDup_cons in Hnd as [Hnotin Hnd].
    destruct (run_parent_base bj nonce parent s) as (t1 & Ht1 & Hc1 & Hset1).
    destruct (run_parent env self bj nonce parent s) as [[[]|e] s1] eqn:Hrun; simpl in Ht1;
      rewrite (run_loop_cons _ _ _ _ _ _ _ Hrun).
    + destruct (IH (S nonce) s1 Hnd) as (t2 & Ht2 & Hc2 & Hnone2 & Hset2).
      exists (t1 ++ t2). rewrite Ht2, Ht1, app_assoc, count_app. split; [done|].
      destruct (String.eqb_spec parent (original_base_image self)) as [Heq|Hne].
      * subst parent. rewrite (Hnone2 Hnotin). split; [lia|].
        split; [intros Hn; exfalso; apply Hn; apply elem_of_cons; by left|].
        intros s' Hrest _. destruct (Hset1 _ eq_refl eq_refl) as (name & Hin & Hl).
        exists name. split; [apply elem_of_app; by left|].
        destruct (run_loop_names bj rest (S nonce) s1 s' Hnd Hrest) as [_ Hothers].
        by rewrite Hothers.
      * split; [lia|]. split.
        -- intros Hn. rewrite Hnone2; [lia|]. intros ?. apply Hn. apply elem_of_cons. by right.
        -- intros s' Hrest [?|Hin]%elem_of_cons; [done|].
           destruct (Hset2 _ Hrest Hin) as (name & Hin' & Hl).
           exists name. split; [apply elem_of_app; by right | done].
    + exists t1. split; [done|].
      destruct (String.eqb_spec parent (original_base_image self)) as [Heq|Hne].
      * split; [lia|]. split; [|done].
        intros Hn. exfalso. apply Hn. apply elem_of_cons. by left.
      * split; [lia|]. split; [intros _; lia | done].
Qed.

(** X14: [run] calls [builder.set_base_image] at most once, and not at all
    when [original_base_image] is not a key of [builder.parent_images];
    when [run] returns and it is a key, the call was made, with the name
    that [builder.parent_images] then holds for it. *)
Theorem run_sets_base_image_once (bj : BuildJson) (s : State) :
  exists t, trace (snd (run env self bj s)) = trace s ++ t /\
    count is_set_base_image t <= 1 /\
    (original_base_image self ∉ dom (parent_images s) -> count is_set_base_image t = 0) /\
    (forall s', run env self bj s = (Ok tt, s') ->
       original_base_image self ∈ dom (parent_images s) ->
       exists name, SetBaseImage name ∈ t /\
                    parent_images s' !! original_base_image self = Some name).
Proof.
  unfold run. run_monad.
  destruct (run_loop_base bj (sorted (elements (dom (parent_images s)))) 0 (set_cache ∅ s))
    as (t & Ht & Hc & Hnone & Hset).
  { rewrite sorted_perm. apply NoDup_elements. }
  exists t. split; [done|]. split; [done|]. split.
  - intros Hn. apply Hnone. rewrite sorted_perm. by rewrite elem_of_elements.
  - intros s' Hrun Hin. apply Hset; [done|]. rewrite sorted_perm. by rewrite elem_of_elements.
Qed.

End Facts.

Import Samples.

(** *** The model on examples *)

(** Pull outcomes [failure; success] for an image without a namespace: one
    retry, under [library], then the tag. *)
Example library_retry_succeeds :
  let result := _pull_and_tag_image library_only_env (plugin None None false "") fedora
                  build_json "0" empty_state in
  fst result = Ok (mkImageName None None (Some "build-1") (Some "0")) /\
  List.filter is_pull (trace (snd result))
    = [PullImage fedora false; PullImage (set_namespace (Some "library") fedora) false] /\
  pulled_base_images (snd result) = {[ "library/fedora:28"; "tagged" ]}.
Proof. repeat split; vm_compute; reflexivity. Qed.

(** Outcomes [pull; tag NotFound; pull; tag]: one more pull of the same
    image, then the tag. *)
Example repull_after_not_found :
  let result := _pull_and_tag_image removed_once_env (plugin None None false "") fedora
                  build_json "0" empty_state in
  fst result = Ok (mkImageName None None (Some "build-1") (Some "0")) /\
  List.filter (fun e => is_pull e || is_tag e) (trace (snd result))
    = [PullImage fedora false;
       TagImage fedora (mkImageName None None (Some "build-1") (Some "0"));
       PullImage fedora false;
       TagImage fedora (mkImageName None None (Some "build-1") (Some "0"))].
Proof. repeat split; vm_compute; reflexivity. Qed.

(** A strict superset of the expected architectures passes the validation. *)
Example superset_passes :
  fst (_validate_platforms_in_image racing_env
         (mkPlugin None false true (Some ["ppc64le"; "ppc64le"])
            (Some {[ "ppc64le" := "ppc64le" ]}) None "" "fedora:28" fedora)
         fedora_at_registry empty_state) = Ok tt.
Proof. vm_compute. reflexivity. Qed.

Lemma ensure_image_registry_enforces_witness :
  exists r h' lg,
    _ensure_image_registry_obj racing_env (plugin (Some "registry.example.com") None false "")
      0 {[ 0 := fedora_digest ]} = Some (r, h', lg) /\
    h' !! 0 = Some fedora_digest.
Proof.
  destruct (ensure_image_registry_enforces racing_env
              (plugin (Some "registry.example.com") None false "")
              {[ 0 := fedora_digest ]} 0 fedora_digest) as (r & h' & lg & Hrun & Hkeep & _).
  - reflexivity.
  - exists r, h', lg. split; [exact Hrun|]. apply Hkeep. reflexivity.
Defined.

Lemma digest_tag_fallback_witness :
  trace (snd (_get_manifest_list racing_env (plugin None None false "") fedora_digest
                empty_state))
  = [GetManifestList fedora_digest (Some "registry.example.com") false;
     GetConfigFromRegistry fedora_digest (Some "registry.example.com")
       (Some "sha256:0123") false;
     GetManifestList (set_tag (Some "28-1") fedora_digest)
       (Some "registry.example.com") false] /\
  is_ok (fst (_get_manifest_list unreachable_env (plugin None None false "") fedora_digest
                empty_state)) = false.
Proof.
  split.
  - destruct (digest_tag_fallback racing_env (plugin None None false "") fedora_digest
                empty_state) as (H & _); [reflexivity | reflexivity | reflexivity |].
    apply (H labels_28_1 "28" "1"); reflexivity.
  - destruct (digest_tag_fallback unreachable_env (plugin None None false "") fedora_digest
                empty_state) as (_ & H); [reflexivity | reflexivity | reflexivity |].
    eapply H; reflexivity.
Defined.

(** C4: resolving [fedora_digest] goes through the configuration blob
    and makes three fetches; resolving it a second time, in the same pass,
    makes the same three fetches again. *)
Lemma second_resolution_fetches_again :
  fst (_get_manifest_list racing_env (plugin None None false "") fedora_digest empty_state)
    = Ok (Some two_arch_list) /\
  count is_registry_fetch (trace resolved_once) = 3 /\
  fst (_get_manifest_list racing_env (plugin None None false "") fedora_digest resolved_once)
    = Ok (Some two_arch_list) /\
  count is_registry_fetch
    (trace (snd (_get_manifest_list racing_env (plugin None None false "") fedora_digest
                   resolved_once))) = 6.
Proof. vm_compute. done. Qed.

Lemma manifest_list_cached_as_fetched_witness :
  _get_manifest_list racing_env (plugin None None false "") fedora
    (snd (_get_manifest_list racing_env (plugin None None false "") fedora empty_state))
  = _get_manifest_list racing_env (plugin None None false "") fedora empty_state.
Proof.
  destruct (manifest_list_cached_as_fetched racing_env (plugin None None false "") fedora
              empty_state
              (snd (_get_manifest_list racing_env (plugin None None false "") fedora
                      empty_state))
              (Some two_arch_list)) as (H & _).
  - reflexivity.
  - rewrite H; reflexivity.
Defined.


Lemma pull_and_tag_attempt_budget_witness :
  fst (_pull_and_tag_image racing_env (plugin None None false "") fedora build_json "0"
         empty_state)
  = Raise (RuntimeError "too many attempts to pull and tag image").
Proof.
  destruct (pull_and_tag_attempt_budget racing_env (plugin None None false "") fedora
              build_json "0" empty_state) as (_ & _ & H & _).
  apply H. vm_compute. exact I.
Defined.

Lemma pull_failure_library_retry_witness :
  pull_and_tag_loop failing_pull_env (plugin None None false "") 20 build_json "0" fedora
    None empty_state
  = (Raise (RetryGeneratorException "fedora:28"),
     emit (PullImage (set_namespace (Some "library") fedora) false)
       (emit (Log INFO "trying '%s'" ["library/fedora:28"])
          (emit (Log INFO "'%s' not found" ["fedora:28"])
             (emit (PullImage fedora false) empty_state)))).
Proof.
  destruct (pull_failure_library_retry failing_pull_env (plugin None None false "")
              build_json "0" fedora None empty_state "fedora:28") as (H & _).
  - reflexivity.
  - destruct (H eq_refl eq_refl) as (_ & _ & H2 & _).
    apply (H2 18 "library/fedora:28"). reflexivity.
Defined.

(** C5: an image without a registry passes the validation although an
    architecture of the build is in no manifest of its manifest list: with
    x86_64 and ppc64le expected and a manifest list that holds an image for
    ppc64le only, the validation returns, and the registry is not asked; the
    same image with a registry is refused. *)
Lemma validation_skipped_without_registry :
  expected_platforms (plugin None (Some ["x86_64"; "ppc64le"]) true "")
    = Some ["x86_64"; "ppc64le"] /\
  get_manifest_list ppc_only_env [] fedora None false = Ok (Some ppc_only_list) /\
  (forall m, m ∈ ppc_only_list -> architecture m <> "amd64") /\
  _validate_platforms_in_image ppc_only_env (plugin None (Some ["x86_64"; "ppc64le"]) true "")
    fedora empty_state
  = (Ok tt,
     emit (Log INFO ("Cannot validate available platforms for base image "
                     +:+ "because base image registry is not defined") []) empty_state) /\
  fst (_validate_platforms_in_image ppc_only_env
         (plugin None (Some ["x86_64"; "ppc64le"]) true "") fedora_at_registry empty_state)
  = Raise (AssertionError "Missing arches in manifest list for base image").
Proof.
  split; [reflexivity|]. split; [reflexivity|]. split; [|split; reflexivity].
  intros m Hm. apply list_elem_of_singleton in Hm. by subst m.
Qed.

Lemma platform_coverage_validation_witness :
  fst (_validate_platforms_in_image (ppc_s390x_env (fun items => items)) s390x_plugin
         fedora_at_registry empty_state) = Ok tt /\
  fst (_validate_platforms_in_image ppc_only_env s390x_plugin fedora_at_registry empty_state)
  = Raise (AssertionError "Missing arches in manifest list for base image") /\
  fst (_validate_platforms_in_image ppc_only_env s390x_plugin fedora empty_state) = Ok tt.
Proof.
  assert (Hmapped : Forall2
            (fun p a => ({[ "x86_64" := "amd64"; "ppc64le" := "ppc64le"; "s390x" := "s390x" ]}
                           : gmap string string) !! p = Some a)
            ["ppc64le"; "s390x"] ["ppc64le"; "s390x"]).
  { repeat constructor. }
  split; [|split].
  - destruct (platform_coverage_validation (ppc_s390x_env (fun items => items)) s390x_plugin
                fedora_at_registry empty_state) as (_ & _ & _ & H).
    destruct (H ["ppc64le"; "s390x"]
                {[ "x86_64" := "amd64"; "ppc64le" := "ppc64le"; "s390x" := "s390x" ]}
                ["ppc64le"; "s390x"] ppc_s390x_list
                (snd (_get_manifest_list (ppc_s390x_env (fun items => items)) s390x_plugin
                        fedora_at_registry empty_state))
                eq_refl) as [Hiff _];
      [simpl; lia | reflexivity | reflexivity | exact Hmapped | reflexivity |].
    apply Hiff. intros arch Harch.
    apply elem_of_cons in Harch as [->|Harch];
      [exists (mkManifest "ppc64le" "sha256:bbbb"); split; [|done];
       apply elem_of_cons; by left|].
    apply list_elem_of_singleton in Harch as ->.
    exists (mkManifest "s390x" "sha256:cccc"). split; [|done].
    apply elem_of_cons. right. apply elem_of_cons. by left.
  - destruct (platform_coverage_validation ppc_only_env s390x_plugin fedora_at_registry
                empty_state) as (_ & _ & _ & H).
    destruct (H ["ppc64le"; "s390x"]
                {[ "x86_64" := "amd64"; "ppc64le" := "ppc64le"; "s390x" := "s390x" ]}
                ["ppc64le"; "s390x"] ppc_only_list
                (snd (_get_manifest_list ppc_only_env s390x_plugin fedora_at_registry
                        empty_state))
                eq_refl) as [_ Hmissing];
      [simpl; lia | reflexivity | reflexivity | exact Hmapped | reflexivity |].
    apply (Hmissing "s390x").
    + apply elem_of_cons. right. apply elem_of_cons. by left.
    + intros m Hm. apply list_elem_of_singleton in Hm. by subst m.
  - destruct (platform_coverage_validation ppc_only_env s390x_plugin fedora empty_state)
      as (_ & _ & H & _).
    apply H. reflexivity.
Defined.

(** C9: on an x86_64 host, with a manifest list that holds an image for
    ppc64le only, the image is replaced by the one for ppc64le, although no
    architecture of the list maps to the platform x86_64. *)
Lemma substitute_maps_to_other_platform :
  fst (select_for_platform ppc_only_env (plugin None (Some ["ppc64le"]) true "x86_64")
         fedora_at_registry empty_state)
    = Ok (sample_parse "registry.example.com/fedora@sha256:bbbb") /\
  current_platform (plugin None (Some ["ppc64le"]) true "x86_64") = "x86_64" /\
  ~ exists m arch_to_platform,
      m ∈ ppc_only_list /\
      goarch_to_platform (plugin None (Some ["ppc64le"]) true "x86_64")
        = Some arch_to_platform /\
      arch_to_platform !! architecture m = Some "x86_64".
Proof.
  split; [reflexivity|]. split; [reflexivity|].
  intros (m & arch_to_platform & Hm & Hmap & Hp).
  apply list_elem_of_singleton in Hm. subst m. simpl in Hmap. simplify_eq.
Qed.

(** With images for ppc64le and s390x only, on an x86_64 host, the
    substitute is the image for s390x when the dictionary is iterated in
    the order of insertion, and the image for ppc64le when it is iterated
    in the opposite order. *)
Lemma image_for_different_arch_witness :
  fst (_get_image_for_different_arch (ppc_s390x_env (fun items => items)) s390x_plugin
         fedora_at_registry "x86_64" empty_state)
  = Ok (Some (sample_parse "registry.example.com/fedora@sha256:cccc")) /\
  fst (_get_image_for_different_arch (ppc_s390x_env (@rev _)) s390x_plugin
         fedora_at_registry "x86_64" empty_state)
  = Ok (Some (sample_parse "registry.example.com/fedora@sha256:bbbb")).
Proof.
  assert (Hforeign : forall m, m ∈ ppc_s390x_list ->
            ({[ "amd64" := "x86_64"; "ppc64le" := "ppc64le"; "s390x" := "s390x" ]}
               : gmap string string) !! architecture m <> Some "x86_64").
  { intros m Hm. repeat (apply elem_of_cons in Hm as [->|Hm]; [vm_compute; discriminate|]).
    by apply elem_of_nil in Hm. }
  assert (Hknown : Forall (fun m => is_Some
            (({[ "amd64" := "x86_64"; "ppc64le" := "ppc64le"; "s390x" := "s390x" ]}
                : gmap string string) !! architecture m)) ppc_s390x_list).
  { repeat constructor; vm_compute; eauto. }
  split.
  - destruct (image_for_different_arch (ppc_s390x_env (fun items => items)) s390x_plugin
                fedora_at_registry "x86_64" empty_state
                (snd (_get_manifest_list (ppc_s390x_env (fun items => items)) s390x_plugin
                        fedora_at_registry empty_state))
                (Some ppc_s390x_list)) as (_ & _ & H & _); [done | reflexivity |].
    destruct (H ppc_s390x_list _ eq_refl eq_refl Hknown) as (_ & H2 & _).
    destruct (H2 Hforeign) as [H3 _].
    destruct (H3 "s390x" "registry.example.com/fedora@sha256:cccc" eq_refl) as [-> _].
    reflexivity.
  - destruct (image_for_different_arch (ppc_s390x_env (@rev _)) s390x_plugin
                fedora_at_registry "x86_64" empty_state
                (snd (_get_manifest_list (ppc_s390x_env (@rev _)) s390x_plugin
                        fedora_at_registry empty_state))
                (Some ppc_s390x_list)) as (_ & _ & H & _);
      [intros d; symmetry; apply Permutation_rev | reflexivity |].
    destruct (H ppc_s390x_list _ eq_refl eq_refl Hknown) as (_ & H2 & _).
    destruct (H2 Hforeign) as [H3 _].
    destruct (H3 "ppc64le" "registry.example.com/fedora@sha256:bbbb" eq_refl) as [-> _].
    reflexivity.
Defined.

(** *** More of the model on examples *)

Lemma pulled_images_recorded_witness :
  "fedora:28" ∈ pulled_base_images
                  (snd (attempt racing_env (plugin None None false "") build_json "0" fedora
                          None empty_state)) /\
  pulled_base_images
    (snd (attempt failing_pull_env (plugin None None false "") build_json "0" fedora
            None empty_state)) = ∅ /\
  exists response,
    tag_image unreachable_env
      [PullImage fedora false; Log INFO "tagging pulled image" []]
      fedora (mkImageName None None (Some "build-1") (Some "0")) = Ok response /\
    response ∈ pulled_base_images
                 (snd (attempt unreachable_env (plugin None None false "") build_json "0"
                         fedora None empty_state)).
Proof.
  split; [|split].
  - destruct (pulled_images_recorded racing_env (plugin None None false "") build_json "0"
                fedora None empty_state) as (H & _).
    apply H. reflexivity.
  - destruct (pulled_images_recorded failing_pull_env (plugin None None false "") build_json
                "0" fedora None empty_state) as (_ & H & _).
    apply H. vm_compute. eauto.
  - destruct (pulled_images_recorded unreachable_env (plugin None None false "") build_json
                "0" fedora None empty_state) as (_ & _ & H & _).
    apply H. reflexivity.
Defined.

Lemma tagged_image_is_build_name_and_nonce_witness :
  exists unique_id pulled t,
    metadata_name build_json = Some unique_id /\
    mkImageName None None (Some "build-1") (Some "0")
    = mkImageName None None (Some unique_id) (Some "0") /\
    trace (snd (_pull_and_tag_image library_only_env (plugin None None false "") fedora
                  build_json "0" empty_state))
    = trace empty_state ++ t ++
      [PullImage pulled false;
       Log INFO "tagging pulled image" [];
       TagImage pulled (mkImageName None None (Some "build-1") (Some "0"));
       Log DEBUG "image '%s' is available as '%s'"
         [sample_to_str true pulled;
          sample_to_str true (mkImageName None None (Some "build-1") (Some "0"))]].
Proof.
  apply (tagged_image_is_build_name_and_nonce library_only_env (plugin None None false "")
           fedora build_json "0" empty_state). reflexivity.
Defined.

Lemma other_failures_are_fatal_witness :
  fst (pull_and_tag_loop racing_env (plugin None None false "") 20
         (mkBuildJson None None) "0" fedora None empty_state) = Raise (KeyError "name") /\
  fst (pull_and_tag_loop failing_tag_env (plugin None None false "") 20 build_json "0"
         fedora None empty_state) = Raise (RuntimeError "tag failed").
Proof.
  split.
  - destruct (other_failures_are_fatal racing_env (plugin None None false "") 19
                (mkBuildJson None None) "0" fedora None empty_state) as (_ & H & _).
    rewrite H; reflexivity.
  - destruct (other_failures_are_fatal failing_tag_env (plugin None None false "") 19
                build_json "0" fedora None empty_state) as (_ & _ & H).
    rewrite (H "build-1" (RuntimeError "tag failed")); [reflexivity..|]. intros msg. discriminate.
Defined.

Lemma ensure_image_registry_idempotent_witness :
  _ensure_image_registry racing_env (plugin (Some "registry.example.com") None false "")
    fedora_at_registry resolved_once
  = (Ok fedora_at_registry, resolved_once).
Proof.
  destruct (ensure_image_registry_idempotent racing_env
              (plugin (Some "registry.example.com") None false "")
              fedora fedora_at_registry empty_state empty_state) as (_ & _ & _ & _ & _ & _ & H).
  - reflexivity.
  - apply H.
Defined.

Lemma validation_other_outcomes_witness :
  (exists msg,
     _validate_platforms_in_image racing_env (plugin None (Some ["x86_64"; "ppc64le"]) true "")
       fedora empty_state = (Ok tt, emit (Log INFO msg []) empty_state)) /\
  fst (_validate_platforms_in_image unreachable_env
         (plugin None (Some ["x86_64"; "ppc64le"]) true "") fedora_at_registry empty_state)
  = Raise (RuntimeError "Unable to fetch manifest list for base image") /\
  fst (_validate_platforms_in_image racing_env
         (plugin None (Some ["x86_64"; "s390x"; "ppc64le"]) true "") fedora_at_registry
         empty_state)
  = Raise (KeyError "s390x").
Proof.
  split; [|split].
  - destruct (validation_other_outcomes racing_env
                (plugin None (Some ["x86_64"; "ppc64le"]) true "") fedora empty_state)
      as (H & _).
    apply H. reflexivity.
  - destruct (validation_other_outcomes unreachable_env
                (plugin None (Some ["x86_64"; "ppc64le"]) true "") fedora_at_registry
                empty_state) as (_ & H).
    destruct (H ["x86_64"; "ppc64le"] {[ "x86_64" := "amd64"; "ppc64le" := "ppc64le" ]})
      as (_ & H2 & _); [reflexivity | simpl; lia | reflexivity | reflexivity |].
    rewrite H2; reflexivity.
  - destruct (validation_other_outcomes racing_env
                (plugin None (Some ["x86_64"; "s390x"; "ppc64le"]) true "") fedora_at_registry
                empty_state) as (_ & H).
    destruct (H ["x86_64"; "s390x"; "ppc64le"]
                {[ "x86_64" := "amd64"; "ppc64le" := "ppc64le" ]})
      as (_ & _ & H3); [reflexivity | simpl; lia | reflexivity | reflexivity |].
    rewrite (H3 two_arch_list ["x86_64"] "s390x" ["ppc64le"]); try reflexivity.
    repeat constructor. vm_compute. eauto.
Defined.

Lemma validation_feeds_selection_witness :
  count is_registry_fetch
    (trace (snd (select_for_platform racing_env
                   (plugin None (Some ["x86_64"; "ppc64le"]) true "x86_64")
                   fedora_at_registry empty_state)))
  <= 1 + count is_registry_fetch (trace empty_state).
Proof.
  apply (validation_feeds_selection racing_env
           (plugin None (Some ["x86_64"; "ppc64le"]) true "x86_64")
           fedora_at_registry "x86_64" empty_state).
  - unfold validation_skipped. simpl.
    intros [H|[(l & H & Hl)|[H|H]]]; try discriminate.
    injection H as <-. simpl in Hl. lia.
  - reflexivity.
Defined.

Lemma resolution_writes_one_key_witness :
  snd (_get_manifest_list racing_env (plugin None None false "")
         (set_tag (Some "28-1") fedora_digest) resolved_once) = resolved_once /\
  manifest_list_cache
    (snd (_get_manifest_list unreachable_env (plugin None None false "") fedora_digest
            empty_state)) = ∅.
Proof.
  split.
  - destruct (resolution_writes_one_key racing_env (plugin None None false "")
                (set_tag (Some "28-1") fedora_digest) resolved_once) as (_ & _ & H & _).
    apply H. vm_compute. eauto.
  - destruct (resolution_writes_one_key unreachable_env (plugin None None false "")
                fedora_digest empty_state) as (_ & _ & _ & H & _).
    apply H. reflexivity.
Defined.

Lemma arch_digests_last_manifest_wins_witness :
  dict_get "amd64"
    (arch_digests_of "fedora"
       [mkManifest "amd64" "sha256:aaaa"; mkManifest "ppc64le" "sha256:bbbb";
        mkManifest "amd64" "sha256:cccc"]) = Some "fedora@sha256:cccc" /\
  dict_get "s390x"
    (arch_digests_of "fedora"
       [mkManifest "amd64" "sha256:aaaa"; mkManifest "ppc64le" "sha256:bbbb";
        mkManifest "amd64" "sha256:cccc"]) = None.
Proof.
  destruct (arch_digests_last_manifest_wins "fedora"
              [mkManifest "amd64" "sha256:aaaa"; mkManifest "ppc64le" "sha256:bbbb";
               mkManifest "amd64" "sha256:cccc"]) as (_ & _ & Hlast & Hnone).
  split.
  - apply (Hlast [mkManifest "amd64" "sha256:aaaa"; mkManifest "ppc64le" "sha256:bbbb"]
             (mkManifest "amd64" "sha256:cccc") []); [reflexivity | constructor].
  - apply Hnone. simpl. intros H.
    repeat (apply elem_of_cons in H as [H|H]; [discriminate|]).
    by apply elem_of_nil in H.
Defined.

Lemma run_without_platform_check_asks_no_registry_witness :
  exists t, trace (snd (run unreachable_env (unchecked_plugin None) build_json two_parents))
            = trace two_parents ++ t /\
            count is_registry_fetch t = 0.
Proof.
  apply (run_without_platform_check_asks_no_registry unreachable_env (unchecked_plugin None)
           build_json two_parents).
  reflexivity.
Defined.

Lemma run_pulls_from_parent_registry_witness :
  exists t,
    trace (snd (run library_only_env (unchecked_plugin (Some "registry.example.com"))
                  build_json two_parents))
    = trace two_parents ++ t /\
    forall image insecure,
      PullImage image insecure ∈ t -> registry image = Some "registry.example.com".
Proof.
  apply (run_pulls_from_parent_registry library_only_env
           (unchecked_plugin (Some "registry.example.com")) build_json two_parents);
    reflexivity.
Defined.

Lemma run_names_each_parent_witness :
  parent_images (snd (run unreachable_env (unchecked_plugin None) build_json two_parents))
    !! "alpine:3" = Some "build-1:0" /\
  parent_images (snd (run unreachable_env (unchecked_plugin None) build_json two_parents))
    !! "fedora:28" = Some "build-1:1".
Proof.
  destruct (run_names_each_parent unreachable_env (unchecked_plugin None) build_json
              two_parents) as [_ Hnames].
  assert (Hrun : run unreachable_env (unchecked_plugin None) build_json two_parents
                 = (Ok tt, snd (run unreachable_env (unchecked_plugin None) build_json
                                  two_parents))) by (vm_compute; reflexivity).
  split.
  - destruct (Hnames _ Hrun 0 "alpine:3" eq_refl) as (uid & [= <-] & H). exact H.
  - destruct (Hnames _ Hrun 1 "fedora:28" eq_refl) as (uid & [= <-] & H). exact H.
Defined.

Lemma run_sets_base_image_once_witness :
  exists t name,
    trace (snd (run unreachable_env (unchecked_plugin None) build_json two_parents))
    = trace two_parents ++ t /\
    count is_set_base_image t <= 1 /\
    SetBaseImage name ∈ t /\
    parent_images (snd (run unreachable_env (unchecked_plugin None) build_json two_parents))
      !! "fedora:28" = Some name.
Proof.
  destruct (run_sets_base_image_once unreachable_env (unchecked_plugin None) build_json
              two_parents) as (t & Ht & Hc & _ & Hset).
  assert (Hrun : run unreachable_env (unchecked_plugin None) build_json two_parents
                 = (Ok tt, snd (run unreachable_env (unchecked_plugin None) build_json
                                  two_parents))) by (vm_compute; reflexivity).
  destruct (Hset _ Hrun) as (name & Hin & Hname).
  - apply elem_of_dom. exists "fedora:28". reflexivity.
  - exists t, name. split; [exact Ht|]. split; [exact Hc|]. split; [exact Hin | exact Hname].
Defined.

End PullBaseImageSpec.

(** ** Properties of pulp_pull *)

Module PulpPullSpec.
Import Py Image PulpPull.
Open Scope py_scope.
Open Scope Z_scope.

Ltac run_monad :=
  unfold bind, ret, raise, get, modify, lift, log, try_except in *; simpl in *.

Ltac norm_trace :=
  unfold emit, set_expect_v2schema2, set_expect_v2schema2list,
    set_expect_v2schema2list_only, set_image_id in *; simpl in *;
  rewrite <- ?app_assoc; simpl.

Lemma steady_ret {A} (a : A) : steady (ret a).
Proof. intros s. split; [done|]. exists []. by rewrite app_nil_r. Qed.

Lemma steady_raise {A} (e : Exn) : steady (raise (A := A) e).
Proof. intros s. split; [done|]. exists []. by rewrite app_nil_r. Qed.

Lemma steady_lift {A} (r : Result A) : steady (lift r).
Proof. intros s. split; [done|]. exists []. by rewrite app_nil_r. Qed.

Lemma steady_get : steady get.
Proof. intros s. split; [done|]. exists []. by rewrite app_nil_r. Qed.

Lemma steady_emit (e : Event) : steady (modify (emit e)).
Proof. intros s. split; [done|]. by exists [e]. Qed.

Lemma steady_log lvl fmt args : steady (log lvl fmt args).
Proof. apply steady_emit. Qed.

Lemma steady_set_image_id i : steady (modify (set_image_id i)).
Proof. intros s. split; [done|]. exists []. by rewrite app_nil_r. Qed.

Lemma steady_bind {A B} (m : M State A) (k : A -> M State B) :
  steady m -> (forall a, steady (k a)) -> steady (bind m k).
Proof.
  intros Hm Hk s. unfold bind.
  destruct (Hm s) as [He [t Ht]]. destruct (m s) as [[a|e] s1]; simpl in *.
  - destruct (Hk a s1) as [He' [t' Ht']]. split; [congruence|].
    exists (t ++ t'). by rewrite Ht', Ht, app_assoc.
  - eauto.
Qed.

Lemma steady_try {A} (m : M State A) catches (h : Exn -> M State A) :
  steady m -> (forall e, steady (h e)) -> steady (try_except m catches h).
Proof.
  intros Hm Hh s. unfold try_except.
  destruct (Hm s) as [He [t Ht]]. destruct (m s) as [[a|e] s1]; simpl in *; [eauto|].
  destruct (catches e); simpl; [|eauto].
  destruct (Hh e s1) as [He' [t' Ht']]. split; [congruence|].
  exists (t ++ t'). by rewrite Ht', Ht, app_assoc.
Qed.

Create HintDb steady.
#[local] Hint Resolve steady_ret steady_raise steady_lift steady_get steady_emit
  steady_log steady_set_image_id : steady.
#[local] Hint Extern 2 (steady (bind _ _)) => apply steady_bind; [|intros ?] : steady.
#[local] Hint Extern 2 (steady (try_except _ _ _)) => apply steady_try; [|intros ?] : steady.
#[local] Hint Extern 3 (steady (match ?x with _ => _ end)) => destruct x : steady.
#[local] Hint Extern 3 (steady (if ?x then _ else _)) => destruct x : steady.

Section Facts.
Variable env : Env.
Variable self : Plugin.
Variable workflow : Workflow.

Lemma steady_lookup_once pullspec reg : steady (lookup_once env self pullspec reg).
Proof.
  unfold lookup_once, call_get_manifest_digests, handle_http_error, check_digests.
  auto 20 with steady.
Qed.

Lemma steady_retry_loop fuel : forall start pullspec reg,
  steady (retry_loop env self fuel start pullspec reg).
Proof.
  induction fuel as [|fuel IH]; intros start pullspec reg; simpl.
  - auto with steady.
  - pose proof (steady_lookup_once pullspec reg).
    unfold call_time, call_sleep. auto 20 with steady.
Qed.

Lemma steady_retry_if_not_found fuel pullspec reg :
  steady (retry_if_not_found env self fuel pullspec reg).
Proof.
  unfold retry_if_not_found, call_time.
  pose proof (steady_retry_loop fuel). auto 20 with steady.
Qed.

(** *** One pass of the polling loop *)

(** The lookup comes first in every pass. *)
Lemma lookup_once_trace pullspec reg s :
  exists t, trace (snd (lookup_once env self pullspec reg s))
            = trace s ++ GetManifestDigests pullspec reg (insecure self) (secret self) :: t.
Proof.
  unfold lookup_once, call_get_manifest_digests, handle_http_error, check_digests.
  run_monad.
  repeat (case_match; simpl in *; simplify_eq); norm_trace; eauto.
Qed.

Lemma lookup_once_http pullspec reg s response request :
  get_manifest_digests env (trace s) pullspec reg (insecure self) (secret self)
    = Raise (HTTPError (Some response) request) ->
  lookup_once env self pullspec reg s =
    let s1 := emit (GetManifestDigests pullspec reg (insecure self) (secret self)) s in
    if status_code response =? 404 then (Ok None, s1)
    else if status_code response =? 403 then
      match request with
      | None => (Raise (AttributeError "'NoneType' object has no attribute 'url'"), s1)
      | Some request =>
          (Ok None,
           emit (Log ERROR "[%s] %s %s %r: from %s %s"
                   [pretty (status_code response); reason response; headers response;
                    content response; url request; request_headers request]) s1)
      end
    else (Raise (HTTPError (Some response) request), s1).
Proof.
  intros Hget.
  unfold lookup_once, call_get_manifest_digests, handle_http_error. run_monad.
  rewrite Hget. simpl.
  destruct (status_code response =? 404); [done|]. simpl.
  destruct (status_code response =? 403); [|done]. by destruct request.
Qed.

Lemma retry_loop_S fuel start pullspec reg s :
  retry_loop env self (S fuel) start pullspec reg s =
    match lookup_once env self pullspec reg s with
    | (Ok (Some digests), s1) => (Ok (Some digests), s1)
    | (Ok None, s1) =>
        if time env (trace s1) - start >? timeout self then
          (Raise (CraneTimeoutError (pretty (timeout self) +:+ " seconds exceeded")),
           emit Time s1)
        else
          retry_loop env self fuel start pullspec reg
            (emit (Sleep (retry_delay self))
               (emit (Log INFO "not found; will try again in %ss"
                        [pretty (retry_delay self)])
                  (emit Time s1)))
    | (Raise e, s1) => (Raise e, s1)
    end.
Proof.
  simpl. unfold bind at 1.
  destruct (lookup_once env self pullspec reg s) as [[[digests|]|e] s1]; try done.
  unfold call_time, call_sleep. run_monad.
  by destruct (time env (trace s1) - start >? timeout self).
Qed.

Lemma retry_loop_starts_with_lookup fuel start pullspec reg s :
  exists t, trace (snd (retry_loop env self (S fuel) start pullspec reg s))
            = trace s ++ GetManifestDigests pullspec reg (insecure self) (secret self) :: t.
Proof.
  rewrite retry_loop_S.
  destruct (lookup_once_trace pullspec reg s) as [t Ht].
  destruct (lookup_once env self pullspec reg s) as [[[digests|]|e] s1]; simpl in *; eauto.
  destruct (time env (trace s1) - start >? timeout self).
  - norm_trace. rewrite Ht, <- app_assoc. simpl. eauto.
  - edestruct (steady_retry_loop fuel start pullspec reg) as [_ [t' Ht']].
    rewrite Ht'. norm_trace. rewrite Ht, <- !app_assoc. simpl. eauto.
Qed.

Lemma str_in_prefix a b : str_in a (a +:+ b) = true.
Proof.
  assert (Hp : String.prefix a (a +:+ b) = true).
  { induction a as [|c a IH]; simpl; [by destruct b|].
    destruct (Ascii.ascii_dec c c); [done | congruence]. }
  destruct a; simpl in *; [by destruct b|]. by rewrite Hp.
Qed.

(** C6: in every pass of the polling loop, an [HTTPError] with status 404
    ends the handler without raising and without logging; one with status
    403 ends it without raising after an error record with the status, the
    reason, the headers and the content of the response and the URL and the
    headers of the request; one with any other status is raised again and
    leaves the loop right after the lookup, before any reading of the clock,
    any sleep and any other lookup.  After a pass that ends without raising
    and without a result, while the time allowed is not exceeded, the loop
    reads the clock, logs, sleeps [retry_delay] and looks up again. *)
Theorem http_failure_classification (fuel : nat) (start : Z) (pullspec : ImageName)
    (reg : string) (s : State) (response : Response) (request : option Request) :
  let lookup := GetManifestDigests pullspec reg (insecure self) (secret self) in
  let s1 := emit lookup s in
  get_manifest_digests env (trace s) pullspec reg (insecure self) (secret self)
    = Raise (HTTPError (Some response) request) ->
  (status_code response = 404 -> lookup_once env self pullspec reg s = (Ok None, s1)) /\
  (status_code response = 403 ->
   forall rq, request = Some rq ->
     lookup_once env self pullspec reg s =
       (Ok None,
        emit (Log ERROR "[%s] %s %s %r: from %s %s"
                ["403"; reason response; headers response; content response;
                 url rq; request_headers rq]) s1)) /\
  (status_code response <> 404 -> status_code response <> 403 ->
   retry_loop env self (S fuel) start pullspec reg s
   = (Raise (HTTPError (Some response) request), s1)) /\
  (forall s2,
     lookup_once env self pullspec reg s = (Ok None, s2) ->
     time env (trace s2) - start <= timeout self ->
     exists t,
       trace (snd (retry_loop env self (S (S fuel)) start pullspec reg s))
       = trace s2 ++ [Time;
                      Log INFO "not found; will try again in %ss" [pretty (retry_delay self)];
                      Sleep (retry_delay self); lookup] ++ t).
Proof.
  intros lookup s1 Hget. subst lookup s1.
  pose proof (lookup_once_http pullspec reg s response request Hget) as Hl. simpl in Hl.
  split; [|split; [|split]].
  - intros H404. by rewrite H404 in Hl.
  - intros H403 rq ->. by rewrite H403 in Hl.
  - intros Hn404 Hn403. rewrite retry_loop_S, Hl.
    destruct (Z.eqb_spec (status_code response) 404); [done|].
    by destruct (Z.eqb_spec (status_code response) 403).
  - intros s2 Hs2 Htime. rewrite retry_loop_S, Hs2.
    destruct (Z.gtb_spec (time env (trace s2) - start) (timeout self)); [lia|].
    edestruct (retry_loop_starts_with_lookup fuel start pullspec reg) as [t Ht].
    rewrite Ht. norm_trace. eauto.
Qed.

(** C7, amended: after every pass that ends without a result the loop reads
    the clock, before it sleeps.  When the reading exceeds the start by
    more than [timeout] it raises [CraneTimeoutError] at once, whatever a
    further lookup would answer, with the message [<timeout> seconds
    exceeded], which names the configured timeout; otherwise it logs,
    sleeps [retry_delay] and goes through the loop again.  A pass that ends
    with a result returns it without a reading of the clock. *)
Theorem timeout_checked_before_wait (fuel : nat) (start : Z) (pullspec : ImageName)
    (reg : string) (s : State) :
  (forall s1,
     lookup_once env self pullspec reg s = (Ok None, s1) ->
     (time env (trace s1) - start > timeout self ->
      retry_loop env self (S fuel) start pullspec reg s
      = (Raise (CraneTimeoutError (pretty (timeout self) +:+ " seconds exceeded")),
         emit Time s1)) /\
     (time env (trace s1) - start <= timeout self ->
      retry_loop env self (S fuel) start pullspec reg s
      = retry_loop env self fuel start pullspec reg
          (emit (Sleep (retry_delay self))
             (emit (Log INFO "not found; will try again in %ss" [pretty (retry_delay self)])
                (emit Time s1))))) /\
  (forall digests s1,
     lookup_once env self pullspec reg s = (Ok (Some digests), s1) ->
     retry_loop env self (S fuel) start pullspec reg s = (Ok (Some digests), s1)) /\
  str_in (pretty (timeout self)) (pretty (timeout self) +:+ " seconds exceeded") = true.
Proof.
  split; [|split].
  - intros s1 Hl. split.
    + intros Hlate. rewrite retry_loop_S, Hl.
      by destruct (Z.gtb_spec (time env (trace s1) - start) (timeout self)); [|lia].
    + intros Hearly. rewrite retry_loop_S, Hl.
      by destruct (Z.gtb_spec (time env (trace s1) - start) (timeout self)); [lia|].
  - intros digests s1 Hl. by rewrite retry_loop_S, Hl.
  - apply str_in_prefix.
Qed.

(** *** The expectations *)

Lemma amd64_not_built (mapping : gmap string string) expected :
  Forall (fun plat => exists arch, mapping !! plat = Some arch /\ arch <> "amd64") expected ->
  amd64_built mapping expected = Ok false.
Proof.
  induction 1 as [|plat expected (arch & Hp & Hne) _ IH]; simpl; [done|].
  rewrite Hp. destruct (String.eqb_spec arch "amd64"); done.
Qed.

(** What [set_manifest_list_expectations] does when the build has
    platforms, all with an architecture other than amd64. *)
Lemma expectations_list_only s expected mapping :
  group_manifests_result workflow = true ->
  platforms workflow = Some expected ->
  expected <> [] ->
  platform_to_goarch workflow = Some mapping ->
  Forall (fun plat => exists arch, mapping !! plat = Some arch /\ arch <> "amd64") expected ->
  set_manifest_list_expectations workflow s =
    (Ok tt,
     set_expect_v2schema2 false
       (set_expect_v2schema2list_only true
          (emit (Log DEBUG "amd64 was not built, only manifest list digest is available" [])
             (set_expect_v2schema2list true s)))).
Proof.
  intros Hgroup Hplat Hne Hmap Hall. apply amd64_not_built in Hall.
  unfold set_manifest_list_expectations. rewrite Hgroup, Hplat, Hmap.
  destruct expected; [done|]. run_monad.
  by rewrite Hall.
Qed.

Lemma expectations_list s :
  group_manifests_result workflow = true ->
  expect_v2schema2list (snd (set_manifest_list_expectations workflow s)) = true.
Proof.
  intros Hgroup. unfold set_manifest_list_expectations. rewrite Hgroup. run_monad.
  repeat (case_match; simpl in *; simplify_eq); done.
Qed.

(** The derivation makes no call: it only logs. *)
Lemma expectations_only_log s :
  exists t, trace (snd (set_manifest_list_expectations workflow s)) = trace s ++ t /\
            count is_lookup t = 0%nat.
Proof.
  unfold set_manifest_list_expectations. run_monad.
  repeat (case_match; simpl in *; simplify_eq); norm_trace;
    try (exists []; by rewrite app_nil_r); eauto.
Qed.

Lemma check_digests_list_only digests s :
  expect_v2schema2list s = true ->
  expect_v2schema2list_only s = true ->
  truthy (v2_list digests) = true ->
  check_digests digests s = (Ok (Some digests), s).
Proof.
  intros Hlist Honly Hpresent. unfold check_digests. run_monad.
  by rewrite Hlist, Honly, Hpresent.
Qed.

Lemma steady_check_crane fuel pullspec reg media_types :
  steady (check_crane env self fuel pullspec reg media_types).
Proof.
  unfold check_crane.
  pose proof (steady_retry_if_not_found fuel pullspec). auto 30 with steady.
Qed.

Lemma steady_pull_and_inspect pullspec media_types :
  steady (pull_and_inspect env self pullspec media_types).
Proof.
  unfold pull_and_inspect, call_pull_image, call_inspect_image. auto 30 with steady.
Qed.

(** After the derivation [run] leaves the expectations alone and only adds
    to the trace. *)
Lemma run_after_derivation fuel s :
  build_process_failed workflow = false ->
  expectations (snd (run env self workflow fuel s))
    = expectations (snd (set_manifest_list_expectations workflow s)) /\
  exists t, trace (snd (run env self workflow fuel s))
            = trace (snd (set_manifest_list_expectations workflow s)) ++ t.
Proof.
  intros Hfailed. unfold run. rewrite Hfailed.
  match goal with |- context [bind _ (fun _ => ?k)] => set (rest := k) end.
  assert (Hrest : steady rest).
  { pose proof (steady_check_crane fuel). pose proof steady_pull_and_inspect.
    subst rest. auto 30 with steady. }
  unfold bind.
  destruct (set_manifest_list_expectations workflow s) as [[[]|e] s1]; simpl.
  - exact (Hrest s1).
  - split; [done|]. exists []. by rewrite app_nil_r.
Qed.

(** [run] in the manifest-list-only mode, when the first lookup finds a
    manifest list: one lookup, no pull, and the manifest list media type
    alone as the result. *)
Lemma run_list_only fuel s image images reg regs digests :
  build_process_failed workflow = false ->
  unique_images workflow = image :: images ->
  pulp_registries workflow = reg :: regs ->
  server_side_sync reg = true ->
  fst (set_manifest_list_expectations workflow s) = Ok tt ->
  expect_v2schema2list (snd (set_manifest_list_expectations workflow s)) = true ->
  expect_v2schema2list_only (snd (set_manifest_list_expectations workflow s)) = true ->
  (forall t, get_manifest_digests env t (set_registry (Some (uri reg)) image) (uri reg)
               (insecure self) (secret self) = Ok digests) ->
  digests_bool env digests = true ->
  truthy (v2_list digests) = true ->
  let s1 := snd (set_manifest_list_expectations workflow s) in
  run env self workflow (S fuel) s =
    (Ok (Some [MEDIA_TYPE_DOCKER_V2_MANIFEST_LIST env]),
     emit (Log INFO ("Only V2 schema 2 manifest list is expected, "
                     +:+ "leaving image ID unchanged %s") [render_id (image_id s1)])
       (emit (Log INFO "Manifest list found" [])
          (emit (GetManifestDigests (set_registry (Some (uri reg)) image) (uri reg)
                   (insecure self) (secret self))
             (emit Time s1)))).
Proof.
  intros Hfailed Himages Hregs Hsync Hok Hlist Honly Hget Hbool Hpresent s1. subst s1.
  unfold run. rewrite Hfailed, Himages, Hregs, Hsync. unfold bind at 1.
  destruct (set_manifest_list_expectations workflow s) as [r s1]. simpl in *. subst r.
  unfold check_crane, retry_if_not_found, call_time. simpl.
  unfold lookup_once, call_get_manifest_digests, check_digests. run_monad.
  rewrite Hget. simpl. rewrite Hlist, Hpresent. simpl.
  rewrite Honly. simpl. rewrite Hbool, Hpresent. simpl. rewrite ?Honly. done.
Qed.

(** *** What the poller returns *)

Lemma lookup_once_some pullspec reg s digests s1 :
  lookup_once env self pullspec reg s = (Ok (Some digests), s1) ->
  s1 = emit (GetManifestDigests pullspec reg (insecure self) (secret self)) s /\
  get_manifest_digests env (trace s) pullspec reg (insecure self) (secret self) = Ok digests /\
  meets_expectations s digests.
Proof.
  unfold lookup_once, call_get_manifest_digests, check_digests, handle_http_error,
    meets_expectations.
  run_monad. intros H.
  repeat (case_match; simpl in *; simplify_eq);
    repeat match goal with
    | H : _ && _ = false |- _ => apply andb_false_iff in H as [H|H]
    | H : negb _ = false |- _ => apply negb_false_iff in H
    end; (split; [done|]); (split; [done|]); split; intros;
    unfold emit in *; simpl in *; congruence.
Qed.

Lemma meets_expectations_ext s s' digests :
  expectations s' = expectations s ->
  meets_expectations s digests -> meets_expectations s' digests.
Proof. unfold expectations, meets_expectations. intros [= -> -> ->]. done. Qed.

Lemma retry_loop_some fuel : forall start pullspec reg s digests s',
  retry_loop env self fuel start pullspec reg s = (Ok (Some digests), s') ->
  meets_expectations s digests /\
  exists t,
    trace s' = trace s ++ t ++ [GetManifestDigests pullspec reg (insecure self) (secret self)] /\
    get_manifest_digests env (trace s ++ t) pullspec reg (insecure self) (secret self)
    = Ok digests.
Proof.
  induction fuel as [|fuel IH]; intros start pullspec reg s digests s'; [done|].
  rewrite retry_loop_S.
  destruct (lookup_once env self pullspec reg s) as [[[d|]|e] s1] eqn:Hl; [| |done].
  - intros [= -> ->]. destruct (lookup_once_some _ _ _ _ _ Hl) as (-> & Hget & Hmeets).
    split; [done|]. exists []. by rewrite app_nil_r.
  - destruct (steady_lookup_once pullspec reg s) as [Hexp [t1 Ht1]]. rewrite Hl in Hexp, Ht1.
    simpl in Hexp, Ht1. case_match; [done|]. intros Hrest.
    apply IH in Hrest as [Hmeets (t & Ht & Hget)]. split.
    + revert Hmeets. apply meets_expectations_ext. by rewrite <- Hexp.
    + unfold emit in Ht, Hget. simpl in Ht, Hget. rewrite Ht1 in Ht, Hget.
      rewrite <- ?app_assoc in Ht, Hget. simpl in Ht, Hget.
      exists (t1 ++ [Time; Log INFO "not found; will try again in %ss"
                             [pretty (retry_delay self)];
                     Sleep (retry_delay self)] ++ t).
      rewrite <- ?app_assoc. simpl. split; [exact Ht|].
      by rewrite <- Hget.
Qed.

Lemma amd64_built_break (mapping : gmap string string) before plat after :
  Forall (fun p => exists arch, mapping !! p = Some arch /\ arch <> "amd64") before ->
  amd64_built mapping (before ++ plat :: after) =
    match mapping !! plat with
    | None => Raise (KeyError plat)
    | Some arch => if String.eqb arch "amd64" then Ok true else amd64_built mapping after
    end.
Proof.
  induction 1 as [|p before (arch & Hp & Hne) _ IH]; simpl; [done|].
  rewrite Hp. by apply String.eqb_neq in Hne as ->.
Qed.

Lemma check_digests_without_list digests s :
  expect_v2schema2list s = true ->
  truthy (v2_list digests) = false ->
  check_digests digests s
  = (Ok None, emit (Log WARNING "Expected schema 2 manifest list" []) s).
Proof.
  intros Hlist Habsent. unfold check_digests. run_monad.
  by rewrite Hlist, Habsent.
Qed.

Lemma expectations_unmapped s expected mapping before plat after :
  group_manifests_result workflow = true ->
  platforms workflow = Some expected ->
  expected = before ++ plat :: after ->
  platform_to_goarch workflow = Some mapping ->
  Forall (fun p => exists arch, mapping !! p = Some arch /\ arch <> "amd64") before ->
  mapping !! plat = None ->
  set_manifest_list_expectations workflow s
  = (Raise (KeyError plat), set_expect_v2schema2list true s).
Proof.
  intros Hgroup Hplatforms -> Hmapping Hbefore Hnone.
  unfold set_manifest_list_expectations. rewrite Hgroup, Hplatforms, Hmapping.
  assert (Hne : before ++ plat :: after <> []) by (by destruct before).
  destruct (before ++ plat :: after) as [|p l] eqn:Hl; [done|]. rewrite <- Hl.
  run_monad. by rewrite (amd64_built_break mapping before plat after Hbefore), Hnone.
Qed.

(** C8, amended: [run] derives the expectations once, before it polls,
    by a step that makes no lookup, and neither the polling loop nor the
    rest of [run] changes them afterwards.  When [group_manifests] has a
    result the manifest list is expected: the poller returns no answer
    without a manifest list digest, and goes on after a warning instead.
    When moreover the platforms are known, the mapping to architectures is
    available and every platform has an entry in it for an architecture
    other than amd64, the manifest-list-only mode is set and the schema 2
    manifest is no longer expected; in that mode an answer is accepted if
    and only if it has a manifest list digest, whatever else it holds, and
    [run] returns the manifest list media type after a single lookup.  A
    platform without an entry in the mapping, met before any platform that
    maps to amd64, makes the derivation and [run] raise [KeyError], with the
    manifest list expected and the mode not set, before any lookup. *)
Theorem manifest_list_expectations (s : State) :
  let derived := set_manifest_list_expectations workflow s in
  (build_process_failed workflow = false ->
   forall fuel,
     expectations (snd (run env self workflow fuel s)) = expectations (snd derived) /\
     exists t t',
       trace (snd derived) = trace s ++ t /\ count is_lookup t = 0%nat /\
       trace (snd (run env self workflow fuel s)) = trace (snd derived) ++ t') /\
  (forall fuel pullspec reg st,
     expectations (snd (retry_if_not_found env self fuel pullspec reg st))
     = expectations st) /\
  (group_manifests_result workflow = true -> expect_v2schema2list (snd derived) = true) /\
  (forall fuel pullspec reg st digests st',
     expect_v2schema2list st = true ->
     (retry_if_not_found env self fuel pullspec reg st = (Ok (Some digests), st') ->
      truthy (v2_list digests) = true) /\
     (truthy (v2_list digests) = false ->
      check_digests digests st
      = (Ok None, emit (Log WARNING "Expected schema 2 manifest list" []) st))) /\
  (forall expected mapping,
     group_manifests_result workflow = true ->
     platforms workflow = Some expected ->
     expected <> [] ->
     platform_to_goarch workflow = Some mapping ->
     Forall (fun plat => exists arch, mapping !! plat = Some arch /\ arch <> "amd64")
       expected ->
     fst derived = Ok tt /\
     expectations (snd derived) = (false, true, true) /\
     (forall fuel image images reg regs digests,
        build_process_failed workflow = false ->
        unique_images workflow = image :: images ->
        pulp_registries workflow = reg :: regs ->
        server_side_sync reg = true ->
        (forall t, get_manifest_digests env t (set_registry (Some (uri reg)) image)
                     (uri reg) (insecure self) (secret self) = Ok digests) ->
        digests_bool env digests = true ->
        truthy (v2_list digests) = true ->
        fst (run env self workflow (S fuel) s)
          = Ok (Some [MEDIA_TYPE_DOCKER_V2_MANIFEST_LIST env]) /\
        count is_lookup (trace (snd (run env self workflow (S fuel) s)))
          = S (count is_lookup (trace s)))) /\
  (forall expected mapping before plat after,
     group_manifests_result workflow = true ->
     platforms workflow = Some expected ->
     expected = before ++ plat :: after ->
     platform_to_goarch workflow = Some mapping ->
     Forall (fun p => exists arch, mapping !! p = Some arch /\ arch <> "amd64") before ->
     mapping !! plat = None ->
     derived = (Raise (KeyError plat), set_expect_v2schema2list true s) /\
     (build_process_failed workflow = false ->
      forall fuel,
        run env self workflow fuel s
        = (Raise (KeyError plat), set_expect_v2schema2list true s))) /\
  (forall st digests,
     expect_v2schema2list st = true ->
     expect_v2schema2list_only st = true ->
     (truthy (v2_list digests) = true -> check_digests digests st = (Ok (Some digests), st)) /\
     (check_digests digests st = (Ok (Some digests), st) <->
      truthy (v2_list digests) = true)).
Proof.
  intros derived. subst derived. split; [|split; [|split; [|split; [|split; [|split]]]]].
  - intros Hfailed fuel.
    destruct (run_after_derivation fuel s Hfailed) as [Hexp [t' Ht']].
    destruct (expectations_only_log s) as (t & Ht & Hc).
    split; [done|]. by exists t, t'.
  - intros fuel pullspec reg st. apply steady_retry_if_not_found.
  - apply expectations_list.
  - intros fuel pullspec reg st digests st' Hlist. split.
    + unfold retry_if_not_found, call_time. run_monad. intros Hrun.
      apply retry_loop_some in Hrun as [[Hmeets _] _]. by apply Hmeets.
    + by apply check_digests_without_list.
  - intros expected mapping Hgroup Hplat Hne Hmap Hall.
    pose proof (expectations_list_only s expected mapping Hgroup Hplat Hne Hmap Hall)
      as Hderive.
    rewrite Hderive. simpl. split; [done|]. split; [done|].
    intros fuel image images reg regs digests Hfailed Himages Hregs Hsync Hget Hbool Hpresent.
    rewrite (run_list_only fuel s image images reg regs digests); try done;
      try (by rewrite Hderive).
    simpl. split; [done|]. rewrite Hderive. norm_trace.
    unfold count. rewrite List.filter_app, length_app. simpl. lia.
  - intros expected mapping before plat after Hgroup Hplat Hexp Hmap Hbefore Hnone.
    pose proof (expectations_unmapped s expected mapping before plat after
                  Hgroup Hplat Hexp Hmap Hbefore Hnone) as Hderive.
    split; [done|]. intros Hfailed fuel. unfold run. rewrite Hfailed.
    unfold bind at 1. by rewrite Hderive.
  - intros st digests Hlist Honly. split; [by apply check_digests_list_only|]. split.
    + intros Hok. destruct (truthy (v2_list digests)) eqn:Hpresent; [done|].
      by rewrite (check_digests_without_list digests st Hlist Hpresent) in Hok.
    + by apply check_digests_list_only.
Qed.

(** *** What the poller returns, as a property of [retry_if_not_found] *)

(** X15: what [retry_if_not_found] returns is the answer of the last call
    to [get_manifest_digests] it made, that call is the last thing it did,
    and the answer meets the expectations: it has a manifest list digest if
    one is expected, and a schema 2 digest if one is expected and the
    manifest list is not the only thing expected. *)
Theorem poller_returns_expected_digests (fuel : nat) (pullspec : ImageName) (reg : string)
    (s s' : State) (digests : ManifestDigest) :
  retry_if_not_found env self fuel pullspec reg s = (Ok (Some digests), s') ->
  meets_expectations s digests /\
  exists t,
    trace s' = trace s ++ t ++ [GetManifestDigests pullspec reg (insecure self) (secret self)] /\
    get_manifest_digests env (trace s ++ t) pullspec reg (insecure self) (secret self)
    = Ok digests.
Proof.
  unfold retry_if_not_found, call_time. run_monad. intros Hrun.
  apply retry_loop_some in Hrun as [Hmeets (t & Ht & Hget)]. split; [done|].
  revert Ht Hget. norm_trace. intros Ht Hget. by exists (Time :: t).
Qed.

(** *** How long the poller goes on *)

Lemma count_events_app p (a b : list Event) :
  count p (a ++ b) = (count p a + count p b)%nat.
Proof. unfold count. by rewrite List.filter_app, length_app. Qed.

Lemma slept_app a b : slept (a ++ b) = slept a + slept b.
Proof.
  unfold slept. induction a as [|e a IH]; simpl; [done|].
  rewrite IH. destruct e; lia.
Qed.

Lemma lookup_once_quiet pullspec reg s :
  exists t, trace (snd (lookup_once env self pullspec reg s)) = trace s ++ t /\
            slept t = 0 /\ count is_lookup t = 1%nat.
Proof.
  unfold lookup_once, call_get_manifest_digests, handle_http_error, check_digests.
  run_monad.
  repeat (case_match; simpl in *; simplify_eq); norm_trace; eexists; (split; [done|]); done.
Qed.

Lemma retry_loop_ends fuel : forall k start pullspec reg s,
  0 < retry_delay self ->
  0 <= k <= timeout self / retry_delay self + 1 ->
  (forall h', start + retry_delay self * k + slept h' <= time env (trace s ++ h')) ->
  timeout self / retry_delay self + 2 <= Z.of_nat fuel + k ->
  fst (retry_loop env self fuel start pullspec reg s) <> Ok None /\
  exists t, trace (snd (retry_loop env self fuel start pullspec reg s)) = trace s ++ t /\
            Z.of_nat (count is_lookup t) + k <= timeout self / retry_delay self + 2.
Proof.
  induction fuel as [|fuel IH]; intros k start pullspec reg s Hdelay Hk Hclock Hfuel; [lia|].
  rewrite retry_loop_S.
  destruct (lookup_once_quiet pullspec reg s) as (t1 & Ht1 & Hs1 & Hc1).
  destruct (lookup_once env self pullspec reg s) as [[[digests|]|e] s1]; simpl in Ht1; simpl.
  - split; [done|]. exists t1. split; [done|lia].
  - pose proof (Hclock t1) as Hnow. rewrite <- Ht1, Hs1 in Hnow.
    destruct (time env (trace s1) - start >? timeout self) eqn:Hcmp; simpl.
    + split; [done|]. exists (t1 ++ [Time]). norm_trace. rewrite Ht1, count_events_app, Hc1.
      split; [by rewrite <- app_assoc|]. unfold count. simpl. lia.
    + assert (Hle : k <= timeout self / retry_delay self).
      { apply Z.div_le_lower_bound; lia. }
      set (s2 := emit (Sleep (retry_delay self)) _).
      assert (Ht2 : trace s2 = trace s ++ t1 ++
                [Time; Log INFO "not found; will try again in %ss" [pretty (retry_delay self)];
                 Sleep (retry_delay self)]).
      { unfold s2. norm_trace. by rewrite Ht1, <- app_assoc. }
      destruct (IH (k + 1) start pullspec reg s2) as [Hres (t & Ht & Hc)]; [done|lia| |lia|].
      * intros h'. rewrite Ht2, <- !app_assoc.
        pose proof (Hclock (t1 ++ [Time; Log INFO "not found; will try again in %ss"
                                           [pretty (retry_delay self)];
                                   Sleep (retry_delay self)] ++ h')) as Hc.
        rewrite !slept_app, Hs1 in Hc. unfold slept at 1 in Hc. simpl in Hc.
        fold (slept h') in Hc. simpl. lia.
      * split; [done|]. eexists. rewrite Ht, Ht2, <- !app_assoc. split; [done|].
        unfold count in *. rewrite !List.filter_app, !length_app. simpl. lia.
  - split; [done|]. exists t1. split; [done|lia].
Qed.

(** X16: with a positive [retry_delay], a timeout that is not negative and
    a clock that moves on by at least the seconds slept, the poller comes
    to an end, with digests or with an exception, after at most
    [timeout / retry_delay + 2] lookups. *)
Theorem poller_ends_within_timeout (fuel : nat) (pullspec : ImageName) (reg : string)
    (s : State) :
  0 < retry_delay self ->
  0 <= timeout self ->
  clock_advances env ->
  (Z.to_nat (timeout self / retry_delay self) + 2 <= fuel)%nat ->
  fst (retry_if_not_found env self fuel pullspec reg s) <> Ok None /\
  exists t, trace (snd (retry_if_not_found env self fuel pullspec reg s)) = trace s ++ t /\
            (count is_lookup t <= Z.to_nat (timeout self / retry_delay self) + 2)%nat.
Proof.
  intros Hdelay Htimeout Hclock Hfuel.
  assert (Hq : 0 <= timeout self / retry_delay self) by (apply Z.div_pos; lia).
  unfold retry_if_not_found, call_time. run_monad.
  destruct (retry_loop_ends fuel 0 (time env (trace s)) pullspec reg (emit Time s))
    as [Hres (t & Ht & Hc)]; [done|lia| |lia|].
  - intros h'. norm_trace. pose proof (Hclock (trace s) (Time :: h')) as Hc.
    unfold slept in *. simpl in Hc. lia.
  - split; [done|]. exists (Time :: t). revert Ht. norm_trace. intros ->.
    split; [done|]. change (Time :: t) with ([Time] ++ t). rewrite count_events_app.
    unfold count at 1. simpl. lia.
Qed.

(** *** What a computation preserves *)

#[local] Instance id_kept_refl : Reflexive id_kept.
Proof. by intros s. Qed.

#[local] Instance id_kept_trans : Transitive id_kept.
Proof. intros s1 s2 s3 H1 H2. unfold id_kept in *. congruence. Qed.

#[local] Instance emits_only_refl P : Reflexive (emits_only P).
Proof. intros s. exists []. by rewrite app_nil_r. Qed.

#[local] Instance emits_only_trans P : Transitive (emits_only P).
Proof.
  intros s1 s2 s3 (t & Ht & HP) (t' & Ht' & HP'). exists (t ++ t').
  split; [by rewrite Ht', Ht, app_assoc | by apply Forall_app].
Qed.

Lemma preserves_ret {A} R `{!Reflexive R} (a : A) : preserves R (ret a).
Proof. intros s. apply reflexivity. Qed.

Lemma preserves_raise {A} R `{!Reflexive R} (e : Exn) : preserves R (raise (A := A) e).
Proof. intros s. apply reflexivity. Qed.

Lemma preserves_lift {A} R `{!Reflexive R} (r : Result A) : preserves R (lift r).
Proof. intros s. apply reflexivity. Qed.

Lemma preserves_get R `{!Reflexive R} : preserves R get.
Proof. intros s. apply reflexivity. Qed.

Lemma preserves_modify R (f : State -> State) : (forall s, R s (f s)) -> preserves R (modify f).
Proof. intros Hf s. apply Hf. Qed.

Lemma preserves_bind {A B} R `{!Transitive R} (m : M State A) (k : A -> M State B) :
  preserves R m -> (forall a, preserves R (k a)) -> preserves R (bind m k).
Proof.
  intros Hm Hk s. unfold bind. specialize (Hm s).
  destruct (m s) as [[a|e] s1]; simpl in *; [|done].
  etrans; [exact Hm | apply Hk].
Qed.

Lemma preserves_try {A} R `{!Transitive R} (m : M State A) catches (h : Exn -> M State A) :
  preserves R m -> (forall e, preserves R (h e)) -> preserves R (try_except m catches h).
Proof.
  intros Hm Hh s. unfold try_except. specialize (Hm s).
  destruct (m s) as [[a|e] s1]; simpl in *; [done|].
  destruct (catches e); simpl; [|done]. etrans; [exact Hm | apply Hh].
Qed.

Ltac split_preserves :=
  repeat match goal with
  | |- preserves _ (bind _ _) => apply preserves_bind; [try apply _ | | intros ?]
  | |- preserves _ (try_except _ _ _) => apply preserves_try; [try apply _ | | intros ?]
  | |- preserves _ (ret _) => apply preserves_ret; apply _
  | |- preserves _ (raise _) => apply preserves_raise; apply _
  | |- preserves _ (lift _) => apply preserves_lift; apply _
  | |- preserves _ get => apply preserves_get; apply _
  | |- preserves _ (log _ _ _) => unfold log
  | |- preserves _ (modify _) => apply preserves_modify; intros ?
  | |- preserves _ _ => solve [eauto 2]
  | |- preserves _ (match ?x with _ => _ end) => destruct x
  end.

Lemma emits_only_emit (P : Event -> Prop) e s : P e -> emits_only P s (emit e s).
Proof. intros HP. exists [e]. split; [done | by constructor]. Qed.

Lemma emits_only_same P s s' : trace s' = trace s -> emits_only P s s'.
Proof. intros Ht. exists []. by rewrite Ht, app_nil_r. Qed.

Lemma count_none (p : Event -> bool) t :
  Forall (fun e => p e = false) t -> List.filter p t = [].
Proof. induction 1 as [|e t He _ IH]; simpl; [done|]. by rewrite He. Qed.

Section Polling.
Variable R : State -> State -> Prop.
Context `{!Reflexive R, !Transitive R}.
Hypothesis R_log : forall lvl fmt args s, R s (emit (Log lvl fmt args) s).
Hypothesis R_lookup : forall pullspec reg s,
  R s (emit (GetManifestDigests pullspec reg (insecure self) (secret self)) s).
Hypothesis R_time : forall s, R s (emit Time s).
Hypothesis R_sleep : forall seconds s, R s (emit (Sleep seconds) s).

Lemma preserves_lookup_once pullspec reg : preserves R (lookup_once env self pullspec reg).
Proof.
  unfold lookup_once, call_get_manifest_digests, handle_http_error, check_digests.
  split_preserves; auto.
Qed.

Lemma preserves_retry_loop fuel : forall start pullspec reg,
  preserves R (retry_loop env self fuel start pullspec reg).
Proof.
  induction fuel as [|fuel IH]; intros start pullspec reg; simpl.
  - split_preserves.
  - pose proof preserves_lookup_once. unfold call_time, call_sleep. split_preserves; auto.
Qed.

Lemma preserves_check_crane fuel pullspec reg media_types :
  preserves R (check_crane env self fuel pullspec reg media_types).
Proof.
  pose proof preserves_retry_loop.
  unfold check_crane, retry_if_not_found, call_time. split_preserves; auto.
Qed.

End Polling.

Lemma preserves_expectations R `{!Reflexive R, !Transitive R} :
  (forall lvl fmt args s, R s (emit (Log lvl fmt args) s)) ->
  (forall b s, R s (set_expect_v2schema2 b s)) ->
  (forall b s, R s (set_expect_v2schema2list b s)) ->
  (forall b s, R s (set_expect_v2schema2list_only b s)) ->
  preserves R (set_manifest_list_expectations workflow).
Proof.
  intros Hlog H2 Hl Ho. unfold set_manifest_list_expectations. split_preserves; auto.
Qed.

(** *** [run], step by step *)

Lemma run_split fuel s :
  build_process_failed workflow = false ->
  run env self workflow fuel s =
    match before_pull env self workflow fuel s with
    | (Ok None, s1) => (Ok None, s1)
    | (Ok (Some (inl result)), s1) => (Ok (Some result), s1)
    | (Ok (Some (inr media_types)), s1) =>
        match pullspec_of workflow with
        | Some pullspec =>
            match pull_and_inspect env self pullspec media_types s1 with
            | (Ok result, s2) => (Ok (Some result), s2)
            | (Raise e, s2) => (Raise e, s2)
            end
        | None => (Raise (AssertionError ""), s1)
        end
    | (Raise e, s1) => (Raise e, s1)
    end.
Proof.
  intros Hfailed. unfold run, before_pull, pullspec_of. rewrite Hfailed.
  unfold bind, ret, raise.
  destruct (set_manifest_list_expectations workflow s) as [[[]|e] s1]; [|done].
  destruct (unique_images workflow) as [|image images]; [done|].
  destruct (pulp_registries workflow) as [|reg regs]; [done|].
  destruct (server_side_sync reg).
  - by destruct (check_crane _ _ _ _ _ _ _) as [[[[result|media_types]|]|e] s2].
  - done.
Qed.

Lemma preserves_before_pull R `{!Reflexive R, !Transitive R} fuel :
  (forall e s, is_docker_call e = false -> R s (emit e s)) ->
  (forall b s, R s (set_expect_v2schema2 b s)) ->
  (forall b s, R s (set_expect_v2schema2list b s)) ->
  (forall b s, R s (set_expect_v2schema2list_only b s)) ->
  preserves R (before_pull env self workflow fuel).
Proof.
  intros He H2 Hl Ho.
  pose proof (preserves_expectations R ltac:(by intros; apply He) H2 Hl Ho).
  pose proof (preserves_check_crane R ltac:(by intros; apply He) ltac:(by intros; apply He)
                ltac:(by intros; apply He) ltac:(by intros; apply He) fuel).
  unfold before_pull. split_preserves.
Qed.

Lemma pull_and_inspect_cases pullspec media_types s :
  let name := to_str env pullspec in
  let pulled := emit (PullImage pullspec (insecure self)) s in
  let inspected := emit (InspectImage name) pulled in
  let deferred := emit (DeferRemoval name) inspected in
  pull_and_inspect env self pullspec media_types s =
    match pull_image env (trace s) pullspec (insecure self) with
    | Some e => (Raise e, pulled)
    | None =>
        match inspect_image env (trace pulled) name with
        | Raise e => (Raise e, inspected)
        | Ok None => (Raise (KeyError "Id"), deferred)
        | Ok (Some new_id) =>
            (Ok (sorted media_types),
             set_image_id (Some new_id)
               (emit (Log DEBUG "image ID changed from %s to %s"
                        [render_id (image_id s); new_id]) deferred))
        end
    end.
Proof.
  unfold pull_and_inspect, call_pull_image, call_inspect_image. run_monad.
  destruct (pull_image env (trace s) pullspec (insecure self)); [done|]. simpl.
  by destruct (inspect_image env _ _) as [[?|]|?].
Qed.

Lemma id_kept_before_pull fuel : preserves id_kept (before_pull env self workflow fuel).
Proof. by apply preserves_before_pull; try apply _. Qed.

Lemma no_docker_call_before_pull fuel :
  preserves (emits_only (fun e => is_docker_call e = false))
    (before_pull env self workflow fuel).
Proof.
  apply preserves_before_pull; try apply _.
  - intros e s He. by apply emits_only_emit.
  - intros b s. by apply emits_only_same.
  - intros b s. by apply emits_only_same.
  - intros b s. by apply emits_only_same.
Qed.

Lemma docker_call_position tq tail t1 e t2 :
  Forall (fun e => is_docker_call e = false) tq ->
  tq ++ tail = t1 ++ e :: t2 ->
  is_docker_call e = true ->
  exists k, t1 = tq ++ k /\ tail = k ++ e :: t2.
Proof.
  intros Hquiet Heq He. revert t1 Heq.
  induction Hquiet as [|x tq Hx _ IH]; intros t1 Heq; [by exists t1|].
  destruct t1 as [|y t1]; simplify_eq/=; [congruence|].
  destruct (IH t1) as (k & -> & ->); [done|]. by exists k.
Qed.

(** The trace [run] adds for a build that has not failed: a part without
    docker tasker calls, and then nothing, or the pull and what follows
    it. *)
Lemma run_trace_shape fuel s :
  build_process_failed workflow = false ->
  exists tq tail,
    trace (snd (run env self workflow fuel s)) = trace s ++ tq ++ tail /\
    Forall (fun e => is_docker_call e = false) tq /\
    (tail = [] \/
     exists pullspec,
       pullspec_of workflow = Some pullspec /\
       let name := to_str env pullspec in
       let pull := PullImage pullspec (insecure self) in
       ((tail = [pull] /\
         is_Some (pull_image env (trace s ++ tq) pullspec (insecure self))) \/
        (pull_image env (trace s ++ tq) pullspec (insecure self) = None /\
         ((tail = [pull; InspectImage name] /\
           is_ok (inspect_image env (trace s ++ tq ++ [pull]) name) = false) \/
          (exists rest,
             tail = [pull; InspectImage name; DeferRemoval name] ++ rest /\
             Forall (fun e => is_docker_call e = false) rest /\
             is_ok (inspect_image env (trace s ++ tq ++ [pull]) name) = true))))).
Proof.
  intros Hfailed. rewrite run_split by done.
  destruct (no_docker_call_before_pull fuel s) as (tq & Ht & Hquiet).
  destruct (before_pull env self workflow fuel s) as [[[[result|media_types]|]|e] s1];
    simpl in Ht; simpl.
  1, 3, 4: exists tq, []; rewrite app_nil_r; split; [done|]; split; [done|]; by left.
  destruct (pullspec_of workflow) as [pullspec|]; simpl;
    [|exists tq, []; rewrite app_nil_r; split; [done|]; split; [done|]; by left].
  rewrite pull_and_inspect_cases. cbv zeta.
  destruct (pull_image env (trace s1) pullspec (insecure self)) as [exn|] eqn:Hpull;
    rewrite Ht in Hpull.
  { exists tq, [PullImage pullspec (insecure self)]. norm_trace. rewrite Ht, <- app_assoc.
    split; [done|]. split; [done|]. right. exists pullspec. split; [done|].
    left. split; [done|]. rewrite Hpull. eauto. }
  change (trace (emit (PullImage pullspec (insecure self)) s1))
    with (trace s1 ++ [PullImage pullspec (insecure self)]).
  destruct (inspect_image env (trace s1 ++ [PullImage pullspec (insecure self)])
              (to_str env pullspec)) as [[new_id|]|e] eqn:Hinspect;
    rewrite Ht, <- app_assoc in Hinspect.
  - exists tq, ([PullImage pullspec (insecure self); InspectImage (to_str env pullspec);
                 DeferRemoval (to_str env pullspec)] ++
                [Log DEBUG "image ID changed from %s to %s" [render_id (image_id s1); new_id]]).
    norm_trace. rewrite Ht, <- !app_assoc. split; [done|]. split; [done|].
    right. exists pullspec.
    split; [done|]. right. split; [done|]. right. eexists. split; [done|].
    rewrite Hinspect. split; [by repeat constructor | done].
  - exists tq, ([PullImage pullspec (insecure self); InspectImage (to_str env pullspec);
                 DeferRemoval (to_str env pullspec)] ++ []).
    norm_trace. rewrite Ht, <- !app_assoc. split; [done|]. split; [done|].
    right. exists pullspec.
    split; [done|]. right. split; [done|]. right. eexists. split; [done|].
    rewrite Hinspect. split; [constructor | done].
  - exists tq, [PullImage pullspec (insecure self); InspectImage (to_str env pullspec)].
    norm_trace. rewrite Ht, <- !app_assoc. split; [done|]. split; [done|].
    right. exists pullspec.
    split; [done|]. right. split; [done|]. left. by rewrite Hinspect.
Qed.

(** X17: the docker tasker calls of [run] are, in this order, a pull of the
    first unique image at the first Pulp registry, the inspection of that
    image and the registration of its removal, or the first of them, the
    first two, or none: each is made only when the one before has returned.
    For a failed build, or without a unique image or a Pulp registry, there
    is none. *)
Theorem run_docker_calls (fuel : nat) (s : State) :
  exists t, trace (snd (run env self workflow fuel s)) = trace s ++ t /\
    if build_process_failed workflow then List.filter is_docker_call t = []
    else match pullspec_of workflow with
         | Some pullspec =>
             List.filter is_docker_call t `prefix_of` docker_calls env self pullspec /\
             (forall t1 t2,
                t = t1 ++ InspectImage (to_str env pullspec) :: t2 ->
                exists t0,
                  t1 = t0 ++ [PullImage pullspec (insecure self)] /\
                  pull_image env (trace s ++ t0) pullspec (insecure self) = None) /\
             (forall t1 t2,
                t = t1 ++ DeferRemoval (to_str env pullspec) :: t2 ->
                exists t0,
                  t1 = t0 ++ [InspectImage (to_str env pullspec)] /\
                  is_ok (inspect_image env (trace s ++ t0) (to_str env pullspec)) = true)
         | None => List.filter is_docker_call t = []
         end.
Proof.
  destruct (build_process_failed workflow) eqn:Hfailed.
  { unfold run. rewrite Hfailed. run_monad. norm_trace. by eexists. }
  destruct (run_trace_shape fuel s Hfailed) as (tq & tail & Ht & Hquiet & Htail).
  exists (tq ++ tail). split; [done|].
  pose proof (count_none is_docker_call tq Hquiet) as Hnone.
  destruct Htail as [->|(pullspec & Hspec & Htail)].
  { rewrite List.filter_app, Hnone. simpl.
    destruct (pullspec_of workflow) as [pullspec|]; [|done].
    split; [apply prefix_nil|].
    split; intros t1 t2 Heq;
      destruct (docker_call_position tq [] t1 _ t2 Hquiet Heq eq_refl) as (k & _ & Hk);
      by destruct k. }
  rewrite Hspec. cbv zeta in Htail. rewrite List.filter_app, Hnone. simpl.
  destruct Htail as [[-> Hpulled]|[Hpulled [[-> Hinspected]|(rest & -> & Hrest & Hinspected)]]].
  - split; [by eexists|].
    split; intros t1 t2 Heq;
      destruct (docker_call_position tq _ t1 _ t2 Hquiet Heq eq_refl) as (k & -> & Hk);
      destruct k as [|a [|b k]]; simplify_eq/=.
  - split; [by eexists|].
    split; intros t1 t2 Heq;
      destruct (docker_call_position tq _ t1 _ t2 Hquiet Heq eq_refl) as (k & -> & Hk);
      destruct k as [|a [|b [|c k]]]; simplify_eq/=.
    by exists tq.
  - pose proof (count_none is_docker_call rest Hrest) as Hnone'.
    split; [simpl; rewrite Hnone'; by exists []|].
    split; intros t1 t2 Heq;
      destruct (docker_call_position tq _ t1 _ t2 Hquiet Heq eq_refl) as (k & -> & Hk);
      destruct k as [|a [|b [|c [|d k]]]]; simplify_eq/=.
    + by exists tq.
    + rewrite Forall_forall in Hrest.
      assert (Hin : InspectImage (to_str env pullspec) ∈ d :: k ++
                      InspectImage (to_str env pullspec) :: t2)
        by (apply elem_of_cons; right; apply elem_of_app; right; apply elem_of_cons; by left).
      by specialize (Hrest _ Hin).
    + exists (tq ++ [PullImage pullspec (insecure self)]).
      by rewrite <- !app_assoc.
    + rewrite Forall_forall in Hrest.
      assert (Hin : DeferRemoval (to_str env pullspec) ∈ d :: k ++
                      DeferRemoval (to_str env pullspec) :: t2)
        by (apply elem_of_cons; right; apply elem_of_app; right; apply elem_of_cons; by left).
      by specialize (Hrest _ Hin).
Qed.

(** X18: for a failed build [run] returns the empty list and sets
    [builder.image_id] to [None].  Otherwise [builder.image_id] changes
    only when [run] returns after it has pulled and inspected the image,
    and it is then the ['Id'] of the inspection, logged as the change from
    the identifier held before; on every other path, the ones that end in
    an exception included, it is left as it was. *)
Theorem run_image_id (fuel : nat) (s : State) :
  let r := run env self workflow fuel s in
  if build_process_failed workflow
  then fst r = Ok (Some []) /\ image_id (snd r) = None
  else
    match fst r with
    | Ok (Some result) =>
        image_id (snd r) = image_id s \/
        exists pullspec t0 new_id,
          pullspec_of workflow = Some pullspec /\
          trace (snd r) = trace s ++ t0 ++ docker_calls env self pullspec ++
            [Log DEBUG "image ID changed from %s to %s" [render_id (image_id s); new_id]] /\
          inspect_image env (trace s ++ t0 ++ [PullImage pullspec (insecure self)])
            (to_str env pullspec) = Ok (Some new_id) /\
          image_id (snd r) = Some new_id
    | _ => image_id (snd r) = image_id s
    end.
Proof.
  simpl. destruct (build_process_failed workflow) eqn:Hfailed.
  { unfold run. rewrite Hfailed. by run_monad. }
  rewrite run_split by done.
  destruct (no_docker_call_before_pull fuel s) as (t1 & Ht1 & _).
  pose proof (id_kept_before_pull fuel s) as Hid. unfold id_kept in Hid.
  destruct (before_pull env self workflow fuel s) as [[[[result|media_types]|]|e] s1];
    simpl in Ht1, Hid; simpl; auto.
  destruct (pullspec_of workflow) as [pullspec|]; simpl; [|done].
  rewrite pull_and_inspect_cases.
  destruct (pull_image env (trace s1) pullspec (insecure self)); simpl; [done|].
  destruct (inspect_image env _ _) as [[new_id|]|e] eqn:Hinspect; simpl; [|done|done].
  right. exists pullspec, t1, new_id. split; [done|].
  rewrite Ht1, <- !app_assoc in *. simpl in *. by rewrite Hid.
Qed.

(** X19: when the build has not failed and there is no unique image or no
    Pulp registry, [run] ends where [set_manifest_list_expectations] has
    ended, with the expectations set and nothing else done, and it raises
    [AssertionError] if that step returned. *)
Theorem run_requires_image_and_registry (fuel : nat) (s : State) :
  build_process_failed workflow = false ->
  unique_images workflow = [] \/ pulp_registries workflow = [] ->
  snd (run env self workflow fuel s) = snd (set_manifest_list_expectations workflow s) /\
  fst (run env self workflow fuel s) =
    match fst (set_manifest_list_expectations workflow s) with
    | Ok _ => Raise (AssertionError "")
    | Raise e => Raise e
    end.
Proof.
  intros Hfailed Hempty. unfold run. rewrite Hfailed. unfold bind, raise.
  destruct (set_manifest_list_expectations workflow s) as [[[]|e] s1]; [|done].
  destruct Hempty as [->| ->]; [done|]. by destruct (unique_images workflow).
Qed.

(** X20: unless the first Pulp registry is synchronised on the server side,
    [run] does not ask Crane for digests, reads no clock and does not
    sleep, whatever the expectations are. *)
Theorem run_polls_only_with_server_side_sync (fuel : nat) (s : State) :
  (forall reg regs, pulp_registries workflow = reg :: regs -> server_side_sync reg = false) ->
  exists t, trace (snd (run env self workflow fuel s)) = trace s ++ t /\
            Forall (fun e => is_lookup e = false /\ e <> Time /\ is_sleep e = false) t.
Proof.
  intros Hsync.
  set (P := fun e => is_lookup e = false /\ e <> Time /\ is_sleep e = false).
  destruct (build_process_failed workflow) eqn:Hfailed.
  { unfold run. rewrite Hfailed. run_monad. norm_trace. eexists. split; [done|].
    by repeat constructor. }
  rewrite run_split by done.
  assert (Hbefore : preserves (emits_only P) (before_pull env self workflow fuel)).
  { pose proof (preserves_expectations (emits_only P)
                  ltac:(by intros; apply emits_only_emit)
                  ltac:(by intros; apply emits_only_same)
                  ltac:(by intros; apply emits_only_same)
                  ltac:(by intros; apply emits_only_same)).
    unfold before_pull.
    destruct (unique_images workflow) as [|image images]; [split_preserves|].
    destruct (pulp_registries workflow) as [|reg regs] eqn:Hregs; [split_preserves|].
    rewrite (Hsync _ _ eq_refl). split_preserves. }
  destruct (Hbefore s) as (t1 & Ht1 & Hall1).
  destruct (before_pull env self workflow fuel s) as [[[[result|media_types]|]|e] s1];
    simpl in Ht1; simpl; try by exists t1.
  destruct (pullspec_of workflow) as [pullspec|]; simpl; [|by exists t1].
  rewrite pull_and_inspect_cases.
  destruct (pull_image env (trace s1) pullspec (insecure self)); simpl.
  { exists (t1 ++ [PullImage pullspec (insecure self)]). rewrite app_assoc, <- Ht1.
    split; [done|]. apply Forall_app. split; [done|]. by repeat constructor. }
  destruct (inspect_image env _ _) as [[new_id|]|e]; simpl;
    eexists (t1 ++ _); rewrite Ht1, <- !app_assoc; (split; [reflexivity|]);
    (apply Forall_app; split; [done|]); by repeat constructor.
Qed.

(** *** The expectations, once more *)

(** X21: [set_manifest_list_expectations] only ever raises the two manifest
    list expectations and lowers the schema 2 expectation, and it lowers
    the latter only where it leaves the manifest list as the only thing
    expected; without a result of group_manifests it changes nothing; it
    does not touch [builder.image_id]; and a second call leaves the
    expectations as the first has left them. *)
Theorem expectations_only_tighten (s : State) :
  let s' := snd (set_manifest_list_expectations workflow s) in
  (expect_v2schema2list s = true -> expect_v2schema2list s' = true) /\
  (expect_v2schema2list_only s = true -> expect_v2schema2list_only s' = true) /\
  (expect_v2schema2 s' = true -> expect_v2schema2 s = true) /\
  (expect_v2schema2 s = true -> expect_v2schema2 s' = false ->
   expect_v2schema2list_only s' = true /\ expect_v2schema2list s' = true) /\
  (group_manifests_result workflow = false ->
   set_manifest_list_expectations workflow s = (Ok tt, s)) /\
  image_id s' = image_id s /\
  expectations (snd (set_manifest_list_expectations workflow s')) = expectations s'.
Proof.
  unfold set_manifest_list_expectations, expectations. run_monad.
  repeat (case_match; simpl in *; simplify_eq); repeat split; try done;
    intros; simpl in *; congruence.
Qed.

(** X22: the platforms are looked up in their order, up to the first that
    maps to amd64.  If the platforms before it all have an entry in the
    mapping, the step returns having set only [expect_v2schema2list], with
    no log record, whatever comes after it, a platform without an entry
    included; and if the first platform that is not mapped to another
    architecture has no entry at all, the step raises [KeyError] for it,
    with [expect_v2schema2list] set already. *)
Theorem expectations_stop_at_amd64 (s : State) (mapping : gmap string string)
    (before after : list string) (plat : string) :
  group_manifests_result workflow = true ->
  platforms workflow = Some (before ++ plat :: after) ->
  platform_to_goarch workflow = Some mapping ->
  Forall (fun p => exists arch, mapping !! p = Some arch /\ arch <> "amd64") before ->
  (mapping !! plat = Some "amd64" ->
   set_manifest_list_expectations workflow s = (Ok tt, set_expect_v2schema2list true s)) /\
  (mapping !! plat = None ->
   set_manifest_list_expectations workflow s
   = (Raise (KeyError plat), set_expect_v2schema2list true s)).
Proof.
  intros Hgroup Hplatforms Hmapping Hbefore.
  unfold set_manifest_list_expectations. rewrite Hgroup, Hplatforms, Hmapping.
  assert (Hne : before ++ plat :: after <> []) by (by destruct before).
  destruct (before ++ plat :: after) as [|p l] eqn:Hl; [done|]. rewrite <- Hl.
  run_monad. rewrite (amd64_built_break mapping before plat after Hbefore).
  split; intros ->; done.
Qed.

(** *** The media types [run] returns *)

Lemma insert_sorted_Sorted x l :
  Sorted (fun a b => String.leb a b = true) l ->
  Sorted (fun a b => String.leb a b = true) (insert_sorted x l).
Proof.
  induction 1 as [|y l Hl IH Hhd]; simpl; [by repeat constructor|].
  destruct (String.leb x y) eqn:Hxy.
  - constructor; [by constructor | by constructor].
  - constructor; [done|].
    destruct (String.leb_total x y) as [Hle|Hle]; [congruence|].
    destruct Hhd as [|z l' Hyz]; simpl; [by constructor|].
    destruct (String.leb x z); by constructor.
Qed.

Lemma sorted_Sorted l : Sorted (fun a b => String.leb a b = true) (sorted l).
Proof. induction l as [|x l IH]; simpl; [constructor | by apply insert_sorted_Sorted]. Qed.

Lemma check_crane_result fuel pullspec reg media_types s :
  match retry_if_not_found env self fuel pullspec (uri reg) s with
  | (Ok (Some digests), s1) =>
      let list_found := digests_bool env digests && truthy (v2_list digests) in
      let schema2_found := digests_bool env digests && truthy (v2 digests) in
      let found :=
        media_types ++ (if list_found then [MEDIA_TYPE_DOCKER_V2_MANIFEST_LIST env] else []) in
      fst (check_crane env self fuel pullspec reg media_types s)
      = Ok (Some (if list_found && expect_v2schema2list_only s1
                  then inl [MEDIA_TYPE_DOCKER_V2_MANIFEST_LIST env]
                  else if schema2_found
                       then inl (sorted (found ++ [MEDIA_TYPE_DOCKER_V2_SCHEMA2 env]))
                       else inr found))
  | (Ok None, s1) => fst (check_crane env self fuel pullspec reg media_types s) = Ok None
  | (Raise e, s1) => fst (check_crane env self fuel pullspec reg media_types s) = Raise e
  end.
Proof.
  destruct (retry_if_not_found env self fuel pullspec (uri reg) s) as [[[digests|]|e] s1]
    eqn:Hpoll; cbv beta iota zeta; unfold check_crane; unfold bind at 1; rewrite Hpoll;
    [|reflexivity|reflexivity].
  run_monad.
  destruct (digests_bool env digests); simpl; [|by rewrite app_nil_r].
  destruct (truthy (v2_list digests)); simpl.
  - destruct (expect_v2schema2list_only s1); simpl; [done|].
    by destruct (truthy (v2 digests)).
  - destruct (truthy (v2 digests)); simpl; by rewrite app_nil_r.
Qed.

Lemma before_pull_cases fuel s :
  match set_manifest_list_expectations workflow s with
  | (Raise e, s0) => before_pull env self workflow fuel s = (Raise e, s0)
  | (Ok _, s0) =>
      match unique_images workflow, pulp_registries workflow with
      | image :: _, reg :: _ =>
          before_pull env self workflow fuel s =
            (if server_side_sync reg
             then check_crane env self fuel (set_registry (Some (uri reg)) image) reg
                    (media_types_of_conf env workflow)
             else ret (Some (inr (media_types_of_conf env workflow)))) s0
      | _, _ => before_pull env self workflow fuel s = (Raise (AssertionError EmptyString), s0)
      end
  end.
Proof.
  unfold before_pull, bind, raise.
  destruct (set_manifest_list_expectations workflow s) as [[[]|e] s0]; [|done].
  destruct (unique_images workflow) as [|image images]; [done|].
  by destruct (pulp_registries workflow) as [|reg regs].
Qed.

(** X23: the list [run] returns for a build that has not failed is sorted,
    and it is determined by what Crane has answered.  Without server side
    synchronisation it holds the media types of the configured plugins
    (schema 1 for each pulp_sync entry, v1 for each pulp_push entry).  With
    it, and with [digests] the answer the poller has returned: if [digests]
    has a manifest list digest and only the manifest list is expected, the
    list is the manifest list media type alone; otherwise it holds the
    media types of the configured plugins, the manifest list media type if
    and only if [digests] has a manifest list digest, and the schema 2
    media type if and only if [digests] has a schema 2 digest (a [digests]
    that is false as a whole counts as having neither). *)
Theorem run_media_types (fuel : nat) (s : State) (result : list string) :
  build_process_failed workflow = false ->
  fst (run env self workflow fuel s) = Ok (Some result) ->
  Sorted (fun a b => String.leb a b = true) result /\
  (exists image images reg regs,
     unique_images workflow = image :: images /\
     pulp_registries workflow = reg :: regs /\
     let pullspec := set_registry (Some (uri reg)) image in
     let configured := media_types_of_conf env workflow in
     if server_side_sync reg then
       exists digests s1,
         retry_if_not_found env self fuel pullspec (uri reg)
           (snd (set_manifest_list_expectations workflow s))
         = (Ok (Some digests), s1) /\
         let list_found := digests_bool env digests && truthy (v2_list digests) in
         let schema2_found := digests_bool env digests && truthy (v2 digests) in
         let found :=
           configured
           ++ (if list_found then [MEDIA_TYPE_DOCKER_V2_MANIFEST_LIST env] else [])
           ++ (if schema2_found then [MEDIA_TYPE_DOCKER_V2_SCHEMA2 env] else []) in
         if list_found && expect_v2schema2list_only s1
         then result = [MEDIA_TYPE_DOCKER_V2_MANIFEST_LIST env]
         else result = sorted found /\ result ≡ₚ found
     else result = sorted configured /\ result ≡ₚ configured) /\
  (forall m, m ∈ media_types_of_conf env workflow <->
     (m = MEDIA_TYPE_DOCKER_V2_SCHEMA1 env /\
      PLUGIN_PULP_SYNC_KEY env ∈ postbuild_plugins_conf workflow) \/
     (m = MEDIA_TYPE_DOCKER_V1 env /\
      PLUGIN_PULP_PUSH_KEY env ∈ postbuild_plugins_conf workflow)).
Proof.
  intros Hfailed Hrun. rewrite run_split in Hrun by done.
  assert (Hpull : forall pullspec media_types s1,
    fst (match pull_and_inspect env self pullspec media_types s1 with
         | (Ok r, s2) => (Ok (Some r), s2)
         | (Raise e, s2) => (Raise e, s2)
         end) = Ok (Some result) ->
    result = sorted media_types).
  { intros pullspec media_types s1. rewrite pull_and_inspect_cases.
    destruct (pull_image env _ _ _); [done|].
    destruct (inspect_image env _ _) as [[new_id|]|e]; try done. by intros [= <-]. }
  assert (Hshape :
    exists image images reg regs,
      unique_images workflow = image :: images /\
      pulp_registries workflow = reg :: regs /\
      let pullspec := set_registry (Some (uri reg)) image in
      let configured := media_types_of_conf env workflow in
      if server_side_sync reg then
        exists digests s1,
          retry_if_not_found env self fuel pullspec (uri reg)
            (snd (set_manifest_list_expectations workflow s))
          = (Ok (Some digests), s1) /\
          let list_found := digests_bool env digests && truthy (v2_list digests) in
          let schema2_found := digests_bool env digests && truthy (v2 digests) in
          let found :=
            configured
            ++ (if list_found then [MEDIA_TYPE_DOCKER_V2_MANIFEST_LIST env] else [])
            ++ (if schema2_found then [MEDIA_TYPE_DOCKER_V2_SCHEMA2 env] else []) in
          if list_found && expect_v2schema2list_only s1
          then result = [MEDIA_TYPE_DOCKER_V2_MANIFEST_LIST env]
          else result = sorted found
      else result = sorted configured).
  { pose proof (before_pull_cases fuel s) as Hbefore.
    destruct (set_manifest_list_expectations workflow s) as [[[]|e] s0];
      [|by rewrite Hbefore in Hrun].
    unfold pullspec_of in Hrun.
    destruct (unique_images workflow) as [|image images]; [by rewrite Hbefore in Hrun|].
    destruct (pulp_registries workflow) as [|reg regs]; [by rewrite Hbefore in Hrun|].
    exists image, images, reg, regs. split; [done|]. split; [done|]. cbv zeta.
    rewrite Hbefore in Hrun. clear Hbefore. simpl.
    destruct (server_side_sync reg).
    - pose proof (check_crane_result fuel (set_registry (Some (uri reg)) image) reg
                    (media_types_of_conf env workflow) s0) as Hcc.
      destruct (retry_if_not_found env self fuel (set_registry (Some (uri reg)) image)
                  (uri reg) s0) as [[[digests|]|e] s1];
        destruct (check_crane env self fuel _ reg _ s0) as [r s2]; simpl in Hcc; subst r;
        [|done|done].
      exists digests, s1. split; [done|].
      destruct (digests_bool env digests && truthy (v2_list digests)) eqn:Hlist; simpl in *.
      + destruct (expect_v2schema2list_only s1); simpl in *; [by injection Hrun as <-|].
        destruct (digests_bool env digests && truthy (v2 digests)); simpl in *.
        * injection Hrun as <-. by rewrite <- ?app_assoc, ?app_nil_r.
        * apply Hpull in Hrun. subst result. by rewrite <- ?app_assoc, ?app_nil_r.
      + destruct (digests_bool env digests && truthy (v2 digests)); simpl in *.
        * injection Hrun as <-. by rewrite <- ?app_assoc, ?app_nil_r.
        * apply Hpull in Hrun. subst result. by rewrite <- ?app_assoc, ?app_nil_r.
    - unfold ret in Hrun. simpl in Hrun. by apply Hpull in Hrun. }
  destruct Hshape as (image & images & reg & regs & Himages & Hregs & Hshape).
  split; [|split].
  - cbv zeta in Hshape. destruct (server_side_sync reg).
    + destruct Hshape as (digests & s1 & _ & Hres).
      destruct (_ && expect_v2schema2list_only s1);
        [subst result; by repeat constructor | subst result; apply sorted_Sorted].
    + subst result. apply sorted_Sorted.
  - exists image, images, reg, regs. split; [done|]. split; [done|]. cbv zeta in *.
    destruct (server_side_sync reg).
    + destruct Hshape as (digests & s1 & Hpoll & Hres). exists digests, s1. split; [done|].
      destruct (_ && expect_v2schema2list_only s1); [done|].
      split; [done|]. rewrite Hres. apply PullBaseImageSpec.sorted_perm.
    + split; [done|]. rewrite Hshape. apply PullBaseImageSpec.sorted_perm.
  - intros m. unfold media_types_of_conf. rewrite list_elem_of_In, in_flat_map. split.
    + intros (name & Hname%list_elem_of_In & Hm%list_elem_of_In).
      apply elem_of_app in Hm as [Hm|Hm]; case_match; try (by apply elem_of_nil in Hm);
        apply list_elem_of_singleton in Hm as ->;
        match goal with H : String.eqb _ _ = true |- _ => apply String.eqb_eq in H as <- end;
        auto.
    + intros [[-> Hin]|[-> Hin]]; eexists; (split; [by apply list_elem_of_In|]);
        apply list_elem_of_In, elem_of_app; rewrite String.eqb_refl;
        [left | right]; by apply list_elem_of_singleton.
Qed.

End Facts.

Import Samples.

(** *** The model on examples *)

(** Answers [404; 404; no schema 2 digest; schema 2 digest] when a schema 2
    manifest is expected: four lookups, three sleeps, and the last answer is
    returned. *)
Example four_lookups :
  let result := retry_if_not_found catching_up_env poller 10 fedora "crane.example.com"
                  poller_state in
  fst result
    = Ok (Some (mkManifestDigest (Some "sha256:1111") (Some "sha256:2222") None)) /\
  count is_lookup (trace (snd result)) = 4%nat /\
  List.filter (fun e => match e with Sleep _ => true | _ => false end) (trace (snd result))
    = [Sleep 5; Sleep 5; Sleep 5].
Proof. repeat split; vm_compute; reflexivity. Qed.

Lemma http_failure_classification_witness :
  retry_loop (failing_crane_env 500) poller 1 0 fedora "crane.example.com" poller_state
  = (Raise (HTTPError (Some (mkResponse 500 "reason" "headers" "content"))
              (Some (mkRequest "https://crane.example.com/v2/fedora/manifests/28"
                       "request headers"))),
     emit (GetManifestDigests fedora "crane.example.com" false None) poller_state).
Proof.
  destruct (http_failure_classification (failing_crane_env 500) poller 0 0 fedora
              "crane.example.com" poller_state
              (mkResponse 500 "reason" "headers" "content")
              (Some (mkRequest "https://crane.example.com/v2/fedora/manifests/28"
                       "request headers")))
    as (_ & _ & H & _).
  - reflexivity.
  - apply H; simpl; lia.
Defined.

(** C7: with a timeout of 10 seconds and a clock that shows 30 seconds
    more at the check, the message is [10 seconds exceeded]: it does not
    hold the 30 seconds that have elapsed. *)
Lemma timeout_message_names_the_timeout :
  fst (retry_if_not_found slow_crane_env poller 5 fedora "crane.example.com" poller_state)
    = Raise (CraneTimeoutError "10 seconds exceeded") /\
  time slow_crane_env [Time; GetManifestDigests fedora "crane.example.com" false None]
    - time slow_crane_env [] = 30 /\
  str_in (pretty 30) "10 seconds exceeded" = false.
Proof. repeat split; reflexivity. Qed.

Lemma timeout_checked_before_wait_witness :
  retry_loop slow_crane_env poller 5 0 fedora "crane.example.com" (emit Time poller_state)
  = (Raise (CraneTimeoutError "10 seconds exceeded"),
     emit Time (emit (GetManifestDigests fedora "crane.example.com" false None)
                  (emit Time poller_state))).
Proof.
  destruct (timeout_checked_before_wait slow_crane_env poller 4 0 fedora
              "crane.example.com" (emit Time poller_state)) as (H & _).
  destruct (H (emit (GetManifestDigests fedora "crane.example.com" false None)
                 (emit Time poller_state))) as (Hlate & _).
  - reflexivity.
  - apply Hlate. reflexivity.
Defined.

(** C8: with s390x as the only expected platform and no entry for it in
    the mapping, no expected platform maps to amd64, and yet the
    manifest-list-only mode is not entered: the derivation raises, and so
    does [run], before any lookup. *)
Lemma unmapped_platform_is_fatal :
  platforms s390x_workflow = Some ["s390x"] /\
  (exists mapping,
     platform_to_goarch s390x_workflow = Some mapping /\
     forall plat, plat ∈ ["s390x"] -> mapping !! plat <> Some "amd64") /\
  run list_only_env poller s390x_workflow 1 poller_state
  = (Raise (KeyError "s390x"), set_expect_v2schema2list true poller_state) /\
  expectations (snd (run list_only_env poller s390x_workflow 1 poller_state))
  = (true, true, false) /\
  count is_lookup (trace (snd (run list_only_env poller s390x_workflow 1 poller_state)))
  = 0%nat.
Proof.
  split; [reflexivity|]. split; [|repeat split; reflexivity].
  eexists. split; [reflexivity|].
  intros plat Hplat. apply list_elem_of_singleton in Hplat as ->. vm_compute. discriminate.
Qed.

Lemma manifest_list_expectations_witness :
  fst (run list_only_env poller ppc_workflow 1 poller_state)
  = Ok (Some ["application/vnd.docker.distribution.manifest.list.v2+json"]) /\
  check_digests (mkManifestDigest (Some "sha256:1111") (Some "sha256:2222") None)
    (mkState false true true None [])
  = (Ok None, emit (Log WARNING "Expected schema 2 manifest list" [])
                (mkState false true true None [])) /\
  run list_only_env poller s390x_workflow 1 poller_state
  = (Raise (KeyError "s390x"), set_expect_v2schema2list true poller_state).
Proof.
  split; [|split].
  - destruct (manifest_list_expectations list_only_env poller ppc_workflow poller_state)
      as (_ & _ & _ & _ & H & _).
    destruct (H ["ppc64le"] {[ "x86_64" := "amd64"; "ppc64le" := "ppc64le" ]})
      as (_ & _ & Hrun);
      [reflexivity | reflexivity | discriminate | reflexivity | | ].
    + repeat constructor. exists "ppc64le". split; [reflexivity | discriminate].
    + destruct (Hrun 0%nat fedora [] (mkPulpRegistry "crane.example.com" true) []
                  (mkManifestDigest None None (Some "sha256:3333"))) as [Hres _];
        [reflexivity | reflexivity | reflexivity | reflexivity | reflexivity | reflexivity
        | reflexivity | exact Hres].
  - destruct (manifest_list_expectations list_only_env poller ppc_workflow poller_state)
      as (_ & _ & _ & H & _).
    destruct (H 0%nat fedora "crane.example.com" (mkState false true true None [])
                (mkManifestDigest (Some "sha256:1111") (Some "sha256:2222") None)
                (mkState false true true None [])) as [_ Hreject]; [reflexivity|].
    apply Hreject. reflexivity.
  - destruct (manifest_list_expectations list_only_env poller s390x_workflow poller_state)
      as (_ & _ & _ & _ & _ & H & _).
    destruct (H ["s390x"] {[ "x86_64" := "amd64"; "ppc64le" := "ppc64le" ]} [] "s390x" [])
      as [_ Hrun]; [reflexivity | reflexivity | reflexivity | reflexivity | constructor
                   | reflexivity |].
    apply Hrun. reflexivity.
Defined.

(** *** More of the model on examples *)

Lemma poller_returns_expected_digests_witness :
  meets_expectations poller_state
    (mkManifestDigest (Some "sha256:1111") (Some "sha256:2222") None).
Proof.
  apply (poller_returns_expected_digests catching_up_env poller 10 fedora "crane.example.com"
           poller_state
           (snd (retry_if_not_found catching_up_env poller 10 fedora "crane.example.com"
                   poller_state))).
  vm_compute. reflexivity.
Defined.

Lemma ticking_clock_advances : clock_advances ticking_env.
Proof. intros h h'. simpl. rewrite slept_app. lia. Qed.

Lemma poller_ends_within_timeout_witness :
  fst (retry_if_not_found ticking_env poller 4 fedora "crane.example.com" poller_state)
    <> Ok None /\
  exists t,
    trace (snd (retry_if_not_found ticking_env poller 4 fedora "crane.example.com"
                  poller_state)) = trace poller_state ++ t /\
    (count is_lookup t <= 4)%nat.
Proof.
  apply (poller_ends_within_timeout ticking_env poller 4 fedora "crane.example.com"
           poller_state).
  - simpl. lia.
  - simpl. lia.
  - exact ticking_clock_advances.
  - vm_compute. lia.
Defined.

Lemma run_requires_image_and_registry_witness :
  fst (run list_only_env poller no_image_workflow 1 poller_state)
  = Raise (AssertionError EmptyString).
Proof.
  destruct (run_requires_image_and_registry list_only_env poller no_image_workflow 1
              poller_state) as [_ H].
  - reflexivity.
  - left. reflexivity.
  - rewrite H. reflexivity.
Defined.

Lemma run_polls_only_with_server_side_sync_witness :
  exists t,
    trace (snd (run list_only_env poller push_only_workflow 1 poller_state))
    = trace poller_state ++ t /\
    Forall (fun e => is_lookup e = false /\ e <> Time /\ is_sleep e = false) t.
Proof.
  apply (run_polls_only_with_server_side_sync list_only_env poller push_only_workflow 1
           poller_state).
  intros reg regs [= <- _]. reflexivity.
Defined.

Lemma expectations_only_tighten_witness :
  set_manifest_list_expectations push_only_workflow poller_state = (Ok tt, poller_state) /\
  expect_v2schema2list_only (snd (set_manifest_list_expectations ppc_workflow poller_state))
  = true.
Proof.
  split.
  - destruct (expectations_only_tighten push_only_workflow poller_state)
      as (_ & _ & _ & _ & H & _).
    apply H. reflexivity.
  - destruct (expectations_only_tighten ppc_workflow poller_state) as (_ & _ & _ & H & _).
    apply H; reflexivity.
Defined.

Lemma expectations_stop_at_amd64_witness :
  set_manifest_list_expectations mixed_workflow poller_state
  = (Ok tt, set_expect_v2schema2list true poller_state).
Proof.
  destruct (expectations_stop_at_amd64 mixed_workflow poller_state
              {[ "x86_64" := "amd64"; "ppc64le" := "ppc64le" ]}
              ["ppc64le"] ["s390x"] "x86_64") as [H _].
  - reflexivity.
  - reflexivity.
  - reflexivity.
  - repeat constructor. exists "ppc64le". split; [reflexivity | discriminate].
  - apply H. reflexivity.
Defined.

(** Crane comes to answer a schema 1 and a schema 2 digest and no manifest
    list: the schema 1 type of the configuration and the schema 2 type. *)
Lemma run_media_types_witness :
  fst (run catching_up_env poller sync_workflow 10 poller_state)
  = Ok (Some ["application/vnd.docker.distribution.manifest.v1+json";
              "application/vnd.docker.distribution.manifest.v2+json"]) /\
  Sorted (fun a b => String.leb a b = true)
    ["application/vnd.docker.distribution.manifest.v1+json";
     "application/vnd.docker.distribution.manifest.v2+json"] /\
  exists digests s1,
    retry_if_not_found catching_up_env poller 10 fedora_at_crane "crane.example.com"
      poller_state = (Ok (Some digests), s1) /\
    ["application/vnd.docker.distribution.manifest.v1+json";
     "application/vnd.docker.distribution.manifest.v2+json"]
    = sorted (["application/vnd.docker.distribution.manifest.v1+json"]
              ++ (if digests_bool catching_up_env digests && truthy (v2_list digests)
                  then ["application/vnd.docker.distribution.manifest.list.v2+json"]
                  else [])
              ++ (if digests_bool catching_up_env digests && truthy (v2 digests)
                  then ["application/vnd.docker.distribution.manifest.v2+json"]
                  else [])).
Proof.
  destruct (run_media_types catching_up_env poller sync_workflow 10 poller_state
              ["application/vnd.docker.distribution.manifest.v1+json";
               "application/vnd.docker.distribution.manifest.v2+json"])
    as (Hsorted & (image & images & reg & regs & Himages & Hregs & Hshape) & _).
  - reflexivity.
  - vm_compute. reflexivity.
  - split; [vm_compute; reflexivity|]. split; [exact Hsorted|].
    injection Himages as <- <-. injection Hregs as <- <-. cbv zeta in Hshape.
    change (server_side_sync (mkPulpRegistry "crane.example.com" true)) with true in Hshape.
    destruct Hshape as (digests & s1 & Hpoll & Hresult).
    exists digests, s1. split; [exact Hpoll|].
    assert (Honly : expect_v2schema2list_only s1 = false).
    { pose proof (f_equal snd Hpoll) as Hs. simpl in Hs. rewrite <- Hs. vm_compute. reflexivity. }
    rewrite Honly, andb_false_r in Hresult. exact (proj1 Hresult).
Defined.

(** Without server side synchronisation the image is pulled, inspected and
    registered for removal; the inspection follows a pull that returned. *)
Lemma run_docker_calls_witness :
  List.filter is_docker_call
    (trace (snd (run list_only_env poller push_only_workflow 1 poller_state)))
  = docker_calls list_only_env poller fedora_at_crane /\
  exists t0,
    [PullImage fedora_at_crane false] = t0 ++ [PullImage fedora_at_crane false] /\
    pull_image list_only_env (trace poller_state ++ t0) fedora_at_crane false = None.
Proof.
  split; [vm_compute; reflexivity|].
  destruct (run_docker_calls list_only_env poller push_only_workflow 1 poller_state)
    as (t & Ht & H).
  simpl in H. destruct H as (_ & Hinspect & _).
  assert (Hrun : t = [PullImage fedora_at_crane false;
                      InspectImage "crane.example.com/fedora:28";
                      DeferRemoval "crane.example.com/fedora:28";
                      Log DEBUG "image ID changed from %s to %s"
                        ["sha256:0000"; "sha256:1111"]]).
  { vm_compute in Ht. symmetry. exact Ht. }
  apply (Hinspect [PullImage fedora_at_crane false]
           [DeferRemoval "crane.example.com/fedora:28";
            Log DEBUG "image ID changed from %s to %s" ["sha256:0000"; "sha256:1111"]]).
  rewrite Hrun. reflexivity.
Defined.

End PulpPullSpec.

(** ** Properties of [PathSource.get] *)

Module DockSourceSpec.
Import Py DockSource.
Open Scope py_scope.

Section Facts.
Variable env : Env.
Variable self : PathSource.

Lemma copy_entries_step f rest t0 :
  let old := join env (schemeless_path self) f in
  let new := join env (tmpdir self) f in
  let checked := t0 ++ [Exists new; IsDir old; copy_for env self f t0] in
  copy_entries env self (f :: rest) t0 =
    if path_exists env t0 new then (Ok tt, t0 ++ [Exists new])
    else
      match (if isdir env (t0 ++ [Exists new]) old
             then copytree env (t0 ++ [Exists new; IsDir old]) old new
             else copy2 env (t0 ++ [Exists new; IsDir old]) old new) with
      | Some e => (Raise e, checked)
      | None => copy_entries env self rest checked
      end.
Proof.
  cbn [copy_entries]. unfold copy_for, call_exists, call_isdir, call_copytree, call_copy2, emit.
  unfold bind, Py.get, modify, ret, raise. cbn [fst snd].
  destruct (path_exists env t0 _); [done|].
  rewrite <- !app_assoc. cbn [app].
  destruct (isdir env _ _).
  - by destruct (copytree env _ _ _); rewrite <- app_assoc.
  - by destruct (copy2 env _ _ _); rewrite <- app_assoc.
Qed.

Lemma copy_entries_spec entries : forall t0,
  exists t copied,
    snd (copy_entries env self entries t0) = t0 ++ t /\
    copied `prefix_of` entries /\
    omap copy_of t
    = (fun f => (join env (schemeless_path self) f, join env (tmpdir self) f)) <$> copied /\
    omap check_of t `prefix_of` (join env (tmpdir self) <$> entries) /\
    (forall t1 e t2,
       t = t1 ++ e :: t2 -> is_Some (copy_of e) ->
       exists t1' f,
         t1 = t1' ++ [Exists (join env (tmpdir self) f);
                      IsDir (join env (schemeless_path self) f)] /\
         path_exists env (t0 ++ t1') (join env (tmpdir self) f) = false /\
         e = copy_for env self f (t0 ++ t1')).
Proof.
  induction entries as [|f rest IH]; intros t0.
  { exists [], []. simpl. rewrite app_nil_r. repeat split; try done.
    intros t1 e t2 Heq. by destruct t1. }
  rewrite copy_entries_step. cbv zeta.
  destruct (path_exists env t0 (join env (tmpdir self) f)) eqn:Hpresent.
  { exists [Exists (join env (tmpdir self) f)], []. simpl.
    split; [done|]. split; [apply prefix_nil|]. split; [done|].
    split; [by apply prefix_cons, prefix_nil|].
    intros t1 e t2 Heq Hsome. destruct t1 as [|x [|y t1]]; simplify_eq/=.
    by destruct Hsome. }
  set (old := join env (schemeless_path self) f).
  set (new := join env (tmpdir self) f).
  assert (Hcopy : is_Some (copy_of (copy_for env self f t0))).
  { unfold copy_for. destruct (isdir env _ _); simpl; eauto. }
  assert (Hpair : copy_of (copy_for env self f t0) = Some (old, new)).
  { unfold copy_for. by destruct (isdir env _ _). }
  assert (Hcheck : check_of (copy_for env self f t0) = None).
  { unfold copy_for. by destruct (isdir env _ _). }
  assert (Hcopy3 : omap copy_of [Exists new; IsDir old; copy_for env self f t0]
                   = [(old, new)]).
  { cbn. by rewrite Hpair. }
  assert (Hcheck3 : omap check_of [Exists new; IsDir old; copy_for env self f t0] = [new]).
  { cbn. by rewrite Hcheck. }
  assert (Hfirst : forall t' t1 e t2,
    [Exists new; IsDir old; copy_for env self f t0] ++ t' = t1 ++ e :: t2 -> is_Some (copy_of e) ->
    (t1 = [Exists new; IsDir old] /\ e = copy_for env self f t0) \/
    exists t1'', t1 = [Exists new; IsDir old; copy_for env self f t0] ++ t1'' /\ t' = t1'' ++ e :: t2).
  { intros t' t1 e t2 Heq Hsome. destruct t1 as [|x [|y [|z t1]]]; simplify_eq/=.
    - by destruct Hsome.
    - by destruct Hsome.
    - by left.
    - right. by eexists. }
  match goal with |- context [match ?c with Some _ => _ | None => _ end] =>
    destruct c as [exn|] end.
  - exists [Exists new; IsDir old; copy_for env self f t0], [f].
    split; [done|]. split; [by apply prefix_cons, prefix_nil|].
    rewrite Hcopy3, Hcheck3. split; [done|]. split; [by apply prefix_cons, prefix_nil|].
    intros t1 e t2 Heq Hsome.
    destruct (Hfirst [] t1 e t2) as [[-> ->]|(t1'' & -> & Hnil)]; [by rewrite app_nil_r|done| |].
    + exists [], f. by rewrite app_nil_r.
    + by destruct t1''.
  - destruct (IH (t0 ++ [Exists new; IsDir old; copy_for env self f t0]))
      as (t & copied & Ht & Hprefix & Hcopies & Hchecks & Hbefore).
    exists ([Exists new; IsDir old; copy_for env self f t0] ++ t), (f :: copied).
    split; [by rewrite Ht, <- app_assoc|]. split; [by apply prefix_cons|].
    rewrite !omap_app, Hcopy3, Hcheck3, Hcopies. split; [done|].
    split; [by apply prefix_cons|].
    intros t1 e t2 Heq Hsome.
    destruct (Hfirst t t1 e t2) as [[-> ->]|(t1'' & -> & Ht'')]; [done|done| |].
    + exists [], f. by rewrite app_nil_r.
    + destruct (Hbefore _ _ _ Ht'' Hsome) as (t1' & g & -> & Hfalse & ->).
      exists ([Exists new; IsDir old; copy_for env self f t0] ++ t1'), g.
      rewrite <- !app_assoc in *. done.
Qed.

Lemma copy_entries_stops entries : forall t0 t t1 p t2,
  snd (copy_entries env self entries t0) = t0 ++ t ->
  t = t1 ++ Exists p :: t2 ->
  path_exists env (t0 ++ t1) p = true ->
  t2 = [].
Proof.
  induction entries as [|f rest IH]; intros t0 t t1 p t2 Hrun -> Hfound.
  { simpl in Hrun. rewrite <- (app_nil_r t0) in Hrun at 1.
    apply app_inv_head in Hrun. by destruct t1. }
  rewrite copy_entries_step in Hrun. cbv zeta in Hrun.
  set (old := join env (schemeless_path self) f) in *.
  set (new := join env (tmpdir self) f) in *.
  assert (Hkind : forall q, copy_for env self f t0 <> Exists q).
  { intros q. unfold copy_for. by destruct (isdir env _ _). }
  destruct (path_exists env t0 new) eqn:Hpresent.
  { simpl in Hrun. apply app_inv_head in Hrun.
    destruct t1 as [|x [|y t1]]; by simplify_eq/=. }
  assert (Hfirst : forall t',
    [Exists new; IsDir old; copy_for env self f t0] ++ t' = t1 ++ Exists p :: t2 ->
    exists t1'', t1 = [Exists new; IsDir old; copy_for env self f t0] ++ t1'' /\
                 t' = t1'' ++ Exists p :: t2).
  { intros t' Heq. destruct t1 as [|x [|y [|z t1]]]; simplify_eq/=.
    - rewrite app_nil_r in Hfound. congruence.
    - by destruct (Hkind p).
    - by eexists. }
  match type of Hrun with context [match ?c with Some _ => _ | None => _ end] =>
    destruct c as [exn|] end.
  - simpl in Hrun. apply app_inv_head in Hrun.
    destruct (Hfirst [] Hrun) as (t1'' & -> & Hnil). by destruct t1''.
  - destruct (copy_entries_spec rest (t0 ++ [Exists new; IsDir old; copy_for env self f t0]))
      as (t' & _ & Ht' & _).
    rewrite Ht', <- app_assoc in Hrun. apply app_inv_head in Hrun.
    destruct (Hfirst t' Hrun) as (t1'' & -> & ->).
    apply (IH _ _ t1'' p t2 Ht' eq_refl). by rewrite <- app_assoc.
Qed.

(** X24: [PathSource.get] lists the source directory and raises what
    [os.listdir] raises, having copied nothing.  Otherwise the copies it
    makes are for the entries of a prefix of the listing, in the order of
    the listing, each from the source directory to the staging directory
    under the same name; every copy comes right after a check that found
    no such path in the staging directory, and is a [copytree] exactly when
    the source is a directory; from the first entry that is found in the
    staging directory on, nothing is checked or copied (the check that
    finds it is the last call [get] makes); and what [get] returns, when it
    returns, is the staging directory. *)
Theorem get_copies_a_prefix (t0 : list Event) :
  let r := get env self t0 in
  let listed := t0 ++ [ListDir (schemeless_path self)] in
  match listdir env t0 (schemeless_path self) with
  | Raise e => r = (Raise e, listed)
  | Ok entries =>
      (forall dir, fst r = Ok dir -> dir = tmpdir self) /\
      (forall f rest,
         entries = f :: rest ->
         path_exists env listed (join env (tmpdir self) f) = true ->
         r = (Ok (tmpdir self), listed ++ [Exists (join env (tmpdir self) f)])) /\
      exists t copied,
        snd r = listed ++ t /\
        copied `prefix_of` entries /\
        omap copy_of t
        = (fun f => (join env (schemeless_path self) f, join env (tmpdir self) f))
            <$> copied /\
        omap check_of t `prefix_of` (join env (tmpdir self) <$> entries) /\
        (forall t1 e t2,
           t = t1 ++ e :: t2 -> is_Some (copy_of e) ->
           exists t1' f,
             t1 = t1' ++ [Exists (join env (tmpdir self) f);
                          IsDir (join env (schemeless_path self) f)] /\
             path_exists env (listed ++ t1') (join env (tmpdir self) f) = false /\
             e = copy_for env self f (listed ++ t1')) /\
        (forall t1 found t2,
           t = t1 ++ Exists found :: t2 ->
           path_exists env (listed ++ t1) found = true ->
           t2 = [])
  end.
Proof.
  cbv zeta. unfold get, call_listdir, emit, bind, Py.get, modify, lift, ret. cbn [fst snd].
  destruct (listdir env t0 (schemeless_path self)) as [entries|e]; [|done].
  split; [|split].
  - intros dir. destruct (copy_entries env self entries _) as [[[]|e] t]; simpl; congruence.
  - intros f rest -> Hpresent. rewrite copy_entries_step. cbv zeta. by rewrite Hpresent.
  - destruct (copy_entries_spec entries (t0 ++ [ListDir (schemeless_path self)]))
      as (t & copied & Ht & Hprefix & Hcopies & Hchecks & Hbefore).
    exists t, copied.
    split; [by destruct (copy_entries env self entries _) as [[[]|e] t']|].
    split; [done|]. split; [done|]. split; [done|]. split; [done|].
    intros t1 found t2 Heq Hfound.
    by apply (copy_entries_stops entries _ t t1 found t2 Ht Heq).
Qed.

End Facts.

Import Samples.

(** The first two entries are copied, the third is found and ends the
    loop. *)
Lemma get_copies_a_prefix_witness :
  get half_staged_env local_source []
  = (Ok "/tmp/build",
     [ListDir "/work";
      Exists "/tmp/build/Dockerfile"; IsDir "/work/Dockerfile";
      Copy2 "/work/Dockerfile" "/tmp/build/Dockerfile";
      Exists "/tmp/build/src"; IsDir "/work/src"; CopyTree "/work/src" "/tmp/build/src";
      Exists "/tmp/build/README"]) /\
  forall dir, fst (get half_staged_env local_source []) = Ok dir -> dir = "/tmp/build".
Proof.
  split; [reflexivity|].
  pose proof (get_copies_a_prefix half_staged_env local_source []) as H.
  simpl in H. destruct H as [H _]. exact H.
Defined.

End DockSourceSpec.
